(** * Voice agent front end: signal extractors and call orchestration

    A shallow embedding of the [VoiceAgent] React component (the page that
    drives a call) and of the two signal extractors it defines, followed by
    the properties of the orchestration logic that the design document
    states.

    Conventions of the embedding.
    - A JavaScript string is a list of code units.  Code units are modelled
      by [ascii], i.e. the range 0..255 (ASCII and Latin-1); the character
      classes of the regular expressions ([\d], [\s], [\w], [\b]) and
      [toLowerCase] are the JavaScript ones restricted to that range.
    - React state is kept twice: [st] holds the value the next render will
      see (every [setX] has been applied), [rendered] holds the values of
      the last committed render, which is what the closures created by that
      render captured.  Refs ([useRef]) are plain mutable fields.
    - A closure is represented by the values it captured.
    - An asynchronous function is cut at its [await]s: every piece between
      two suspension points is one atomic handler. *)

From Stdlib Require Import ZArith Lia List Bool Ascii String PeanoNat.
From Stdlib Require QArith DecimalString.
From stdpp Require Import base list.
Import ListNotations.

Local Open Scope bool_scope.
Local Open Scope nat_scope.

(* ===================================================================== *)
(** * Part I: definitions                                                  *)
(* ===================================================================== *)

(** ** Code units and character classes *)

Definition code (c : ascii) : nat := nat_of_ascii c.

Definition between (lo hi : nat) (c : ascii) : bool :=
  (lo <=? code c) && (code c <=? hi).

(** [\d] *)
Definition isDigit (c : ascii) : bool := between 48 57 c.
Definition isUpper (c : ascii) : bool := between 65 90 c.
Definition isLower (c : ascii) : bool := between 97 122 c.
(** [[a-z]] under the [i] flag: the ASCII letters of both cases. *)
Definition isLetter (c : ascii) : bool := isUpper c || isLower c.
(** [\w] = [[A-Za-z0-9_]] *)
Definition isWordChar (c : ascii) : bool :=
  isLetter c || isDigit c || (code c =? 95).
(** [\s] within 0..255: TAB, LF, VT, FF, CR, space and NBSP. *)
Definition isSpace (c : ascii) : bool :=
  between 9 13 c || (code c =? 32) || (code c =? 160).

(** [String.prototype.toLowerCase] on one code unit of the range: the ASCII
    capitals and the Latin-1 capitals (all of 192..222 but the
    multiplication sign 215) move up by 32. *)
Definition toLowerChar (c : ascii) : ascii :=
  if isUpper c || (between 192 222 c && negb (code c =? 215))
  then ascii_of_nat (code c + 32) else c.

(** [toUpperCase] on the ASCII letters, which is all it is applied to (the
    first character of a capture of [[a-z]+]); it is also the
    canonicalisation the [i] flag applies when a code unit is compared with
    an ASCII pattern character. *)
Definition toUpperChar (c : ascii) : ascii :=
  if isLower c then ascii_of_nat (code c - 32) else c.

Definition toLowerCase (s : list ascii) : list ascii := map toLowerChar s.
Definition toUpperCase (s : list ascii) : list ascii := map toUpperChar s.

Definition chars (s : string) : list ascii := list_ascii_of_string s.
Definition str (l : list ascii) : string := string_of_list_ascii l.

(** ** Small regular-expression toolkit *)

Fixpoint takeWhile (p : ascii -> bool) (s : list ascii) : list ascii :=
  match s with
  | c :: rest => if p c then c :: takeWhile p rest else []
  | [] => []
  end.

Fixpoint dropWhile (p : ascii -> bool) (s : list ascii) : list ascii :=
  match s with
  | c :: rest => if p c then dropWhile p rest else s
  | [] => []
  end.

(** [s.startsWith(w)], code unit by code unit. *)
Fixpoint startsWith (w s : list ascii) : bool :=
  match w, s with
  | [], _ => true
  | a :: w', b :: s' => Ascii.eqb a b && startsWith w' s'
  | _ :: _, [] => false
  end.

(** The same under the [i] flag. *)
Fixpoint startsWithCI (w s : list ascii) : bool :=
  match w, s with
  | [], _ => true
  | a :: w', b :: s' =>
      Ascii.eqb (toUpperChar a) (toUpperChar b) && startsWithCI w' s'
  | _ :: _, [] => false
  end.

Definition isWordOpt (o : option ascii) : bool :=
  match o with Some c => isWordChar c | None => false end.

(** [\b] between two neighbouring positions; [None] is the edge of the
    input. *)
Definition wordBoundary (before after : option ascii) : bool :=
  xorb (isWordOpt before) (isWordOpt after).

(** [/\bw\b/] tried at the head of [s], [prev] being the code unit in front
    of it. *)
Definition matchWordAt (w : list ascii) (prev : option ascii)
    (s : list ascii) : bool :=
  wordBoundary prev (head s)
  && startsWith w s
  && wordBoundary (last w) (head (skipn (List.length w) s)).

(** [s.replace(new RegExp("\\bw\\b", "g"), d)]: scan from the left, replace
    every match, resume after it.  [skip] counts the code units of the
    current match that are still to be consumed. *)
Fixpoint replaceWordFrom (w d : list ascii) (prev : option ascii)
    (skip : nat) (s : list ascii) : list ascii :=
  match s with
  | [] => []
  | c :: rest =>
      match skip with
      | S k => replaceWordFrom w d (Some c) k rest
      | O =>
          if matchWordAt w prev s
          then d ++ replaceWordFrom w d (Some c) (List.length w - 1) rest
          else c :: replaceWordFrom w d (Some c) 0 rest
      end
  end.

Definition replaceWord (w d : list ascii) (s : list ascii) : list ascii :=
  replaceWordFrom w d None 0 s.

(** [l.slice(-n)] *)
Definition lastN (n : nat) (l : list ascii) : list ascii :=
  skipn (List.length l - n) l.

(** [s.match(/\d{n,}/)]: the leftmost position where at least [n] digits
    follow, and greedily all the digits from there. *)
Fixpoint matchDigitRun (n : nat) (s : list ascii) : option (list ascii) :=
  match s with
  | [] => None
  | _ :: rest =>
      let run := takeWhile isDigit s in
      if n <=? List.length run then Some run else matchDigitRun n rest
  end.

(** The longest prefix of the form [(\d\s* )*]; [inGroup] tells that a digit
    has been read, so that white space may follow. *)
Fixpoint spacedRun (inGroup : bool) (s : list ascii) : list ascii :=
  match s with
  | [] => []
  | c :: rest =>
      if isDigit c then c :: spacedRun true rest
      else if inGroup && isSpace c then c :: spacedRun true rest
      else []
  end.

Definition countDigits (s : list ascii) : nat :=
  List.length (List.filter isDigit s).

(** [s.match(/(\d\s* ){n,}/)]: leftmost position from which [n] groups can
    be read; the greedy quantifiers then take the longest such prefix. *)
Fixpoint matchSpacedDigits (n : nat) (s : list ascii) : option (list ascii) :=
  match s with
  | [] => None
  | _ :: rest =>
      let m := spacedRun false s in
      if n <=? countDigits m then Some m else matchSpacedDigits n rest
  end.

(** ** extractPhoneNumber *)

(** [Object.entries(numberWords)], in insertion order. *)
Definition numberWords : list (string * string) :=
  [ ("zero", "0"); ("one", "1"); ("two", "2"); ("three", "3"); ("four", "4");
    ("five", "5"); ("six", "6"); ("seven", "7"); ("eight", "8"); ("nine", "9");
    ("oh", "0"); ("o", "0") ]%string.

(** [let normalized = text.toLowerCase(); Object.entries(numberWords).forEach(...)] *)
Definition normalizeWords (text : list ascii) : list ascii :=
  fold_left (fun normalized wd => replaceWord (chars (fst wd)) (chars (snd wd)) normalized)
            numberWords (toLowerCase text).

(** The class [[\s\-\(\)\.\,]]. *)
Definition isSeparator (c : ascii) : bool :=
  isSpace c || (code c =? 45) || (code c =? 40) || (code c =? 41)
  || (code c =? 46) || (code c =? 44).

(** [normalized.replace(/[\s\-\(\)\.\,]/g, '')] *)
Definition stripSeparators (s : list ascii) : list ascii :=
  List.filter (fun c => negb (isSeparator c)) s.

Definition cleanedDigits (text : list ascii) : list ascii :=
  stripSeparators (normalizeWords text).

Definition extractPhoneNumberL (text : list ascii) : option (list ascii) :=
  let normalized := normalizeWords text in
  let cleaned := stripSeparators normalized in
  match matchDigitRun 10 cleaned with
  | Some phoneMatch => Some (lastN 10 phoneMatch)
  | None =>
      match matchSpacedDigits 10 normalized with
      | Some spacedDigits =>
          let digits := List.filter isDigit spacedDigits in
          if 10 <=? List.length digits then Some (lastN 10 digits) else None
      | None => None
      end
  end.

Definition extractPhoneNumber (text : string) : option string :=
  option_map str (extractPhoneNumberL (chars text)).

(** ** extractName *)

(** One entry per regular expression of [namePatterns]; an entry lists the
    literal prefixes its alternation allows, in the order the alternation
    tries them.  Every pattern continues with [\s+([a-z]+)]. *)
Definition namePatterns : list (list string) :=
  [ ["my name is"]; ["i'm"; "i am"]; ["this is"]; ["call me"];
    ["name's"; "name is"] ]%string.

Definition falsePositives : list string :=
  ["calling"; "looking"; "trying"; "here"; "there"; "asking"; "booking"]%string.

Definition nonEmpty (l : list ascii) : bool :=
  match l with [] => false | _ => true end.

(** [\s+([a-z]+)] read at the head of [s]; the capture is the result. *)
Definition captureAfter (s : list ascii) : option (list ascii) :=
  let ws := takeWhile isSpace s in
  let cap := takeWhile isLetter (dropWhile isSpace s) in
  if nonEmpty ws && nonEmpty cap then Some cap else None.

(** One alternative of a pattern tried at the head of [s]. *)
Definition matchAltAt (alt : string) (s : list ascii) : option (list ascii) :=
  if startsWithCI (chars alt) s
  then captureAfter (skipn (List.length (chars alt)) s)
  else None.

(** A whole pattern tried at the head of [s]: the alternatives in order. *)
Fixpoint matchPatternAt (alts : list string) (s : list ascii)
    : option (list ascii) :=
  match alts with
  | [] => None
  | alt :: more =>
      match matchAltAt alt s with
      | Some cap => Some cap
      | None => matchPatternAt more s
      end
  end.

(** [text.match(pattern)] for a pattern without the [g] flag: the leftmost
    position where it matches; the result is [match[1]]. *)
Fixpoint matchPattern (alts : list string) (s : list ascii)
    : option (list ascii) :=
  match matchPatternAt alts s with
  | Some cap => Some cap
  | None =>
      match s with
      | [] => None
      | _ :: rest => matchPattern alts rest
      end
  end.

(** [falsePositives.includes(name.toLowerCase())] *)
Definition isFalsePositive (name : list ascii) : bool :=
  existsb (fun fp => String.eqb fp (str (toLowerCase name))) falsePositives.

(** [name.charAt(0).toUpperCase() + name.slice(1).toLowerCase()] *)
Definition capitalize (name : list ascii) : list ascii :=
  match name with
  | [] => []
  | c :: rest => toUpperChar c :: toLowerCase rest
  end.

(** The [for (const pattern of namePatterns)] loop. *)
Fixpoint tryPatterns (patterns : list (list string)) (text : list ascii)
    : option (list ascii) :=
  match patterns with
  | [] => None
  | pattern :: more =>
      match matchPattern pattern text with
      | Some name =>
          if negb (isFalsePositive name) then Some (capitalize name)
          else tryPatterns more text
      | None => tryPatterns more text
      end
  end.

Definition extractNameL (text : list ascii) : option (list ascii) :=
  tryPatterns namePatterns text.

Definition extractName (text : string) : option string :=
  option_map str (extractNameL (chars text)).

(** ** Vocabulary of the extractor properties *)

Definition isDigitOpt (o : option ascii) : bool :=
  match o with Some c => isDigit c | None => false end.

Definition isLetterOpt (o : option ascii) : bool :=
  match o with Some c => isLetter c | None => false end.

Definition allOf (p : ascii -> bool) (l : list ascii) : Prop :=
  Forall (fun c => p c = true) l.

(** [s] contains [n] or more digits in a row. *)
Definition hasLongRun (n : nat) (s : list ascii) : Prop :=
  exists pre run post,
    s = pre ++ run ++ post /\ allOf isDigit run /\ n <= List.length run.

(** [run] is the first block of [n] or more digits of [s]: a block that no
    digit touches on either side, with no such block in front of it. *)
Definition firstLongRun (n : nat) (s run : list ascii) : Prop :=
  exists pre post,
    s = pre ++ run ++ post
    /\ allOf isDigit run /\ n <= List.length run
    /\ isDigitOpt (last pre) = false
    /\ isDigitOpt (head post) = false
    /\ ~ hasLongRun n pre.

(** Equality under the [i] flag. *)
Definition equalCI (a b : list ascii) : Prop :=
  toUpperCase a = toUpperCase b.

(** [s] begins with the literal [alt] in any mix of cases, then white
    space, then the name [cap], and the name ends there. *)
Definition readsAlt (alt : string) (s cap : list ascii) : Prop :=
  exists lit ws rest,
    s = lit ++ ws ++ cap ++ rest
    /\ equalCI lit (chars alt)
    /\ ws <> [] /\ allOf isSpace ws
    /\ cap <> [] /\ allOf isLetter cap
    /\ isLetterOpt (head rest) = false.

(** A pattern read at the head of [s]: its first alternative that can be
    read there gives the capture. *)
Definition readsPattern (alts : list string) (s cap : list ascii) : Prop :=
  exists i alt,
    alts !! i = Some alt /\ readsAlt alt s cap
    /\ forall j alt' cap',
         j < i -> alts !! j = Some alt' -> ~ readsAlt alt' s cap'.

(** The leftmost place of [text] where the pattern can be read. *)
Definition firstOccurrence (alts : list string) (text cap : list ascii)
    : Prop :=
  exists pre suf,
    text = pre ++ suf /\ readsPattern alts suf cap
    /\ forall pre' suf' cap',
         text = pre' ++ suf' -> List.length pre' < List.length pre ->
         ~ readsPattern alts suf' cap'.

(** The capture is not on the deny-list. *)
Definition accepted (cap : list ascii) : Prop :=
  ~ In (str (toLowerCase cap)) falsePositives.

(** ** The call orchestrator: data *)

Inductive Role := RoleUser | RoleAssistant.

(** A transcript entry.  The [id] and [timestamp] of the source are display
    data computed from the clock and are left out. *)
Record Message := { role : Role; content : string }.

(** [status: "pending" | "running" | "completed" | "error"] *)
Inductive ToolStatus := StPending | StRunning | StCompleted | StError.

(** [interface ToolCallData] *)
Record ToolCallData := {
  tcId : string;
  tcName : string;
  tcParameters : option string;
  tcResult : option string;
  tcStatus : ToolStatus
}.

(** The value [JSON.parse] produces for one line, by [event.type]. *)
Inductive StreamEvent :=
| EvUserTranscript (data : string)
| EvToolCallStart (id name : string) (parameters : option string)
| EvToolCallEnd (id : string) (result : option string)
| EvTranscript (data : string)
| EvAudio (data : string)
| EvDone (endCallFlag : bool)
| EvError (error : string)
| EvOther.

(** One line of the response body: it does not start with ["data: "], or
    [JSON.parse] throws a [SyntaxError] on it, or it parses to an event. *)
Inductive StreamLine :=
| LineNotData
| LineMalformed
| LineEvent (e : StreamEvent).

(** The component's [useState] cells that the modelled handlers read or
    write. *)
Record ReactState := {
  isCallActive : bool;
  isListening : bool;
  isSpeaking : bool;
  isProcessing : bool;
  isMuted : bool;
  useBey : bool;
  sessionId : option Z;
  messages : list Message;
  currentTranscript : string;
  toolCalls : list ToolCallData
}.

(** What the closure [startListening] of a render captured. *)
Record StartListeningEnv := { slProcessing : bool; slSpeaking : bool }.

(** What the closure [endCall] of a render captured. *)
Record EndCallEnv := { ecSessionId : option Z; ecMessages : list Message }.

(** What the closure [sendVoiceMessage] of a render captured: its own
    [sessionId], the [isMuted] of its [playAudio] and its [endCall]. *)
Record SendEnv := {
  svSessionId : option Z;
  svMuted : bool;
  svEndCall : EndCallEnv
}.

Record Refs := {
  isCallActiveRef : bool;
  isRecordingRef : bool;
  isMicPausedRef : bool;
  isProcessingRef : bool;
  isSpeakingRef : bool;
  useBeyRef : bool;
  autoRestartTimeoutRef : option positive;
  silenceTimeoutRef : option positive;
  mediaRecorderRef : option nat;
  streamRef : bool;
  analyserRef : bool;
  workletRef : bool;
  chunksRef : list Z;
  startListeningRef : option StartListeningEnv;
  sendVoiceMessageRef : option SendEnv
}.

(** The two callbacks the component hands to [setTimeout] repeatedly: the
    restart callback of [scheduleAutoRestart] and the safety cut-off of one
    recorder. *)
Inductive TimerKind := AutoRestart | SafetyCutoff (recorder : nat).

Record Timer := { timerId : positive; timerKind : TimerKind; timerDelay : Z }.

(** [MediaRecorder.state] is ["recording"] for [Recording] and
    ["inactive"] for the other two; [Stopped] still owes its [stop]
    event. *)
Inductive RecorderState := Recording | Stopped | Finished.

(** Messages posted to the playback worklet. *)
Inductive WorkletMsg :=
| MsgAudio (samples : list QArith_base.Q)
| MsgClear
| MsgStreamComplete.

Record Toast := { title : string; description : string }.

(** The closure state of one [checkAudioLevel] loop. *)
Record Vad := { lastSoundTime : Z; hasSpoken : bool; vadRunning : bool }.

Inductive TurnPhase := Reading | AwaitingEndCall | Closed.

(** One running [sendVoiceMessage]. *)
Record Turn := {
  turnEnv : SendEnv;
  assistantTranscript : string;
  turnPhase : TurnPhase
}.

(** One [endCall] waiting for the answer of its request. *)
Record EndCallRequest := {
  reqEnv : EndCallEnv;
  reqTurn : option nat;
  reqDone : bool
}.

(** What lives outside the component: timers, recorders, promises and
    requests in flight, and what was shown or played. *)
Record Platform := {
  timers : list Timer;
  nextTimer : positive;
  recorders : list RecorderState;
  pendingGetUserMedia : nat;
  workletInbox : list WorkletMsg;
  toasts : list Toast;
  consoleErrors : list string;
  vads : list Vad;
  turns : list Turn;
  endCalls : list EndCallRequest
}.

Record State := {
  st : ReactState;
  rendered : ReactState;
  refs : Refs;
  env : Platform
}.

(** What [Date.now()] and [analyser.getByteFrequencyData] give a handler. *)
Record Probe := { now : Z; frequencyData : list Z }.

(** ** Field updates

    [with_f v r] is [r] with field [f] set to [v]. *)

Definition with_isCallActive v (r : ReactState) : ReactState :=
  Build_ReactState v (isListening r) (isSpeaking r) (isProcessing r)
    (isMuted r) (useBey r) (sessionId r) (messages r) (currentTranscript r)
    (toolCalls r).
Definition with_isListening v (r : ReactState) : ReactState :=
  Build_ReactState (isCallActive r) v (isSpeaking r) (isProcessing r)
    (isMuted r) (useBey r) (sessionId r) (messages r) (currentTranscript r)
    (toolCalls r).
Definition with_isSpeaking v (r : ReactState) : ReactState :=
  Build_ReactState (isCallActive r) (isListening r) v (isProcessing r)
    (isMuted r) (useBey r) (sessionId r) (messages r) (currentTranscript r)
    (toolCalls r).
Definition with_isProcessing v (r : ReactState) : ReactState :=
  Build_ReactState (isCallActive r) (isListening r) (isSpeaking r) v
    (isMuted r) (useBey r) (sessionId r) (messages r) (currentTranscript r)
    (toolCalls r).
Definition with_isMuted v (r : ReactState) : ReactState :=
  Build_ReactState (isCallActive r) (isListening r) (isSpeaking r)
    (isProcessing r) v (useBey r) (sessionId r) (messages r)
    (currentTranscript r) (toolCalls r).
Definition with_messages v (r : ReactState) : ReactState :=
  Build_ReactState (isCallActive r) (isListening r) (isSpeaking r)
    (isProcessing r) (isMuted r) (useBey r) (sessionId r) v
    (currentTranscript r) (toolCalls r).
Definition with_currentTranscript v (r : ReactState) : ReactState :=
  Build_ReactState (isCallActive r) (isListening r) (isSpeaking r)
    (isProcessing r) (isMuted r) (useBey r) (sessionId r) (messages r) v
    (toolCalls r).
Definition with_toolCalls v (r : ReactState) : ReactState :=
  Build_ReactState (isCallActive r) (isListening r) (isSpeaking r)
    (isProcessing r) (isMuted r) (useBey r) (sessionId r) (messages r)
    (currentTranscript r) v.
Definition with_isCallActiveRef v (r : Refs) : Refs :=
  Build_Refs v (isRecordingRef r) (isMicPausedRef r) (isProcessingRef r)
    (isSpeakingRef r) (useBeyRef r) (autoRestartTimeoutRef r)
    (silenceTimeoutRef r) (mediaRecorderRef r) (streamRef r) (analyserRef r)
    (workletRef r) (chunksRef r) (startListeningRef r) (sendVoiceMessageRef
    r).
Definition with_isRecordingRef v (r : Refs) : Refs :=
  Build_Refs (isCallActiveRef r) v (isMicPausedRef r) (isProcessingRef r)
    (isSpeakingRef r) (useBeyRef r) (autoRestartTimeoutRef r)
    (silenceTimeoutRef r) (mediaRecorderRef r) (streamRef r) (analyserRef r)
    (workletRef r) (chunksRef r) (startListeningRef r) (sendVoiceMessageRef
    r).
Definition with_isMicPausedRef v (r : Refs) : Refs :=
  Build_Refs (isCallActiveRef r) (isRecordingRef r) v (isProcessingRef r)
    (isSpeakingRef r) (useBeyRef r) (autoRestartTimeoutRef r)
    (silenceTimeoutRef r) (mediaRecorderRef r) (streamRef r) (analyserRef r)
    (workletRef r) (chunksRef r) (startListeningRef r) (sendVoiceMessageRef
    r).
Definition with_isProcessingRef v (r : Refs) : Refs :=
  Build_Refs (isCallActiveRef r) (isRecordingRef r) (isMicPausedRef r) v
    (isSpeakingRef r) (useBeyRef r) (autoRestartTimeoutRef r)
    (silenceTimeoutRef r) (mediaRecorderRef r) (streamRef r) (analyserRef r)
    (workletRef r) (chunksRef r) (startListeningRef r) (sendVoiceMessageRef
    r).
Definition with_isSpeakingRef v (r : Refs) : Refs :=
  Build_Refs (isCallActiveRef r) (isRecordingRef r) (isMicPausedRef r)
    (isProcessingRef r) v (useBeyRef r) (autoRestartTimeoutRef r)
    (silenceTimeoutRef r) (mediaRecorderRef r) (streamRef r) (analyserRef r)
    (workletRef r) (chunksRef r) (startListeningRef r) (sendVoiceMessageRef
    r).
Definition with_useBeyRef v (r : Refs) : Refs :=
  Build_Refs (isCallActiveRef r) (isRecordingRef r) (isMicPausedRef r)
    (isProcessingRef r) (isSpeakingRef r) v (autoRestartTimeoutRef r)
    (silenceTimeoutRef r) (mediaRecorderRef r) (streamRef r) (analyserRef r)
    (workletRef r) (chunksRef r) (startListeningRef r) (sendVoiceMessageRef
    r).
Definition with_autoRestartTimeoutRef v (r : Refs) : Refs :=
  Build_Refs (isCallActiveRef r) (isRecordingRef r) (isMicPausedRef r)
    (isProcessingRef r) (isSpeakingRef r) (useBeyRef r) v (silenceTimeoutRef
    r) (mediaRecorderRef r) (streamRef r) (analyserRef r) (workletRef r)
    (chunksRef r) (startListeningRef r) (sendVoiceMessageRef r).
Definition with_silenceTimeoutRef v (r : Refs) : Refs :=
  Build_Refs (isCallActiveRef r) (isRecordingRef r) (isMicPausedRef r)
    (isProcessingRef r) (isSpeakingRef r) (useBeyRef r)
    (autoRestartTimeoutRef r) v (mediaRecorderRef r) (streamRef r)
    (analyserRef r) (workletRef r) (chunksRef r) (startListeningRef r)
    (sendVoiceMessageRef r).
Definition with_mediaRecorderRef v (r : Refs) : Refs :=
  Build_Refs (isCallActiveRef r) (isRecordingRef r) (isMicPausedRef r)
    (isProcessingRef r) (isSpeakingRef r) (useBeyRef r)
    (autoRestartTimeoutRef r) (silenceTimeoutRef r) v (streamRef r)
    (analyserRef r) (workletRef r) (chunksRef r) (startListeningRef r)
    (sendVoiceMessageRef r).
Definition with_streamRef v (r : Refs) : Refs :=
  Build_Refs (isCallActiveRef r) (isRecordingRef r) (isMicPausedRef r)
    (isProcessingRef r) (isSpeakingRef r) (useBeyRef r)
    (autoRestartTimeoutRef r) (silenceTimeoutRef r) (mediaRecorderRef r) v
    (analyserRef r) (workletRef r) (chunksRef r) (startListeningRef r)
    (sendVoiceMessageRef r).
Definition with_analyserRef v (r : Refs) : Refs :=
  Build_Refs (isCallActiveRef r) (isRecordingRef r) (isMicPausedRef r)
    (isProcessingRef r) (isSpeakingRef r) (useBeyRef r)
    (autoRestartTimeoutRef r) (silenceTimeoutRef r) (mediaRecorderRef r)
    (streamRef r) v (workletRef r) (chunksRef r) (startListeningRef r)
    (sendVoiceMessageRef r).
Definition with_chunksRef v (r : Refs) : Refs :=
  Build_Refs (isCallActiveRef r) (isRecordingRef r) (isMicPausedRef r)
    (isProcessingRef r) (isSpeakingRef r) (useBeyRef r)
    (autoRestartTimeoutRef r) (silenceTimeoutRef r) (mediaRecorderRef r)
    (streamRef r) (analyserRef r) (workletRef r) v (startListeningRef r)
    (sendVoiceMessageRef r).
Definition with_startListeningRef v (r : Refs) : Refs :=
  Build_Refs (isCallActiveRef r) (isRecordingRef r) (isMicPausedRef r)
    (isProcessingRef r) (isSpeakingRef r) (useBeyRef r)
    (autoRestartTimeoutRef r) (silenceTimeoutRef r) (mediaRecorderRef r)
    (streamRef r) (analyserRef r) (workletRef r) (chunksRef r) v
    (sendVoiceMessageRef r).
Definition with_sendVoiceMessageRef v (r : Refs) : Refs :=
  Build_Refs (isCallActiveRef r) (isRecordingRef r) (isMicPausedRef r)
    (isProcessingRef r) (isSpeakingRef r) (useBeyRef r)
    (autoRestartTimeoutRef r) (silenceTimeoutRef r) (mediaRecorderRef r)
    (streamRef r) (analyserRef r) (workletRef r) (chunksRef r)
    (startListeningRef r) v.
Definition with_timers v (r : Platform) : Platform :=
  Build_Platform v (nextTimer r) (recorders r) (pendingGetUserMedia r)
    (workletInbox r) (toasts r) (consoleErrors r) (vads r) (turns r)
    (endCalls r).
Definition with_nextTimer v (r : Platform) : Platform :=
  Build_Platform (timers r) v (recorders r) (pendingGetUserMedia r)
    (workletInbox r) (toasts r) (consoleErrors r) (vads r) (turns r)
    (endCalls r).
Definition with_recorders v (r : Platform) : Platform :=
  Build_Platform (timers r) (nextTimer r) v (pendingGetUserMedia r)
    (workletInbox r) (toasts r) (consoleErrors r) (vads r) (turns r)
    (endCalls r).
Definition with_pendingGetUserMedia v (r : Platform) : Platform :=
  Build_Platform (timers r) (nextTimer r) (recorders r) v (workletInbox r)
    (toasts r) (consoleErrors r) (vads r) (turns r) (endCalls r).
Definition with_workletInbox v (r : Platform) : Platform :=
  Build_Platform (timers r) (nextTimer r) (recorders r) (pendingGetUserMedia
    r) v (toasts r) (consoleErrors r) (vads r) (turns r) (endCalls r).
Definition with_toasts v (r : Platform) : Platform :=
  Build_Platform (timers r) (nextTimer r) (recorders r) (pendingGetUserMedia
    r) (workletInbox r) v (consoleErrors r) (vads r) (turns r) (endCalls r).
Definition with_consoleErrors v (r : Platform) : Platform :=
  Build_Platform (timers r) (nextTimer r) (recorders r) (pendingGetUserMedia
    r) (workletInbox r) (toasts r) v (vads r) (turns r) (endCalls r).
Definition with_vads v (r : Platform) : Platform :=
  Build_Platform (timers r) (nextTimer r) (recorders r) (pendingGetUserMedia
    r) (workletInbox r) (toasts r) (consoleErrors r) v (turns r) (endCalls
    r).
Definition with_turns v (r : Platform) : Platform :=
  Build_Platform (timers r) (nextTimer r) (recorders r) (pendingGetUserMedia
    r) (workletInbox r) (toasts r) (consoleErrors r) (vads r) v (endCalls
    r).
Definition with_endCalls v (r : Platform) : Platform :=
  Build_Platform (timers r) (nextTimer r) (recorders r) (pendingGetUserMedia
    r) (workletInbox r) (toasts r) (consoleErrors r) (vads r) (turns r) v.

Definition updState (f : ReactState -> ReactState) (s : State) : State :=
  Build_State (f (st s)) (rendered s) (refs s) (env s).
Definition updRefs (f : Refs -> Refs) (s : State) : State :=
  Build_State (st s) (rendered s) (f (refs s)) (env s).
Definition updEnv (f : Platform -> Platform) (s : State) : State :=
  Build_State (st s) (rendered s) (refs s) (f (env s)).
Definition commit (s : State) : State :=
  Build_State (st s) (st s) (refs s) (env s).

(** ** The call orchestrator: React setters and platform calls *)

(** Truthiness of a [number | null]: [null] and [0] are falsy. *)
Definition truthy (n : option Z) : bool :=
  match n with
  | Some k => negb (k =? 0)%Z
  | None => false
  end.

Definition setIsCallActive (b : bool) : State -> State :=
  updState (with_isCallActive b).
Definition setIsListening (b : bool) : State -> State :=
  updState (with_isListening b).
Definition setIsSpeaking (b : bool) : State -> State :=
  updState (with_isSpeaking b).
Definition setIsProcessing (b : bool) : State -> State :=
  updState (with_isProcessing b).
Definition setIsMuted (f : bool -> bool) : State -> State :=
  updState (fun r => with_isMuted (f (isMuted r)) r).
Definition setCurrentTranscript (t : string) : State -> State :=
  updState (with_currentTranscript t).
Definition setMessages (f : list Message -> list Message) : State -> State :=
  updState (fun r => with_messages (f (messages r)) r).
Definition setToolCalls (f : list ToolCallData -> list ToolCallData)
    : State -> State :=
  updState (fun r => with_toolCalls (f (toolCalls r)) r).

(** The closures a render with state [r] creates. *)
Definition startListeningOf (r : ReactState) : StartListeningEnv :=
  {| slProcessing := isProcessing r; slSpeaking := isSpeaking r |}.
Definition endCallOf (r : ReactState) : EndCallEnv :=
  {| ecSessionId := sessionId r; ecMessages := messages r |}.
Definition sendVoiceMessageOf (r : ReactState) : SendEnv :=
  {| svSessionId := sessionId r; svMuted := isMuted r;
     svEndCall := endCallOf r |}.

Definition timerIs (t : positive) (x : Timer) : bool := Pos.eqb (timerId x) t.

(** [setTimeout(callback, delay)]: a handle that was never used before. *)
Definition setTimeout (k : TimerKind) (delay : Z) (s : State)
    : positive * State :=
  let t := nextTimer (env s) in
  (t, updEnv (fun e => with_nextTimer (Pos.succ t)
                (with_timers (timers e ++ [Build_Timer t k delay]) e)) s).

Definition clearTimeout (t : positive) : State -> State :=
  updEnv (fun e =>
    with_timers (List.filter (fun x => negb (timerIs t x)) (timers e)) e).

Definition toast (ttl descr : string) : State -> State :=
  updEnv (fun e => with_toasts (toasts e ++ [Build_Toast ttl descr]) e).

Definition consoleError (msg : string) : State -> State :=
  updEnv (fun e => with_consoleErrors (consoleErrors e ++ [msg]) e).

(** [workletRef.current?.port.postMessage(m)] *)
Definition postToWorklet (m : WorkletMsg) (s : State) : State :=
  if workletRef (refs s)
  then updEnv (fun e => with_workletInbox (workletInbox e ++ [m]) e) s
  else s.

(** [recorder.state === "recording"] *)
Definition recorderRecording (r : nat) (s : State) : bool :=
  match recorders (env s) !! r with
  | Some Recording => true
  | _ => false
  end.

(** [recorder.stop()]: the state becomes ["inactive"] at once, the [stop]
    event is dispatched later. *)
Definition stopRecorder (r : nat) : State -> State :=
  updEnv (fun e => with_recorders (<[r := Stopped]> (recorders e)) e).

Definition sumZ (l : list Z) : Z := fold_right Z.add 0%Z l.

(** ** decodePCM16ToFloat32 *)

(** One element of [new Int16Array(bytes.buffer)]: two bytes, the low one
    first (typed arrays use the byte order of the platform, which is
    little-endian wherever browsers run), read as a two's complement
    number. *)
Definition int16 (lo hi : ascii) : Z :=
  let u := (Z.of_nat (code lo) + 256 * Z.of_nat (code hi))%Z in
  if (u <? 32768)%Z then u else (u - 65536)%Z.

(** [new Int16Array(bytes.buffer)]; a buffer with an odd number of bytes
    makes the constructor throw a [RangeError]. *)
Fixpoint pcm16 (bytes : list ascii) : option (list Z) :=
  match bytes with
  | [] => Some []
  | [_] => None
  | lo :: hi :: rest => option_map (cons (int16 lo hi)) (pcm16 rest)
  end.

(** [decodePCM16ToFloat32]; [atob] is the decoder of the platform, which
    gives a string of code units below 256, or throws.  The quotient
    [pcm16[i] / 32768] is exact in a [Float32Array]. *)
Definition decodePCM16ToFloat32 (atob : string -> option string)
    (base64Audio : string) : option (list QArith_base.Q) :=
  match atob base64Audio with
  | Some raw =>
      option_map (map (fun v => QArith_base.Qmake v 32768)) (pcm16 (chars raw))
  | None => None
  end.

(** ** atob

    The decoder of the platform (the "forgiving-base64 decode" of the
    Infra standard behind [window.atob]): ASCII white space is removed; when
    the length is then a multiple of four, one or two [=] at the end are
    removed; a length of the form [4 k + 1] or a character outside
    [A-Za-z0-9+/] throws an [InvalidCharacterError]; every character stands
    for six bits, and the bits beyond the last whole byte are discarded. *)

Definition isAsciiWhitespace (c : ascii) : bool :=
  let n := code c in
  (n =? 9) || (n =? 10) || (n =? 12) || (n =? 13) || (n =? 32).

Definition base64Index (c : ascii) : option N :=
  let n := N.of_nat (code c) in
  if isUpper c then Some (n - 65)%N
  else if isLower c then Some (n - 97 + 26)%N
  else if isDigit c then Some (n - 48 + 52)%N
  else if (n =? 43)%N then Some 62%N
  else if (n =? 47)%N then Some 63%N
  else None.

Definition stripPadding (d : list ascii) : list ascii :=
  if List.length d mod 4 =? 0
  then match rev d with
       | "="%char :: "="%char :: r => rev r
       | "="%char :: r => rev r
       | _ => d
       end
  else d.

Fixpoint sextets (d : list ascii) : option (list N) :=
  match d with
  | [] => Some []
  | c :: rest =>
      match base64Index c, sextets rest with
      | Some i, Some l => Some (i :: l)
      | _, _ => None
      end
  end.

Fixpoint decodeGroups (l : list N) : list ascii :=
  match l with
  | a :: b :: c :: d :: rest =>
      let n := (((a * 64 + b) * 64 + c) * 64 + d)%N in
      ascii_of_N (n / 65536) :: ascii_of_N ((n / 256) mod 256)
        :: ascii_of_N (n mod 256) :: decodeGroups rest
  | [a; b; c] =>
      let n := (((a * 64 + b) * 64 + c) / 4)%N in
      [ascii_of_N (n / 256); ascii_of_N (n mod 256)]
  | [a; b] => [ascii_of_N ((a * 64 + b) / 16)]
  | _ => []
  end.

Definition atob (data : string) : option string :=
  let d := stripPadding
             (List.filter (fun c => negb (isAsciiWhitespace c)) (chars data)) in
  if List.length d mod 4 =? 1 then None
  else option_map (fun l => str (decodeGroups l)) (sextets d).

(** The handlers below are studied without unfolding the decoder. *)
Arguments atob : simpl never.
Arguments decodePCM16ToFloat32 : simpl never.

(** ** scheduleAutoRestart and the playback pipeline *)

Definition clearAutoRestart (s : State) : State :=
  match autoRestartTimeoutRef (refs s) with
  | Some t => updRefs (with_autoRestartTimeoutRef None) (clearTimeout t s)
  | None => s
  end.

Definition scheduleAutoRestart (delay : Z) (s : State) : State :=
  let s := clearAutoRestart s in
  let (t, s) := setTimeout AutoRestart delay s in
  updRefs (with_autoRestartTimeoutRef (Some t)) s.

(** The condition of the restart callback. *)
Definition restartGuard (s : State) : bool :=
  isCallActiveRef (refs s)
  && negb (isRecordingRef (refs s))
  && negb (isMicPausedRef (refs s))
  && negb (isProcessingRef (refs s))
  && negb (isSpeakingRef (refs s)).

(** [playAudio]; [None] when [decodePCM16ToFloat32] throws, which is before
    anything is posted to the worklet. *)
Definition playAudio (muted : bool) (base64Audio : string) (s : State)
    : option State :=
  if negb (workletRef (refs s)) || muted then Some s
  else
    match decodePCM16ToFloat32 atob base64Audio with
    | Some samples =>
        Some (setIsSpeaking true (postToWorklet (MsgAudio samples) s))
    | None => None
    end.

Definition clearAudio (s : State) : State :=
  setIsSpeaking false (postToWorklet MsgClear s).

Definition signalAudioComplete (s : State) : State :=
  postToWorklet MsgStreamComplete s.

(** [worklet.port.onmessage] for a message of type ["ended"]. *)
Definition onWorkletEnded (s : State) : State :=
  scheduleAutoRestart 300 (setIsSpeaking false s).

(** ** Voice activity detection *)

Definition SILENCE_THRESHOLD : Z := 15.
Definition SILENCE_DURATION : Z := 1500.

(** [average > SILENCE_THRESHOLD], where [average] is the sum of the bytes
    of the frequency array divided by their number.  The bytes are
    integers, so the quotient exceeds the threshold exactly when the sum
    exceeds the threshold times the number of bytes; an empty array gives
    [NaN], for which the comparison is false, as it is here. *)
Definition aboveThreshold (data : list Z) : bool :=
  (SILENCE_THRESHOLD * Z.of_nat (List.length data) <? sumZ data)%Z.

Definition updVad (v : nat) (x : Vad) : State -> State :=
  updEnv (fun e => with_vads (<[v := x]> (vads e)) e).

(** The loop ends: no [requestAnimationFrame] is issued. *)
Definition exitVad (v : nat) (x : Vad) : State -> State :=
  updVad v (Build_Vad (lastSoundTime x) (hasSpoken x) false).

(** The silence branch: stop the recorder the pipeline holds. *)
Definition vadStop (s : State) : State :=
  match mediaRecorderRef (refs s) with
  | Some r =>
      if recorderRecording r s
      then setIsListening false
             (updRefs (with_isRecordingRef false) (stopRecorder r s))
      else s
  | None => s
  end.

(** One run of [checkAudioLevel] for the loop [v]. *)
Definition checkAudioLevel (v : nat) (p : Probe) (s : State) : State :=
  match vads (env s) !! v with
  | Some x =>
      if negb (vadRunning x) then s
      else if negb (isRecordingRef (refs s)) then exitVad v x s
      else if aboveThreshold (frequencyData p)
      then updVad v (Build_Vad (now p) true true) s
      else if hasSpoken x && (SILENCE_DURATION <? now p - lastSoundTime x)%Z
      then exitVad v x (vadStop s)
      else s
  | None => s
  end.

Definition startVoiceDetection (p : Probe) (s : State) : State :=
  if negb (analyserRef (refs s)) then s
  else
    let v := List.length (vads (env s)) in
    let s := updEnv (fun e =>
               with_vads (vads e ++ [Build_Vad (now p) false true]) e) s in
    checkAudioLevel v p s.

(** ** The capture pipeline *)

(** [startListening] from [new MediaRecorder] on. *)
Definition startRecording (p : Probe) (s : State) : State :=
  let r := List.length (recorders (env s)) in
  let s := updRefs (with_chunksRef []) s in
  let s := updEnv (fun e => with_recorders (recorders e ++ [Recording]) e) s in
  let s := updRefs (with_mediaRecorderRef (Some r)) s in
  let s := updRefs (with_isRecordingRef true) s in
  let s := setIsListening true s in
  let s := startVoiceDetection p s in
  let (t, s) := setTimeout (SafetyCutoff r) 30000 s in
  updRefs (with_silenceTimeoutRef (Some t)) s.

(** [startListening] up to its first suspension point: with a stream at
    hand there is none and the recording starts; without one the function
    waits for [getUserMedia]. *)
Definition startListening (c : StartListeningEnv) (p : Probe) (s : State)
    : State :=
  if isRecordingRef (refs s) || slProcessing c || slSpeaking c then s
  else if streamRef (refs s) then startRecording p s
  else updEnv (fun e =>
         with_pendingGetUserMedia (S (pendingGetUserMedia e)) e) s.

(** [getUserMedia] resolves: one waiting [startListening] goes on. *)
Definition onGetUserMediaResolved (p : Probe) (s : State) : State :=
  match pendingGetUserMedia (env s) with
  | O => s
  | S n =>
      let s := updEnv (with_pendingGetUserMedia n) s in
      let s := updRefs (with_streamRef true) s in
      let s := updRefs (with_analyserRef true) s in
      startRecording p s
  end.

(** [getUserMedia] rejects: the [catch] of [startListening]. *)
Definition onGetUserMediaRejected (s : State) : State :=
  match pendingGetUserMedia (env s) with
  | O => s
  | S n =>
      toast "Microphone Error"
            "Please allow microphone access to use voice features"
            (consoleError "Failed to start listening:"
               (updEnv (with_pendingGetUserMedia n) s))
  end.

(** The callback of the 30 s safety timer of recorder [r]. *)
Definition safetyCutoff (r : nat) (s : State) : State :=
  if recorderRecording r s
  then setIsListening false
         (updRefs (with_isRecordingRef false) (stopRecorder r s))
  else s.

Definition stopListening (s : State) : State :=
  let s := match silenceTimeoutRef (refs s) with
           | Some t => updRefs (with_silenceTimeoutRef None) (clearTimeout t s)
           | None => s
           end in
  let s := match mediaRecorderRef (refs s) with
           | Some r => if recorderRecording r s then stopRecorder r s else s
           | None => s
           end in
  setIsListening false (updRefs (with_isRecordingRef false) s).

(** [mediaRecorder.ondataavailable] for a chunk of [size] bytes. *)
Definition onDataAvailable (size : Z) (s : State) : State :=
  if (0 <? size)%Z
  then updRefs (fun r => with_chunksRef (chunksRef r ++ [size]) r) s
  else s.

(** The threshold of [audioBlob.size > 1000]. *)
Definition MIN_BLOB_SIZE : Z := 1000.

(** [sendVoiceMessage] up to its first [await]. *)
Definition sendVoiceMessage (c : SendEnv) (blobSize : Z) (s : State) : State :=
  if negb (truthy (svSessionId c)) then s
  else
    let s := setIsProcessing true s in
    let s := setCurrentTranscript "" s in
    updEnv (fun e => with_turns (turns e ++ [Build_Turn c "" Reading]) e) s.

(** The body of [mediaRecorder.onstop]; the blob is the concatenation of
    the buffered chunks. *)
Definition onStopHandler (s : State) : State :=
  let size := sumZ (chunksRef (refs s)) in
  let s := updRefs (with_chunksRef []) s in
  if (MIN_BLOB_SIZE <? size)%Z
  then match sendVoiceMessageRef (refs s) with
       | Some c => sendVoiceMessage c size s
       | None => s
       end
  else scheduleAutoRestart 100 s.

(** The [stop] event of recorder [r] is dispatched. *)
Definition onRecorderStop (r : nat) (s : State) : State :=
  match recorders (env s) !! r with
  | Some Stopped =>
      onStopHandler
        (updEnv (fun e => with_recorders (<[r := Finished]> (recorders e)) e) s)
  | _ => s
  end.

(** The callback [scheduleAutoRestart] hands to [setTimeout]. *)
Definition autoRestartCallback (p : Probe) (s : State) : State :=
  let s := updRefs (with_autoRestartTimeoutRef None) s in
  if restartGuard s
  then match startListeningRef (refs s) with
       | Some c => startListening c p s
       | None => s
       end
  else s.

(** ** endCall *)

(** [endCall] up to its [await fetch]; [None] when it returned at once for
    want of a session. *)
Definition endCallSync (c : EndCallEnv) (s : State) : option State :=
  if negb (truthy (ecSessionId c)) then None
  else
    let s := updRefs (with_isCallActiveRef false) s in
    let s := clearAutoRestart s in
    let s := setIsProcessing true s in
    let s := clearAudio s in
    let s := stopListening s in
    let s := updRefs (with_streamRef false) s in
    let s := updRefs (with_analyserRef false) s in
    Some s.

Definition endCall (c : EndCallEnv) (fromTurn : option nat) (s : State)
    : State :=
  match endCallSync c s with
  | Some s =>
      updEnv (fun e =>
        with_endCalls (endCalls e ++ [Build_EndCallRequest c fromTurn false]) e) s
  | None => s
  end.

Definition updTurn (k : nat) (x : Turn) : State -> State :=
  updEnv (fun e => with_turns (<[k := x]> (turns e)) e).

Definition setPhase (ph : TurnPhase) (x : Turn) : Turn :=
  Build_Turn (turnEnv x) (assistantTranscript x) ph.

(** The request of [endCall] number [j] is answered ([ok]) or fails. *)
Definition onEndCallResponse (j : nat) (ok : bool) (s : State) : State :=
  match endCalls (env s) !! j with
  | Some q =>
      if reqDone q then s
      else
        let s := updEnv (fun e =>
                   with_endCalls
                     (<[j := Build_EndCallRequest (reqEnv q) (reqTurn q) true]>
                        (endCalls e)) e) s in
        let s := if ok
                 then setIsSpeaking false
                        (setIsListening false (setIsCallActive false s))
                 else toast "Error" "Failed to generate call summary"
                        (consoleError "Failed to end call:" s) in
        let s := setIsProcessing false s in
        match reqTurn q with
        | Some k =>
            match turns (env s) !! k with
            | Some x => updTurn k (setPhase Reading x) s
            | None => s
            end
        | None => s
        end
  | None => s
  end.

(** ** The streamed-response consumer *)

(** [case "tool_call_start"] *)
Definition toolCallStart (id name : string) (parameters : option string)
    (prev : list ToolCallData) : list ToolCallData :=
  prev ++ [Build_ToolCallData id name parameters None StRunning].

(** [case "tool_call_end"] *)
Definition toolCallEnd (id : string) (result : option string)
    (prev : list ToolCallData) : list ToolCallData :=
  map (fun tc =>
         if String.eqb (tcId tc) id
         then Build_ToolCallData (tcId tc) (tcName tc) (tcParameters tc)
                                 result StCompleted
         else tc) prev.

Definition nonEmptyString (t : string) : bool :=
  match t with EmptyString => false | _ => true end.

(** The [switch (event.type)] for turn [k], whose closure state is [x]. *)
Definition processEvent (k : nat) (x : Turn) (e : StreamEvent) (s : State)
    : State :=
  match e with
  | EvUserTranscript data =>
      setMessages (fun prev => prev ++ [Build_Message RoleUser data]) s
  | EvToolCallStart id name parameters =>
      setToolCalls (toolCallStart id name parameters) s
  | EvToolCallEnd id result =>
      setToolCalls (toolCallEnd id result) s
  | EvTranscript data =>
      let t := (assistantTranscript x ++ data)%string in
      setCurrentTranscript t
        (updTurn k (Build_Turn (turnEnv x) t (turnPhase x)) s)
  | EvAudio data =>
      (* what [playAudio] throws ([atob] on a payload that is not base64,
         [Int16Array] on an odd number of bytes) is no [SyntaxError]: the
         [catch] of the enclosing [try] logs it *)
      if negb (useBeyRef (refs s))
      then match playAudio (svMuted (turnEnv x)) data s with
           | Some s' => s'
           | None => consoleError "SSE parsing error:" s
           end
      else s
  | EvDone endCallFlag =>
      let s := signalAudioComplete s in
      let s := if nonEmptyString (assistantTranscript x)
               then setMessages (fun prev =>
                      prev ++ [Build_Message RoleAssistant (assistantTranscript x)]) s
               else s in
      let s := setCurrentTranscript "" s in
      if endCallFlag
      then
        if truthy (ecSessionId (svEndCall (turnEnv x)))
        then endCall (svEndCall (turnEnv x)) (Some k)
                     (updTurn k (setPhase AwaitingEndCall x) s)
        else s
      else scheduleAutoRestart 500 s
  | EvError error =>
      (* [throw new Error(event.error)] lands in the [catch] of the
         enclosing [try], which logs whatever is not a [SyntaxError] *)
      consoleError "SSE parsing error:" s
  | EvOther => s
  end.

(** One line of the body of turn [k] goes through the [for] loop. *)
Definition onStreamLine (k : nat) (l : StreamLine) (s : State) : State :=
  match turns (env s) !! k with
  | Some x =>
      match turnPhase x, l with
      | Reading, LineEvent e => processEvent k x e s
      | _, _ => s
      end
  | None => s
  end.

(** [reader.read()] reports the end of the body: the loop is left and the
    [finally] runs. *)
Definition onStreamEnd (k : nat) (s : State) : State :=
  match turns (env s) !! k with
  | Some x =>
      match turnPhase x with
      | Reading => setIsProcessing false (updTurn k (setPhase Closed x) s)
      | _ => s
      end
  | None => s
  end.

(** The request or the body fails: the outer [catch], then the [finally]. *)
Definition onStreamFail (k : nat) (s : State) : State :=
  match turns (env s) !! k with
  | Some x =>
      match turnPhase x with
      | Reading =>
          setIsProcessing false
            (toast "Error" "Failed to process your message"
               (consoleError "Failed to send voice message:"
                  (updTurn k (setPhase Closed x) s)))
      | _ => s
      end
  | None => s
  end.

(** A whole body read without interruption. *)
Definition consumeStream (k : nat) (lines : list StreamLine) (s : State)
    : State :=
  onStreamEnd k (fold_left (fun s l => onStreamLine k l s) lines s).

(** ** User controls and rendering *)

Definition toggleMic (p : Probe) (s : State) : State :=
  if isListening (rendered s)
  then stopListening (updRefs (with_isMicPausedRef true) s)
  else startListening (startListeningOf (rendered s)) p
         (updRefs (with_isMicPausedRef false) s).

Definition toggleMute (s : State) : State :=
  let s' := setIsMuted negb s in
  if negb (isMuted (rendered s)) then clearAudio s' else s'.

(** The dependency list of the effect that re-arms listening. *)
Definition restartDeps (r : ReactState) : list bool :=
  [useBey r; isCallActive r; isListening r; isProcessing r; isSpeaking r].

(** A render is committed: the closures are the ones of the new state, and
    the effects whose dependencies changed run, clean-ups first. *)
Definition render (s : State) : State :=
  let old := rendered s in
  let new := st s in
  let s := commit s in
  let restartChanged := negb (bool_decide (restartDeps old = restartDeps new)) in
  let s := if restartChanged then clearAutoRestart s else s in
  let s := if Bool.eqb (isCallActive old) (isCallActive new) then s
           else updRefs (with_isCallActiveRef (isCallActive new)) s in
  let s := if Bool.eqb (isProcessing old) (isProcessing new) then s
           else updRefs (with_isProcessingRef (isProcessing new)) s in
  let s := if Bool.eqb (isSpeaking old) (isSpeaking new) then s
           else updRefs (with_isSpeakingRef (isSpeaking new)) s in
  let s := if Bool.eqb (useBey old) (useBey new) then s
           else updRefs (with_useBeyRef (useBey new)) s in
  let s := updRefs (with_startListeningRef (Some (startListeningOf new))) s in
  let s := updRefs (with_sendVoiceMessageRef (Some (sendVoiceMessageOf new))) s in
  if restartChanged
     && negb (useBey new) && isCallActive new && negb (isListening new)
     && negb (isProcessing new) && negb (isSpeaking new)
  then scheduleAutoRestart 500 s
  else s.

(** ** Events and runs *)

(** A timer elapses; a cleared or unknown handle does nothing. *)
Definition onTimer (t : positive) (p : Probe) (s : State) : State :=
  match List.find (timerIs t) (timers (env s)) with
  | Some x =>
      let s := clearTimeout t s in
      match timerKind x with
      | AutoRestart => autoRestartCallback p s
      | SafetyCutoff r => safetyCutoff r s
      end
  | None => s
  end.

(** Everything that can happen to a mounted component during a call. *)
Inductive Event :=
| Render
| TimerFires (t : positive) (p : Probe)
| ClickMic (p : Probe)
| ClickMute
| ClickEndCall
| MediaResolved (p : Probe)
| MediaRejected
| DataAvailable (size : Z)
| RecorderStop (r : nat)
| VadFrame (v : nat) (p : Probe)
| WorkletEnded
| StreamLineRead (k : nat) (l : StreamLine)
| StreamEnds (k : nat)
| StreamFails (k : nat)
| EndCallAnswered (j : nat) (ok : bool).

Definition step (e : Event) (s : State) : State :=
  match e with
  | Render => render s
  | TimerFires t p => onTimer t p s
  | ClickMic p => toggleMic p s
  | ClickMute => toggleMute s
  | ClickEndCall => endCall (endCallOf (rendered s)) None s
  | MediaResolved p => onGetUserMediaResolved p s
  | MediaRejected => onGetUserMediaRejected s
  | DataAvailable size => onDataAvailable size s
  | RecorderStop r => onRecorderStop r s
  | VadFrame v p => checkAudioLevel v p s
  | WorkletEnded => onWorkletEnded s
  | StreamLineRead k l => onStreamLine k l s
  | StreamEnds k => onStreamEnd k s
  | StreamFails k => onStreamFail k s
  | EndCallAnswered j ok => onEndCallResponse j ok s
  end.

Definition run (es : list Event) (s : State) : State :=
  fold_left (fun s e => step e s) es s.

(** The number of recorders that are recording. *)
Definition openSessions (s : State) : nat :=
  List.length (List.filter
    (fun q => match q with Recording => true | _ => false end)
    (recorders (env s))).

(** A call that was just started on the avatar path, the default of the
    component ([useBey] is [true]): session 1 is active, the render that
    shows it is committed, and no microphone stream has been requested
    yet. *)
Definition callState : ReactState :=
  {| isCallActive := true; isListening := false; isSpeaking := false;
     isProcessing := false; isMuted := false; useBey := true;
     sessionId := Some 1%Z; messages := []; currentTranscript := "";
     toolCalls := [] |}.

Definition activeCall : State :=
  {| st := callState;
     rendered := callState;
     refs := {| isCallActiveRef := true; isRecordingRef := false;
                isMicPausedRef := false; isProcessingRef := false;
                isSpeakingRef := false; useBeyRef := true;
                autoRestartTimeoutRef := None; silenceTimeoutRef := None;
                mediaRecorderRef := None; streamRef := false;
                analyserRef := false; workletRef := true; chunksRef := [];
                startListeningRef := Some (startListeningOf callState);
                sendVoiceMessageRef := Some (sendVoiceMessageOf callState) |};
     env := {| timers := []; nextTimer := 1%positive; recorders := [];
               pendingGetUserMedia := 0; workletInbox := []; toasts := [];
               consoleErrors := []; vads := []; turns := []; endCalls := [] |} |}.

Definition quiet : Probe := {| now := 0%Z; frequencyData := [] |}.

(** ** Vocabulary of the orchestrator properties *)

(** Every pending timer carries a handle that was already handed out. *)
Definition timersFresh (s : State) : Prop :=
  Forall (fun x => (timerId x < nextTimer (env s))%positive) (timers (env s)).

(** The handle [t] was handed out and is not pending. *)
Definition retired (t : positive) (s : State) : Prop :=
  (t < nextTimer (env s))%positive
  /\ Forall (fun x => timerId x <> t) (timers (env s)).

Definition pending (t : positive) (s : State) : Prop :=
  exists x, List.find (timerIs t) (timers (env s)) = Some x.

(** The call was ended by [endCall] and no start of a call is waiting for
    its render. *)
Definition callOver (s : State) : Prop :=
  isCallActiveRef (refs s) = false
  /\ (isCallActive (st s) = true -> isCallActive (rendered s) = true).

(** The loop [v] exists and has not heard the caller yet. *)
Definition quietVad (v : nat) (s : State) : Prop :=
  exists x, vads (env s) !! v = Some x /\ hasSpoken x = false.

(** [e] is a frame of the loop [v] with a sample above the threshold. *)
Definition loud (v : nat) (e : Event) : bool :=
  match e with
  | VadFrame v' p => (v' =? v) && aboveThreshold (frequencyData p)
  | _ => false
  end.

Definition okStatus (tc : ToolCallData) : Prop :=
  tcStatus tc = StRunning \/ tcStatus tc = StCompleted.

Definition toolsOk (s : State) : Prop := Forall okStatus (toolCalls (st s)).

(** Every pending restart timer is the one [autoRestartTimeoutRef] holds. *)
Definition restartTracked (s : State) : Prop :=
  Forall (fun x => timerKind x = AutoRestart ->
                   autoRestartTimeoutRef (refs s) = Some (timerId x))
         (timers (env s)).

Definition noRestart (l : list Timer) : Prop :=
  Forall (fun x => timerKind x <> AutoRestart) l.

(** Every recorder that is recording is the one the pipeline holds, and the
    recording flag is up. *)
Definition sessionTracked (s : State) : Prop :=
  forall r, recorders (env s) !! r = Some Recording ->
            mediaRecorderRef (refs s) = Some r /\ isRecordingRef (refs s) = true.

(** No [getUserMedia] resolves during the run [es] from [s] while a
    recording is in progress: the starts of recordings do not overlap. *)
Fixpoint startsApart (es : list Event) (s : State) : Prop :=
  match es with
  | [] => True
  | e :: es' =>
      (forall p, e = MediaResolved p -> isRecordingRef (refs s) = false)
      /\ startsApart es' (step e s)
  end.

(** Nothing of the capture pipeline differs between [s] and [s']. *)
Definition captureUntouched (s s' : State) : Prop :=
  recorders (env s') = recorders (env s)
  /\ pendingGetUserMedia (env s') = pendingGetUserMedia (env s)
  /\ vads (env s') = vads (env s)
  /\ isRecordingRef (refs s') = isRecordingRef (refs s)
  /\ mediaRecorderRef (refs s') = mediaRecorderRef (refs s)
  /\ isListening (st s') = isListening (st s).

(** A call on the avatar path whose microphone was paused by the user, with
    a restart scheduled. *)
Definition pausedCall : State :=
  scheduleAutoRestart 500 (updRefs (with_isMicPausedRef true) activeCall).

(** A call with the microphone stream at hand, as after a first recording. *)
Definition micReady : State :=
  updRefs (with_analyserRef true) (updRefs (with_streamRef true) activeCall).

Definition silence (t : Z) : Probe :=
  {| now := t; frequencyData := [3; 0; 7; 1]%Z |}.

(** A recording of 400 bytes that the safety timer has just stopped. *)
Definition shortRecording : State :=
  run [ClickMic quiet; MediaResolved quiet; DataAvailable 400;
       TimerFires 1 quiet] activeCall.

Definition lookupCall : ToolCallData :=
  Build_ToolCallData "call_1" "fetch_slots" None None StRunning.

(** The turn of a recording of 5000 bytes that the safety timer stopped. *)
Definition turnOpen : State :=
  run [ClickMic quiet; MediaResolved quiet; DataAvailable 5000;
       TimerFires 1 quiet; RecorderStop 0] activeCall.

(** A frame taken while the caller speaks. *)
Definition speech (t : Z) : Probe :=
  {| now := t; frequencyData := [40; 22; 31; 18]%Z |}.


(** A second recording, started by a restart, while the detection loop of
    the first one has not run since the safety timer stopped its recorder
    (the page was hidden, say: animation frames are then suspended, timers
    are not). *)
Definition secondRecording : State :=
  run [ClickMic quiet; MediaResolved (silence 0); VadFrame 0 (speech 1000);
       DataAvailable 5000; TimerFires 1 quiet; RecorderStop 0; Render;
       StreamLineRead 0 (LineEvent (EvDone false)); StreamEnds 0; Render;
       WorkletEnded; TimerFires 3 (silence 40000)] activeCall.

(** A restart has fired on a fresh call and waits for the microphone. *)
Definition restartWaiting : State :=
  run [WorkletEnded; TimerFires 1 quiet] activeCall.

(** Two recorders record at once (the run of claim C2). *)
Definition twoRecorders : State :=
  run [ClickMic quiet; ClickMic quiet; MediaResolved quiet;
       MediaResolved quiet] activeCall.

(** The tool call of [lookupCall] is announced, then answered. *)
Definition toolCallStream : list Event :=
  [StreamLineRead 0 (LineEvent (EvToolCallStart "call_1" "fetch_slots" None));
   StreamLineRead 0 (LineEvent (EvToolCallEnd "call_1" (Some "[]"%string)))].

(** ** Further code and vocabulary *)

(** [tokens.join(" ")] *)
Fixpoint joinSpace (tokens : list (list ascii)) : list ascii :=
  match tokens with
  | [] => []
  | [t] => t
  | t :: more => t ++ " "%char :: joinSpace more
  end.

(** A spoken digit: one of the keys of [numberWords]. *)
Definition isNumberWord (w : list ascii) : Prop :=
  In (str w) (map fst numberWords).

(** The numeral [numberWords] gives for a word. *)
Definition digitOf (w : list ascii) : list ascii :=
  match List.find (fun wd => String.eqb (fst wd) (str w)) numberWords with
  | Some wd => chars (snd wd)
  | None => w
  end.

(** a token: non-empty, made of word characters *)
Definition isToken (t : list ascii) : Prop :=
  t <> [] /\ allOf isWordChar t.

Definition sameChars (a b : list ascii) : bool :=
  if List.list_eq_dec ascii_dec a b then true else false.

Definition substToken (w d t : list ascii) : list ascii :=
  if sameChars t w then d else t.

(** The tail of the text after a token: nothing, or a space and more. *)
Definition tokenEnd (rest : list ascii) : Prop :=
  rest = [] \/ exists more, rest = " "%char :: more.

Definition lastOr (prev : option ascii) (u : list ascii) : option ascii :=
  match last u with Some c => Some c | None => prev end.

Definition substTokens (table : list (string * string)) (t : list ascii) :
  list ascii :=
  fold_left (fun t wd => substToken (chars (fst wd)) (chars (snd wd)) t) table t.

(** What is said for one digit: a word of [numberWords], or numerals. *)
Definition spoken (t : list ascii) : Prop :=
  isNumberWord t \/ (t <> [] /\ allOf isDigit t).

Definition tokenFacts (t : list ascii) : bool :=
  negb (sameChars t []) && forallb isWordChar t
  && sameChars (toLowerCase t) t
  && sameChars (substTokens numberWords t) (digitOf t)
  && negb (sameChars (digitOf t) []) && forallb isDigit (digitOf t).

(** ** The text as the regular expressions see it *)

(** A text is a sequence of words (maximal runs of word characters, the
    stretches between two neighbouring [\b]) and of the code units between
    them. *)
Inductive Piece := Word (w : list ascii) | Gap (c : ascii).

Definition pieceChars (p : Piece) : list ascii :=
  match p with Word w => w | Gap c => [c] end.

Definition flat (ps : list Piece) : list ascii := concat (map pieceChars ps).

Definition pushChar (c : ascii) (ps : list Piece) : list Piece :=
  if isWordChar c
  then match ps with
       | Word w :: more => Word (c :: w) :: more
       | _ => Word [c] :: ps
       end
  else Gap c :: ps.

Definition pieces (s : list ascii) : list Piece := fold_right pushChar [] s.

Definition startsWithWord (ps : list Piece) : bool :=
  match ps with Word _ :: _ => true | _ => false end.

(** Words are non-empty and made of word characters, gaps are not word
    characters, and no two words are neighbours. *)
Fixpoint wellSplit (ps : list Piece) : Prop :=
  match ps with
  | [] => True
  | Word w :: more => isToken w /\ startsWithWord more = false /\ wellSplit more
  | Gap c :: more => isWordChar c = false /\ wellSplit more
  end.

(** What becomes of a piece: a word of [numberWords] becomes its numeral,
    everything else stays. *)
Definition spokenDigit (p : Piece) : list ascii :=
  match p with Word w => digitOf w | Gap c => [c] end.

Definition substPiece (f : list ascii -> list ascii) (p : Piece) : Piece :=
  match p with Word w => Word (f w) | Gap c => Gap c end.

(** [x] is a restart timer. *)
Definition isRestart (x : Timer) : bool :=
  match timerKind x with AutoRestart => true | SafetyCutoff _ => false end.

(** The restart timers that are pending. *)
Definition pendingRestarts (s : State) : list Timer :=
  List.filter isRestart (timers (env s)).

(** No two pending timers carry the same handle. *)
Definition timersDistinct (s : State) : Prop :=
  List.NoDup (map timerId (timers (env s))).

Definition isClickMic (e : Event) : bool :=
  match e with ClickMic _ => true | _ => false end.

(** The microphone is paused and no start is waiting for its stream. *)
Definition micPaused (s : State) : Prop :=
  isMicPausedRef (refs s) = true /\ pendingGetUserMedia (env s) = 0.

(** No recorder records in [s'] that did not in [s]. *)
Definition noNewRecording (s s' : State) : Prop :=
  List.length (recorders (env s')) = List.length (recorders (env s))
  /\ forall r, recorders (env s') !! r = Some Recording ->
               recorders (env s) !! r = Some Recording.

(** ** The avatar path *)

Definition isAudio (m : WorkletMsg) : bool :=
  match m with MsgAudio _ => true | _ => false end.

(** The samples handed to the playback worklet so far. *)
Definition audioPosted (s : State) : list WorkletMsg :=
  List.filter isAudio (workletInbox (env s)).

(** The avatar renders the voice: [useBey] and its mirror are up. *)
Definition avatarMode (s : State) : Prop :=
  useBeyRef (refs s) = true /\ useBey (st s) = true
  /\ useBey (rendered s) = true.

(** ** The mirrors of the React state *)

(** The refs that the effects keep in step with the state hold what the
    last committed render saw. *)
Definition mirrored (s : State) : Prop :=
  isProcessingRef (refs s) = isProcessing (rendered s)
  /\ isSpeakingRef (refs s) = isSpeaking (rendered s)
  /\ useBeyRef (refs s) = useBey (rendered s)
  /\ (isCallActiveRef (refs s) = true -> isCallActive (rendered s) = true).

(** ** The body of a response *)

(** The events that deliver the lines [ls] of the body of turn [k]. *)
Definition linesOf (k : nat) (ls : list StreamLine) : list Event :=
  map (StreamLineRead k) ls.

Definition transcriptLines (ds : list string) : list StreamLine :=
  map (fun d => LineEvent (EvTranscript d)) ds.

(** The turn [k] is reading its body; [c] is its closure and [t] what it
    has heard from the agent so far. *)
Definition reading (k : nat) (c : SendEnv) (t : string) (s : State) : Prop :=
  turns (env s) !! k = Some (Build_Turn c t Reading).

(** ** The transcript sent when the agent hangs up *)

(** [`${m.role === "assistant" ? "AI" : "User"}: ${m.content}`] *)
Definition transcriptLine (m : Message) : string :=
  ((match role m with RoleAssistant => "AI" | RoleUser => "User" end)
   ++ ": " ++ content m)%string.

Definition newline : string := String (ascii_of_nat 10) EmptyString.

(** [messages.map(...).join("\n")] *)
Definition transcriptOf (ms : list Message) : string :=
  String.concat newline (map transcriptLine ms).

(** The [transcript] in the body of the request of an [endCall]. *)
Definition requestTranscript (q : EndCallRequest) : string :=
  transcriptOf (ecMessages (reqEnv q)).

(** The line is a [done] event that asks to end the call. *)
Definition hangsUp (l : StreamLine) : bool :=
  match l with LineEvent (EvDone true) => true | _ => false end.

(** ** Lines that carry nothing *)

(** A line without the ["data: "] prefix, a line that is not JSON, and an
    event of a type the [switch] does not name. *)
Definition isNoise (l : StreamLine) : bool :=
  match l with
  | LineNotData | LineMalformed | LineEvent EvOther => true
  | _ => false
  end.

(** ** The chunks of a recording *)

Definition chunkEvents (sizes : list Z) : list Event := map DataAvailable sizes.

(** ** The address of the API *)

(** [import.meta.env.VITE_API_BASE_URL || ""]; the variable may be unset. *)
Definition rawApiUrl (v : option string) : string :=
  match v with Some u => u | None => ""%string end.

(** [rawApiUrl && !rawApiUrl.startsWith("http") ? `https://${rawApiUrl}`
    : rawApiUrl] *)
Definition API_BASE_URL (v : option string) : string :=
  let raw := rawApiUrl v in
  if nonEmptyString raw && negb (startsWith (chars "http") (chars raw))
  then ("https://" ++ raw)%string
  else raw.

(** ** Sixteen-bit samples *)

(** The two bytes of a sample, low byte first. *)
Definition bytesOfInt16 (v : Z) : list ascii :=
  [ascii_of_nat (Z.to_nat (v mod 256));
   ascii_of_nat (Z.to_nat ((v / 256) mod 256))].

Definition isInt16 (v : Z) : Prop := (-32768 <= v <= 32767)%Z.

Definition unitSample (q : QArith_base.Q) : Prop :=
  QArith_base.Qle (QArith_base.Qmake (-1) 1) q
  /\ QArith_base.Qlt q (QArith_base.Qmake 1 1).

(** [a || b] for two results of an extractor: [null] and the empty string
    are falsy. *)
Definition orElse (a b : option string) : option string :=
  match a with
  | Some s => if nonEmptyString s then a else b
  | None => b
  end.

(** ** Identification of the caller: data *)

(** [interface UserData] *)
Record UserData := {
  userId : Z;
  userPhoneNumber : string;
  userName : option string
}.

(** [interface AppointmentData] *)
Record AppointmentData := {
  apptId : Z;
  apptUserId : Z;
  apptDate : string;
  apptTime : string;
  apptDescription : option string;
  apptStatus : string
}.

(** The body of a [POST /api/users/lookup], apart from the [callId], with
    the function that sent it and whether it was answered. *)
Record LookupRequest := {
  lrPhoneNumber : string;
  lrName : option string;
  lrAuto : bool;
  lrDone : bool
}.

(** The answer to a lookup: the parsed body, or a failure of the request. *)
Inductive LookupResult :=
| LookupOk (user : UserData) (appointments : option (list AppointmentData))
           (isNew : bool)
| LookupFailed.

(** The cells and refs of the identification panel, the requests it has
    sent, what it has shown and logged, and the cool-down timers that are
    pending. *)
Record Ident := {
  identifiedUser : option UserData;
  userAppointments : list AppointmentData;
  phoneInput : string;
  nameInput : string;
  isLookingUp : bool;
  autoDetectedPhone : bool;
  autoDetectionTriggeredRef : bool;
  recentUserSpeechRef : list string;
  transcriptLog : list Message;
  lookups : list LookupRequest;
  identToasts : list Toast;
  identErrors : list string;
  cooldowns : nat
}.

(** What the closures of a render captured of these cells. *)
Record IdentEnv := {
  ieIdentified : bool;
  ieLookingUp : bool;
  iePhoneInput : string;
  ieNameInput : string
}.

Definition with_identifiedUser v (r : Ident) : Ident :=
  Build_Ident v (userAppointments r) (phoneInput r) (nameInput r)
    (isLookingUp r) (autoDetectedPhone r) (autoDetectionTriggeredRef r)
    (recentUserSpeechRef r) (transcriptLog r) (lookups r) (identToasts r)
    (identErrors r) (cooldowns r).

Definition with_userAppointments v (r : Ident) : Ident :=
  Build_Ident (identifiedUser r) v (phoneInput r) (nameInput r)
    (isLookingUp r) (autoDetectedPhone r) (autoDetectionTriggeredRef r)
    (recentUserSpeechRef r) (transcriptLog r) (lookups r) (identToasts r)
    (identErrors r) (cooldowns r).

Definition with_phoneInput v (r : Ident) : Ident :=
  Build_Ident (identifiedUser r) (userAppointments r) v (nameInput r)
    (isLookingUp r) (autoDetectedPhone r) (autoDetectionTriggeredRef r)
    (recentUserSpeechRef r) (transcriptLog r) (lookups r) (identToasts r)
    (identErrors r) (cooldowns r).

Definition with_nameInput v (r : Ident) : Ident :=
  Build_Ident (identifiedUser r) (userAppointments r) (phoneInput r) v
    (isLookingUp r) (autoDetectedPhone r) (autoDetectionTriggeredRef r)
    (recentUserSpeechRef r) (transcriptLog r) (lookups r) (identToasts r)
    (identErrors r) (cooldowns r).

Definition with_isLookingUp v (r : Ident) : Ident :=
  Build_Ident (identifiedUser r) (userAppointments r) (phoneInput r)
    (nameInput r) v (autoDetectedPhone r) (autoDetectionTriggeredRef r)
    (recentUserSpeechRef r) (transcriptLog r) (lookups r) (identToasts r)
    (identErrors r) (cooldowns r).

Definition with_autoDetectedPhone v (r : Ident) : Ident :=
  Build_Ident (identifiedUser r) (userAppointments r) (phoneInput r)
    (nameInput r) (isLookingUp r) v (autoDetectionTriggeredRef r)
    (recentUserSpeechRef r) (transcriptLog r) (lookups r) (identToasts r)
    (identErrors r) (cooldowns r).

Definition with_autoDetectionTriggeredRef v (r : Ident) : Ident :=
  Build_Ident (identifiedUser r) (userAppointments r) (phoneInput r)
    (nameInput r) (isLookingUp r) (autoDetectedPhone r) v
    (recentUserSpeechRef r) (transcriptLog r) (lookups r) (identToasts r)
    (identErrors r) (cooldowns r).

Definition with_recentUserSpeechRef v (r : Ident) : Ident :=
  Build_Ident (identifiedUser r) (userAppointments r) (phoneInput r)
    (nameInput r) (isLookingUp r) (autoDetectedPhone r)
    (autoDetectionTriggeredRef r) v (transcriptLog r) (lookups r)
    (identToasts r) (identErrors r) (cooldowns r).

Definition with_transcriptLog v (r : Ident) : Ident :=
  Build_Ident (identifiedUser r) (userAppointments r) (phoneInput r)
    (nameInput r) (isLookingUp r) (autoDetectedPhone r)
    (autoDetectionTriggeredRef r) (recentUserSpeechRef r) v (lookups r)
    (identToasts r) (identErrors r) (cooldowns r).

Definition with_lookups v (r : Ident) : Ident :=
  Build_Ident (identifiedUser r) (userAppointments r) (phoneInput r)
    (nameInput r) (isLookingUp r) (autoDetectedPhone r)
    (autoDetectionTriggeredRef r) (recentUserSpeechRef r) (transcriptLog r) v
    (identToasts r) (identErrors r) (cooldowns r).

Definition with_identToasts v (r : Ident) : Ident :=
  Build_Ident (identifiedUser r) (userAppointments r) (phoneInput r)
    (nameInput r) (isLookingUp r) (autoDetectedPhone r)
    (autoDetectionTriggeredRef r) (recentUserSpeechRef r) (transcriptLog r)
    (lookups r) v (identErrors r) (cooldowns r).

Definition with_identErrors v (r : Ident) : Ident :=
  Build_Ident (identifiedUser r) (userAppointments r) (phoneInput r)
    (nameInput r) (isLookingUp r) (autoDetectedPhone r)
    (autoDetectionTriggeredRef r) (recentUserSpeechRef r) (transcriptLog r)
    (lookups r) (identToasts r) v (cooldowns r).

Definition with_cooldowns v (r : Ident) : Ident :=
  Build_Ident (identifiedUser r) (userAppointments r) (phoneInput r)
    (nameInput r) (isLookingUp r) (autoDetectedPhone r)
    (autoDetectionTriggeredRef r) (recentUserSpeechRef r) (transcriptLog r)
    (lookups r) (identToasts r) (identErrors r) v.

(** ** Identification of the caller: handlers *)

Definition identToast (ttl descr : string) (s : Ident) : Ident :=
  with_identToasts (identToasts s ++ [Build_Toast ttl descr]) s.

(** [x || undefined] and the test [if (x)] for a string that may be
    missing. *)
Definition truthyString (o : option string) : option string :=
  match o with
  | Some x => if nonEmptyString x then Some x else None
  | None => None
  end.

(** [x || d] *)
Definition stringOr (o : option string) (d : string) : string :=
  match truthyString o with Some x => x | None => d end.

(** [`${n}`] for a length. *)
Definition showNat (n : nat) : string :=
  DecimalString.NilZero.string_of_uint (Nat.to_uint n).

(** [s.slice(-4)] *)
Definition lastFour (s : string) : string := str (lastN 4 (chars s)).

(** [s.replace(/\D/g, "")] *)
Definition digitsOnly (s : string) : string :=
  str (List.filter isDigit (chars s)).

(** [autoLookupUser] up to its [await]. *)
Definition autoLookupUser (c : IdentEnv) (phone : string)
    (name : option string) (s : Ident) : Ident :=
  if ieIdentified c || ieLookingUp c || autoDetectionTriggeredRef s then s
  else
    let s := with_autoDetectionTriggeredRef true s in
    let s := with_autoDetectedPhone true s in
    let s := with_phoneInput phone s in
    let s := match truthyString name with
             | Some n => with_nameInput n s
             | None => s
             end in
    let s := with_recentUserSpeechRef [] s in
    let s := with_isLookingUp true s in
    with_lookups
      (lookups s ++ [Build_LookupRequest phone (truthyString name) true false]) s.

(** [recentUserSpeechRef.current.push(content)], then [shift()] when more
    than five are held. *)
Definition pushSpeech (content : string) (buffer : list string)
    : list string :=
  let pushed := buffer ++ [content] in
  if 5 <? List.length pushed then tail pushed else pushed.

(** The [onTranscript] handler that the component hands to the avatar. *)
Definition onTranscript (c : IdentEnv) (r : Role) (content : string)
    (s : Ident) : Ident :=
  let s := with_transcriptLog (transcriptLog s ++ [Build_Message r content]) s in
  match r with
  | RoleUser =>
      if negb (ieIdentified c) && negb (autoDetectionTriggeredRef s)
      then
        let buffer := pushSpeech content (recentUserSpeechRef s) in
        let s := with_recentUserSpeechRef buffer s in
        let combinedSpeech := str (joinSpace (map chars buffer)) in
        let detectedPhone :=
          orElse (extractPhoneNumber combinedSpeech) (extractPhoneNumber content) in
        let detectedName :=
          orElse (extractName combinedSpeech) (extractName content) in
        match truthyString detectedPhone with
        | Some phone => autoLookupUser c phone (truthyString detectedName) s
        | None =>
            match truthyString detectedName with
            | Some n =>
                if nonEmptyString (ieNameInput c) then s else with_nameInput n s
            | None => s
            end
        end
      else s
  | RoleAssistant => s
  end.

(** [lookupUser] up to its [await]. *)
Definition lookupUser (c : IdentEnv) (s : Ident) : Ident :=
  let digits := digitsOnly (iePhoneInput c) in
  if String.length digits <? 10
  then identToast "Invalid phone number"
         "Please enter a valid 10-digit phone number" s
  else
    let s := with_isLookingUp true s in
    with_lookups
      (lookups s
       ++ [Build_LookupRequest digits (truthyString (Some (ieNameInput c)))
             false false]) s.

(** The toast of [autoLookupUser] for an answer. *)
Definition autoLookupToast (phone : string) (user : UserData)
    (appointments : option (list AppointmentData)) (isNew : bool) : Toast :=
  Build_Toast
    (if isNew then "User identified!" else "User found!")
    (match appointments with
     | Some (a :: l) =>
         "Found " ++ showNat (List.length (a :: l)) ++ " appointment(s)"
     | _ =>
         if isNew
         then "Account created for " ++ stringOr (userName user) (lastFour phone)
         else "No appointments found. You can ask the AI to book one!"
     end)%string.

(** The toast of [lookupUser] for an answer. *)
Definition lookupToast (digits : string) (user : UserData)
    (appointments : option (list AppointmentData)) (isNew : bool) : Toast :=
  match appointments with
  | Some (a :: l) =>
      Build_Toast "Found your appointments!"
        ("You have " ++ showNat (List.length (a :: l)) ++ " appointment(s)")
  | _ =>
      if isNew
      then Build_Toast "Welcome!"
             ("Account created for "
              ++ stringOr (userName user) ("phone ending in " ++ lastFour digits))
      else Build_Toast "Welcome back!"
             "No appointments found. You can ask the AI to book one!"
  end%string.

(** [data.appointments || []] *)
Definition appointmentsOr (o : option (list AppointmentData))
    : list AppointmentData :=
  match o with Some l => l | None => [] end.

(** The request number [j] is answered: the rest of the function that sent
    it. *)
Definition onLookupAnswered (j : nat) (res : LookupResult) (s : Ident)
    : Ident :=
  match lookups s !! j with
  | Some q =>
      if lrDone q then s
      else
        let s := with_lookups
                   (<[j := Build_LookupRequest (lrPhoneNumber q) (lrName q)
                             (lrAuto q) true]> (lookups s)) s in
        let s :=
          match res with
          | LookupOk user appointments isNew =>
              let s := with_identifiedUser (Some user) s in
              let s := with_userAppointments (appointmentsOr appointments) s in
              with_identToasts
                (identToasts s
                 ++ [if lrAuto q
                     then autoLookupToast (lrPhoneNumber q) user appointments isNew
                     else lookupToast (lrPhoneNumber q) user appointments isNew]) s
          | LookupFailed =>
              if lrAuto q
              then with_cooldowns (S (cooldowns s))
                     (with_identErrors (identErrors s ++ ["Auto lookup error:"%string]) s)
              else identToast "Lookup failed" "Could not find or create user"
                     (with_identErrors (identErrors s ++ ["User lookup error:"%string]) s)
          end in
        with_isLookingUp false s
  | None => s
  end.

(** The callback of the cool-down of five seconds. *)
Definition onCooldown (s : Ident) : Ident :=
  match cooldowns s with
  | O => s
  | S n => with_autoDetectionTriggeredRef false (with_cooldowns n s)
  end.

(** The button that forgets the caller. *)
Definition clearUser (s : Ident) : Ident :=
  let s := with_identifiedUser None s in
  let s := with_userAppointments [] s in
  let s := with_phoneInput "" s in
  let s := with_nameInput "" s in
  let s := with_autoDetectedPhone false s in
  with_autoDetectionTriggeredRef false s.

(** What [startCall] resets once the session is created. *)
Definition resetForCall (s : Ident) : Ident :=
  let s := with_identifiedUser None s in
  let s := with_userAppointments [] s in
  let s := with_nameInput "" s in
  let s := with_autoDetectedPhone false s in
  let s := with_autoDetectionTriggeredRef false s in
  let s := with_recentUserSpeechRef [] s in
  with_transcriptLog [] s.

(** [setUserAppointments(prev => prev.filter(a => a.id !== appointmentId))] *)
Definition dropAppointment (appointmentId : Z) (s : Ident) : Ident :=
  with_userAppointments
    (List.filter (fun a => negb (apptId a =? appointmentId)%Z)
       (userAppointments s)) s.

(** [cancelAppointment] after its [await]. *)
Definition onCancelAnswered (appointmentId : Z) (ok : bool) (s : Ident)
    : Ident :=
  if ok
  then identToast "Appointment cancelled"
         "Your appointment has been cancelled successfully"
         (dropAppointment appointmentId s)
  else identToast "Cancel failed" "Could not cancel appointment"
         (with_identErrors (identErrors s ++ ["Cancel error:"%string]) s).

Inductive IdentEvent :=
| Transcript (c : IdentEnv) (r : Role) (content : string)
| LookupAnswered (j : nat) (res : LookupResult)
| CooldownFires
| ClickLookup (c : IdentEnv)
| ClickClearUser
| CallStarted
| TypePhone (v : string)
| TypeName (v : string)
| CancelAnswered (appointmentId : Z) (ok : bool).

Definition identStep (e : IdentEvent) (s : Ident) : Ident :=
  match e with
  | Transcript c r content => onTranscript c r content s
  | LookupAnswered j res => onLookupAnswered j res s
  | CooldownFires => onCooldown s
  | ClickLookup c => lookupUser c s
  | ClickClearUser => clearUser s
  | CallStarted => resetForCall s
  | TypePhone v => with_phoneInput v s
  | TypeName v => with_nameInput v s
  | CancelAnswered appointmentId ok => onCancelAnswered appointmentId ok s
  end.

Definition identRun (es : list IdentEvent) (s : Ident) : Ident :=
  fold_left (fun s e => identStep e s) es s.

(** The panel when the component is mounted. *)
Definition identInit : Ident :=
  {| identifiedUser := None; userAppointments := []; phoneInput := "";
     nameInput := ""; isLookingUp := false; autoDetectedPhone := false;
     autoDetectionTriggeredRef := false; recentUserSpeechRef := [];
     transcriptLog := []; lookups := []; identToasts := []; identErrors := [];
     cooldowns := 0 |}.

(** The closures of a render of [s]. *)
Definition identEnvOf (s : Ident) : IdentEnv :=
  {| ieIdentified := match identifiedUser s with Some _ => true | None => false end;
     ieLookingUp := isLookingUp s;
     iePhoneInput := phoneInput s;
     ieNameInput := nameInput s |}.

(** ** Vocabulary *)

Definition autoCount (s : Ident) : nat :=
  List.length (List.filter lrAuto (lookups s)).

(** The events that let the detection fire again. *)
Definition rearms (e : IdentEvent) : bool :=
  match e with
  | CooldownFires | ClickClearUser | CallStarted => true
  | _ => false
  end.

(** A request carries digits only: ten of them when the detection sent it,
    ten or more when the form did. *)
Definition validRequest (q : LookupRequest) : Prop :=
  allOf isDigit (chars (lrPhoneNumber q))
  /\ if lrAuto q then String.length (lrPhoneNumber q) = 10
     else 10 <= String.length (lrPhoneNumber q).

(** ** The data channel of the avatar *)

(** What the handler reads of [JSON.parse(rawData)]: the four fields, each
    a string when it is there.  A value without fields (a number, a string,
    an array) has none of them. *)
Record AvatarMessage := {
  amMessage : option string;
  amTranscript : option string;
  amText : option string;
  amContent : option string
}.

(** [JSON.parse] throws, or reading a field of its result does ([null]);
    or the fields are read. *)
Inductive Parsed := ParseThrows | ParsedFields (m : AvatarMessage).

(** [hay.includes(needle)] *)
Fixpoint includes (needle hay : list ascii) : bool :=
  startsWith needle hay
  || match hay with
     | [] => false
     | _ :: rest => includes needle rest
     end.

(** [s.trim()] *)
Definition trim (s : list ascii) : list ascii :=
  rev (dropWhile isSpace (rev (dropWhile isSpace s))).

(** [participant?.identity?.toLowerCase().includes("agent") || ...] *)
Definition isFromAgent (identity : option string) : bool :=
  match identity with
  | Some i =>
      let l := toLowerCase (chars i) in
      includes (chars "agent") l || includes (chars "avatar") l
      || includes (chars "worker") l
  | None => false
  end.

(** The handler of [RoomEvent.DataReceived]: the call of [onTranscript] it
    makes, if any.  [jsonParse] is the parser of the platform. *)
Definition onDataReceived (jsonParse : string -> Parsed) (rawData : string)
    (identity : option string) : option (Role * string) :=
  match jsonParse rawData with
  | ParsedFields m =>
      match truthyString (amMessage m), isFromAgent identity with
      | Some text, true => Some (RoleAssistant, text)
      | _, _ =>
          match orElse (orElse (amTranscript m) (amText m)) (amContent m) with
          | Some content =>
              if nonEmptyString content
              then Some (if isFromAgent identity then RoleAssistant else RoleUser,
                         content)
              else None
          | None => None
          end
      end
  | ParseThrows =>
      let t := str (trim (chars rawData)) in
      if nonEmptyString rawData && nonEmptyString t
      then Some (RoleUser, t)
      else None
  end.

(** The data arrives while the panel is in state [s], whose handler has the
    closure [c]. *)
Definition deliverData (jsonParse : string -> Parsed) (c : IdentEnv)
    (rawData : string) (identity : option string) (s : Ident) : Ident :=
  match onDataReceived jsonParse rawData identity with
  | Some (r, content) => onTranscript c r content s
  | None => s
  end.


(* ===================================================================== *)
(** * Part II: properties                                                  *)
(* ===================================================================== *)

(** ** Signal extractors *)



Ltac char_cases c :=
  destruct c as [[] [] [] [] [] [] [] []]; vm_compute;
  try reflexivity; try discriminate; auto.

Lemma digit_not_separator c : isDigit c = true -> isSeparator c = false.
Proof. char_cases c. Qed.

Lemma space_is_separator c : isSpace c = true -> isSeparator c = true.
Proof. char_cases c. Qed.

Lemma digit_not_space c : isDigit c = true -> isSpace c = false.
Proof. char_cases c. Qed.

Lemma letter_not_space c : isLetter c = true -> isSpace c = false.
Proof. char_cases c. Qed.

Section Spans.
Variable p : ascii -> bool.

Lemma takeWhile_dropWhile s : takeWhile p s ++ dropWhile p s = s.
Proof.
  induction s as [|c s IH]; simpl; [reflexivity|].
  destruct (p c); simpl; [now rewrite IH | reflexivity].
Qed.

Lemma takeWhile_all s : allOf p (takeWhile p s).
Proof.
  induction s as [|c s IH]; simpl; [constructor|].
  destruct (p c) eqn:E; constructor; assumption.
Qed.

Lemma dropWhile_head s :
  match head (dropWhile p s) with Some c => p c = false | None => True end.
Proof.
  induction s as [|c s IH]; simpl; [exact I|].
  destruct (p c) eqn:E; simpl; assumption.
Qed.

Lemma takeWhile_app_all a b :
  allOf p a -> takeWhile p (a ++ b) = a ++ takeWhile p b.
Proof.
  induction 1 as [|c a Hc _ IH]; simpl; [reflexivity|].
  now rewrite Hc, IH.
Qed.

Lemma dropWhile_app_all a b :
  allOf p a -> dropWhile p (a ++ b) = dropWhile p b.
Proof.
  induction 1 as [|c a Hc _ IH]; simpl; [reflexivity|].
  now rewrite Hc.
Qed.

Lemma takeWhile_stop b :
  match head b with Some c => p c = false | None => True end ->
  takeWhile p b = [].
Proof. destruct b as [|c b]; simpl; [reflexivity|]. now intros ->. Qed.

Lemma dropWhile_stop b :
  match head b with Some c => p c = false | None => True end ->
  dropWhile p b = b.
Proof. destruct b as [|c b]; simpl; [reflexivity|]. now intros ->. Qed.

(** An all-[p] prefix is never longer than the greedy one. *)
Lemma prefix_le_takeWhile a b :
  allOf p a -> List.length a <= List.length (takeWhile p (a ++ b)).
Proof.
  intros H. rewrite (takeWhile_app_all _ _ H), length_app. lia.
Qed.
End Spans.

Lemma optDigit_stop b :
  isDigitOpt (head b) = false ->
  match head b with Some c => isDigit c = false | None => True end.
Proof. destruct b; simpl; auto. Qed.

(** *** The digit-run search *)

Lemma hasLongRun_cons n c s : hasLongRun n s -> hasLongRun n (c :: s).
Proof.
  intros (pre & run & post & -> & Hd & Hn).
  exists (c :: pre), run, post. auto.
Qed.

Lemma hasLongRun_prefix n run post :
  allOf isDigit run -> n <= List.length run -> hasLongRun n (run ++ post).
Proof. intros. exists [], run, post. auto. Qed.

Lemma hasLongRun_app_r n a s : hasLongRun n s -> hasLongRun n (a ++ s).
Proof. induction a; simpl; auto using hasLongRun_cons. Qed.

Lemma long_takeWhile n s :
  n <= List.length (takeWhile isDigit s) -> hasLongRun n s.
Proof.
  intros H. rewrite <- (takeWhile_dropWhile isDigit s).
  apply hasLongRun_prefix; [apply takeWhile_all | exact H].
Qed.

Lemma matchDigitRun_some_has n s :
  hasLongRun n s -> 0 < n -> exists run, matchDigitRun n s = Some run.
Proof.
  intros (pre & run & post & -> & Hd & Hn) Hpos.
  induction pre as [|c pre IH]; simpl.
  - destruct run as [|d run]; [simpl in Hn; lia|].
    cbn [app matchDigitRun].
    pose proof (prefix_le_takeWhile isDigit (d :: run) post Hd) as Hle.
    cbn [app] in Hle.
    destruct (n <=? _) eqn:E; [eauto|].
    apply Nat.leb_gt in E. lia.
  - destruct (n <=? _); eauto.
Qed.

Lemma last_cons_nonempty (c : ascii) (l : list ascii) :
  l <> [] -> last (c :: l) = last l.
Proof. destruct l; [congruence | reflexivity]. Qed.

Lemma matchDigitRun_sound n s run :
  0 < n -> matchDigitRun n s = Some run -> firstLongRun n s run.
Proof.
  intros Hpos. induction s as [|c s IH]; [discriminate|].
  cbn [matchDigitRun].
  destruct (n <=? _) eqn:E.
  - intros [= <-]. apply Nat.leb_le in E.
    exists [], (dropWhile isDigit (c :: s)).
    repeat split.
    + symmetry. exact (takeWhile_dropWhile isDigit (c :: s)).
    + exact (takeWhile_all isDigit (c :: s)).
    + exact E.
    + pose proof (dropWhile_head isDigit (c :: s)) as Hh.
      destruct (head _); simpl; auto.
    + intros (pre & r & post & Heq & Hd & Hn).
      destruct pre; destruct r; simpl in *; try discriminate; lia.
  - intros Hm. apply Nat.leb_gt in E.
    destruct (IH Hm) as (pre & post & -> & Hd & Hn & Hl & Hh & Hno).
    exists (c :: pre), post. repeat split; auto.
    + destruct pre as [|x pre].
      * simpl. destruct (isDigit c) eqn:Ec; [|reflexivity]. exfalso.
        assert (Hall : allOf isDigit (c :: run)) by (constructor; auto).
        pose proof (prefix_le_takeWhile isDigit (c :: run) post Hall) as Hle.
        cbn [app length] in Hle, E. simpl in Hle. simpl in E. lia.
      * rewrite last_cons_nonempty by discriminate. exact Hl.
    + intros (a & r & b & Heq & Hdr & Hnr).
      destruct a as [|x a].
      * cbn [app] in Heq.
        assert (Hle : List.length r
                      <= List.length (takeWhile isDigit (r ++ (b ++ run ++ post))))
          by (apply prefix_le_takeWhile; exact Hdr).
        assert (Heq2 : c :: pre ++ run ++ post = r ++ b ++ run ++ post).
        { change ((c :: pre) ++ run ++ post = r ++ b ++ run ++ post).
          rewrite Heq, <- app_assoc. reflexivity. }
        rewrite <- Heq2 in Hle. lia.
      * injection Heq as -> ->. apply Hno. exists a, r, b. auto.
Qed.

Lemma takeWhile_block run post :
  allOf isDigit run -> isDigitOpt (head post) = false ->
  takeWhile isDigit (run ++ post) = run.
Proof.
  intros Hd Hh. rewrite takeWhile_app_all by exact Hd.
  rewrite takeWhile_stop; [apply app_nil_r | now apply optDigit_stop].
Qed.

Lemma last_digit_all pre :
  pre <> [] -> allOf isDigit pre -> isDigitOpt (last pre) = true.
Proof.
  induction pre as [|c pre IH]; [congruence|].
  intros _ Hall. inversion Hall; subst.
  destruct pre as [|d pre]; [assumption|].
  rewrite last_cons_nonempty by discriminate. apply IH; [discriminate | assumption].
Qed.

Lemma takeWhile_app_cases (p : ascii -> bool) a b :
  (allOf p a /\ takeWhile p (a ++ b) = a ++ takeWhile p b)
  \/ takeWhile p (a ++ b) = takeWhile p a.
Proof.
  induction a as [|c a IH]; simpl.
  - left. split; [constructor | reflexivity].
  - destruct (p c) eqn:E; [|now right].
    destruct IH as [[Hall ->] | ->]; [left | right]; auto.
    split; [constructor; assumption | reflexivity].
Qed.

Lemma matchDigitRun_complete n s run :
  0 < n -> firstLongRun n s run -> matchDigitRun n s = Some run.
Proof.
  intros Hpos (pre & post & -> & Hd & Hn & Hl & Hh & Hno).
  induction pre as [|c pre IH].
  - destruct run as [|d run]; [simpl in Hn; lia|].
    cbn [app matchDigitRun].
    change (d :: run ++ post) with ((d :: run) ++ post).
    rewrite takeWhile_block by assumption.
    apply Nat.leb_le in Hn. now rewrite Hn.
  - cbn [app matchDigitRun].
    assert (E : (n <=? List.length (takeWhile isDigit (c :: pre ++ run ++ post))) = false).
    { apply Nat.leb_gt.
      change (c :: pre ++ run ++ post) with ((c :: pre) ++ run ++ post).
      destruct (takeWhile_app_cases isDigit (c :: pre) (run ++ post))
        as [[Hall _] | ->].
      - apply last_digit_all in Hall; [congruence | discriminate].
      - apply Nat.nlt_ge. intros Hlt%Nat.nlt_ge. apply Hno.
        apply long_takeWhile. lia. }
    rewrite E. apply IH.
    + destruct pre; [reflexivity|].
      now rewrite last_cons_nonempty in Hl by discriminate.
    + intros H. apply Hno. now apply hasLongRun_cons.
Qed.

Lemma matchDigitRun_none n s :
  0 < n -> (matchDigitRun n s = None <-> ~ hasLongRun n s).
Proof.
  intros Hpos. split.
  - intros Hnone Hrun.
    destruct (matchDigitRun_some_has n s Hrun Hpos) as [r Hr]. congruence.
  - intros Hno. destruct (matchDigitRun n s) as [run|] eqn:E; [|reflexivity].
    exfalso. apply Hno.
    destruct (matchDigitRun_sound n s run Hpos E) as (pre & post & -> & Hd & Hn & _).
    apply hasLongRun_app_r, hasLongRun_prefix; assumption.
Qed.

(** *** The white-space tolerant search never adds anything *)

Lemma spacedRun_prefix b s : exists rest, s = spacedRun b s ++ rest.
Proof.
  revert b. induction s as [|c s IH]; intros b; simpl; [now exists []|].
  destruct (isDigit c); [destruct (IH true) as [r Hr]; exists r; simpl; congruence|].
  destruct (b && isSpace c); [|now exists (c :: s)].
  destruct (IH true) as [r Hr]; exists r; simpl; congruence.
Qed.

Lemma strip_spacedRun b s :
  stripSeparators (spacedRun b s) = List.filter isDigit (spacedRun b s).
Proof.
  revert b. induction s as [|c s IH]; intros b; simpl; [reflexivity|].
  destruct (isDigit c) eqn:Ed.
  - unfold stripSeparators in *. simpl.
    rewrite (digit_not_separator c Ed), Ed. simpl. now rewrite IH.
  - destruct (b && isSpace c) eqn:Es; [|reflexivity].
    apply andb_true_iff in Es as [_ Es].
    unfold stripSeparators in *. simpl.
    rewrite (space_is_separator c Es), Ed. simpl. apply IH.
Qed.

Lemma filter_all (p : ascii -> bool) l : allOf p (List.filter p l).
Proof.
  induction l as [|c l IH]; simpl; [constructor|].
  destruct (p c) eqn:E; [constructor|]; assumption.
Qed.

Lemma strip_app a b :
  stripSeparators (a ++ b) = stripSeparators a ++ stripSeparators b.
Proof. apply List.filter_app. Qed.

Lemma strip_cons_has n c s :
  hasLongRun n (stripSeparators s) -> hasLongRun n (stripSeparators (c :: s)).
Proof.
  unfold stripSeparators. simpl. destruct (negb (isSeparator c)); auto.
  apply hasLongRun_cons.
Qed.

Lemma spaced_implies_run n s m :
  matchSpacedDigits n s = Some m -> hasLongRun n (stripSeparators s).
Proof.
  induction s as [|c s IH]; [discriminate|].
  cbn [matchSpacedDigits].
  destruct (n <=? _) eqn:E.
  - intros _. apply Nat.leb_le in E.
    destruct (spacedRun_prefix false (c :: s)) as [rest Hrest].
    rewrite Hrest, strip_app, strip_spacedRun.
    apply hasLongRun_prefix; [apply filter_all | exact E].
  - intros Hm. apply strip_cons_has, IH, Hm.
Qed.

(** The second search of [extractPhoneNumber] is reached only when it
    fails too. *)
Lemma spaced_search_redundant text :
  matchDigitRun 10 (cleanedDigits text) = None ->
  matchSpacedDigits 10 (normalizeWords text) = None.
Proof.
  intros Hnone.
  destruct (matchSpacedDigits 10 (normalizeWords text)) as [m|] eqn:E;
    [|reflexivity].
  apply spaced_implies_run in E.
  apply matchDigitRun_none in Hnone; [|lia]. contradiction.
Qed.

Lemma extractPhoneNumberL_eq text :
  extractPhoneNumberL text
  = option_map (lastN 10) (matchDigitRun 10 (cleanedDigits text)).
Proof.
  unfold extractPhoneNumberL. fold (cleanedDigits text).
  destruct (matchDigitRun 10 (cleanedDigits text)) eqn:E; [reflexivity|].
  now rewrite (spaced_search_redundant text E).
Qed.

Lemma lastN_length n l : n <= List.length l -> List.length (lastN n l) = n.
Proof. intros H. unfold lastN. rewrite length_skipn. lia. Qed.

Lemma lastN_all p n l : allOf p l -> allOf p (lastN n l).
Proof.
  unfold lastN, allOf. intros H.
  rewrite <- (firstn_skipn (List.length l - n) l) in H.
  now apply List.Forall_app in H.
Qed.

Lemma chars_str l : chars (str l) = l.
Proof. apply list_ascii_of_string_of_list_ascii. Qed.

Lemma startsWithCI_split w s :
  startsWithCI w s = true ->
  exists lit rest, s = lit ++ rest /\ equalCI lit w
                   /\ skipn (List.length w) s = rest.
Proof.
  revert s. induction w as [|a w IH]; intros s; simpl.
  - intros _. exists [], s. repeat split.
  - destruct s as [|b s]; [discriminate|].
    intros [Hab Hw]%andb_true_iff. apply Ascii.eqb_eq in Hab.
    destruct (IH s Hw) as (lit & rest & -> & Heq & Hskip).
    exists (b :: lit), rest. repeat split; [|exact Hskip].
    unfold equalCI in *. simpl. congruence.
Qed.

Lemma startsWithCI_intro lit w rest :
  equalCI lit w -> startsWithCI w (lit ++ rest) = true
                   /\ skipn (List.length w) (lit ++ rest) = rest.
Proof.
  revert lit. induction w as [|a w IH]; intros [|b lit] Heq;
    unfold equalCI in *; simpl in *; try discriminate; [now split|].
  injection Heq as Hab Heq. destruct (IH lit Heq) as [-> ->].
  rewrite Hab, Ascii.eqb_refl. now split.
Qed.

Lemma nonEmpty_true l : nonEmpty l = true <-> l <> [].
Proof. destruct l; simpl; split; congruence. Qed.

Lemma optLetter_stop b :
  isLetterOpt (head b) = false ->
  match head b with Some c => isLetter c = false | None => True end.
Proof. destruct b; simpl; auto. Qed.

Lemma head_stop_opt (p : ascii -> bool) b :
  match head b with Some c => p c = false | None => True end ->
  match head b with Some c => p c | None => false end = false.
Proof. destruct b; simpl; auto. Qed.

Lemma captureAfter_spec s cap :
  captureAfter s = Some cap <->
  exists ws rest, s = ws ++ cap ++ rest
    /\ ws <> [] /\ allOf isSpace ws /\ cap <> [] /\ allOf isLetter cap
    /\ isLetterOpt (head rest) = false.
Proof.
  unfold captureAfter. split.
  - destruct (nonEmpty (takeWhile isSpace s)) eqn:Ews; [|discriminate].
    destruct (nonEmpty (takeWhile isLetter _)) eqn:Ecap; [|discriminate].
    intros [= <-].
    exists (takeWhile isSpace s), (dropWhile isLetter (dropWhile isSpace s)).
    rewrite takeWhile_dropWhile, takeWhile_dropWhile.
    repeat split; try apply takeWhile_all; try now apply nonEmpty_true.
    apply (head_stop_opt isLetter), dropWhile_head.
  - intros (ws & rest & -> & Hws & Hsp & Hcap & Hlet & Hrest).
    assert (Hstop : match head (cap ++ rest) with
                    | Some c => isSpace c = false | None => True end).
    { destruct cap as [|c cap]; [congruence|]. simpl.
      inversion Hlet; subst. now apply letter_not_space. }
    rewrite (takeWhile_app_all isSpace ws _ Hsp), (takeWhile_stop _ _ Hstop).
    rewrite (dropWhile_app_all isSpace ws _ Hsp), (dropWhile_stop _ _ Hstop).
    rewrite (takeWhile_app_all isLetter cap _ Hlet).
    rewrite (takeWhile_stop isLetter rest) by now apply optLetter_stop.
    rewrite !app_nil_r.
    apply nonEmpty_true in Hws, Hcap. now rewrite Hws, Hcap.
Qed.

Lemma matchAltAt_spec alt s cap :
  matchAltAt alt s = Some cap <-> readsAlt alt s cap.
Proof.
  unfold matchAltAt, readsAlt. split.
  - destruct (startsWithCI (chars alt) s) eqn:E; [|discriminate].
    destruct (startsWithCI_split _ _ E) as (lit & rest0 & -> & Heq & ->).
    intros (ws & rest & -> & H)%captureAfter_spec.
    exists lit, ws, rest. auto.
  - intros (lit & ws & rest & -> & Heq & H).
    destruct (startsWithCI_intro lit (chars alt) (ws ++ cap ++ rest) Heq)
      as [-> ->].
    apply captureAfter_spec. exists ws, rest. auto.
Qed.

Lemma matchPatternAt_spec alts s cap :
  matchPatternAt alts s = Some cap <-> readsPattern alts s cap.
Proof.
  revert cap. induction alts as [|alt alts IH]; intros cap; simpl.
  - split; [discriminate|]. intros (i & a & Hi & _). destruct i; discriminate.
  - destruct (matchAltAt alt s) as [c|] eqn:E.
    + split.
      * intros [= <-]. exists 0, alt. repeat split; [now apply matchAltAt_spec|].
        intros j ? ? Hj. lia.
      * intros ([|i] & a & Hi & Hr & Hmin).
        -- injection Hi as <-. apply matchAltAt_spec in Hr. congruence.
        -- exfalso. apply (Hmin 0 alt c); [lia | reflexivity |].
           now apply matchAltAt_spec.
    + rewrite IH. split.
      * intros (i & a & Hi & Hr & Hmin). exists (S i), a.
        repeat split; auto. intros [|j] a' c' Hj Hl.
        -- injection Hl as <-. intros Hr'%matchAltAt_spec. congruence.
        -- apply (Hmin j); [lia | exact Hl].
      * intros ([|i] & a & Hi & Hr & Hmin).
        -- injection Hi as <-. apply matchAltAt_spec in Hr. congruence.
        -- exists i, a. repeat split; auto.
           intros j a' c' Hj Hl. apply (Hmin (S j)); [lia | exact Hl].
Qed.

Lemma matchPattern_spec alts text cap :
  matchPattern alts text = Some cap <-> firstOccurrence alts text cap.
Proof.
  revert cap. induction text as [|c text IH]; intros cap.
  - simpl. destruct (matchPatternAt alts []) as [c0|] eqn:E.
    + split.
      * intros [= <-]. exists [], []. repeat split; [now apply matchPatternAt_spec|].
        intros ? ? ? _ Hl. simpl in Hl. lia.
      * intros (pre & suf & Heq & Hr & _).
        symmetry in Heq. apply app_eq_nil in Heq as [-> ->].
        apply matchPatternAt_spec in Hr. congruence.
    + split; [discriminate|].
      intros (pre & suf & Heq & Hr & _).
      symmetry in Heq. apply app_eq_nil in Heq as [-> ->].
      apply matchPatternAt_spec in Hr. congruence.
  - cbn [matchPattern]. destruct (matchPatternAt alts (c :: text)) as [c0|] eqn:E.
    + split.
      * intros [= <-]. exists [], (c :: text).
        repeat split; [now apply matchPatternAt_spec|].
        intros ? ? ? _ Hl. simpl in Hl. lia.
      * intros ([|x pre] & suf & Heq & Hr & Hmin).
        -- simpl in Heq. subst suf. apply matchPatternAt_spec in Hr. congruence.
        -- exfalso. apply (Hmin [] (c :: text) c0); [reflexivity | simpl; lia |].
           now apply matchPatternAt_spec.
    + rewrite IH. split.
      * intros (pre & suf & -> & Hr & Hmin). exists (c :: pre), suf.
        repeat split; auto. intros [|x pre'] suf' cap' Heq Hl.
        -- simpl in Heq. subst suf'. intros Hr'%matchPatternAt_spec. congruence.
        -- injection Heq as <- Heq. apply (Hmin pre'); [exact Heq | simpl in Hl; lia].
      * intros ([|x pre] & suf & Heq & Hr & Hmin).
        -- simpl in Heq. subst suf. apply matchPatternAt_spec in Hr. congruence.
        -- injection Heq as <- ->. exists pre, suf. repeat split; auto.
           intros pre' suf' cap' Heq Hl.
           apply (Hmin (c :: pre') suf' cap'); [simpl; congruence | simpl; lia].
Qed.

Lemma firstOccurrence_functional alts text cap cap' :
  firstOccurrence alts text cap -> firstOccurrence alts text cap' -> cap = cap'.
Proof. intros H1%matchPattern_spec H2%matchPattern_spec. congruence. Qed.

Lemma isFalsePositive_spec cap :
  isFalsePositive cap = false <-> accepted cap.
Proof.
  unfold isFalsePositive, accepted. split.
  - intros Hf Hin. apply not_true_iff_false in Hf. apply Hf.
    apply existsb_exists. exists (str (toLowerCase cap)).
    split; [exact Hin | apply String.eqb_refl].
  - intros Hacc. apply not_true_iff_false. intros (fp & Hin & Heq)%existsb_exists.
    apply String.eqb_eq in Heq. subst fp. contradiction.
Qed.

Lemma tryPatterns_some patterns text n :
  tryPatterns patterns text = Some n <->
  exists i alts cap,
    patterns !! i = Some alts /\ firstOccurrence alts text cap
    /\ accepted cap /\ n = capitalize cap
    /\ forall j alts' cap', j < i -> patterns !! j = Some alts' ->
         firstOccurrence alts' text cap' -> ~ accepted cap'.
Proof.
  revert n. induction patterns as [|p patterns IH]; intros n; simpl.
  - split; [discriminate|]. intros (i & ? & ? & Hi & _). destruct i; discriminate.
  - destruct (matchPattern p text) as [name|] eqn:E.
    + destruct (isFalsePositive name) eqn:Efp; simpl.
      * rewrite IH. split.
        -- intros (i & alts & cap & Hi & Hf & Ha & -> & Hmin).
           exists (S i), alts, cap. repeat split; auto.
           intros [|j] alts' cap' Hj Hl Hf'.
           ++ injection Hl as <-. apply matchPattern_spec in Hf'.
              replace cap' with name by congruence.
              rewrite <- isFalsePositive_spec. congruence.
           ++ apply (Hmin j alts' cap'); [lia | exact Hl | exact Hf'].
        -- intros ([|i] & alts & cap & Hi & Hf & Ha & -> & Hmin).
           ++ injection Hi as <-. apply matchPattern_spec in Hf.
              apply isFalsePositive_spec in Ha. congruence.
           ++ exists i, alts, cap. repeat split; auto.
              intros j alts' cap' Hj Hl. apply (Hmin (S j)); [lia | exact Hl].
      * split.
        -- intros [= <-]. exists 0, p, name.
           repeat split; [now apply matchPattern_spec
                         | now apply isFalsePositive_spec |].
           intros j ? ? Hj. lia.
        -- intros ([|i] & alts & cap & Hi & Hf & Ha & -> & Hmin).
           ++ injection Hi as <-. apply matchPattern_spec in Hf. congruence.
           ++ exfalso. apply (Hmin 0 p name); [lia | reflexivity
                | now apply matchPattern_spec | now apply isFalsePositive_spec].
    + rewrite IH. split.
      * intros (i & alts & cap & Hi & Hf & Ha & -> & Hmin).
        exists (S i), alts, cap. repeat split; auto.
        intros [|j] alts' cap' Hj Hl Hf'.
        -- injection Hl as <-. apply matchPattern_spec in Hf'. congruence.
        -- apply (Hmin j alts' cap'); [lia | exact Hl | exact Hf'].
      * intros ([|i] & alts & cap & Hi & Hf & Ha & -> & Hmin).
        -- injection Hi as <-. apply matchPattern_spec in Hf. congruence.
        -- exists i, alts, cap. repeat split; auto.
           intros j alts' cap' Hj Hl. apply (Hmin (S j)); [lia | exact Hl].
Qed.

Lemma tryPatterns_none patterns text :
  tryPatterns patterns text = None <->
  forall alts cap, In alts patterns -> firstOccurrence alts text cap ->
                   ~ accepted cap.
Proof.
  induction patterns as [|p patterns IH]; simpl.
  - split; [intros _ ? ? [] | reflexivity].
  - destruct (matchPattern p text) as [name|] eqn:E.
    + destruct (isFalsePositive name) eqn:Efp; simpl.
      * rewrite IH. split.
        -- intros H alts cap [<- | Hin] Hf; [|now apply (H alts)].
           apply matchPattern_spec in Hf. replace cap with name by congruence.
           rewrite <- isFalsePositive_spec. congruence.
        -- intros H alts cap Hin. apply H. now right.
      * split; [discriminate|]. intros H. exfalso.
        apply (H p name); [now left | now apply matchPattern_spec
                          | now apply isFalsePositive_spec].
    + rewrite IH. split.
      * intros H alts cap [<- | Hin] Hf; [|now apply (H alts)].
        apply matchPattern_spec in Hf. congruence.
      * intros H alts cap Hin. apply H. now right.
Qed.

Lemma upper_of_letter c : isLetter c = true -> isUpper (toUpperChar c) = true.
Proof. char_cases c. Qed.

Lemma lower_of_letter c : isLetter c = true -> isLower (toLowerChar c) = true.
Proof. char_cases c. Qed.

Lemma capitalize_shape cap :
  cap <> [] -> allOf isLetter cap ->
  exists c rest,
    cap = c :: rest
    /\ capitalize cap = toUpperChar c :: toLowerCase rest
    /\ isUpper (toUpperChar c) = true
    /\ allOf isLower (toLowerCase rest).
Proof.
  destruct cap as [|c rest]; [congruence|]. intros _ Hall.
  inversion Hall as [|? ? Hc Hrest]; subst.
  exists c, rest. repeat split; [now apply upper_of_letter|].
  unfold allOf, toLowerCase. apply Forall_map.
  eapply List.Forall_impl; [|exact Hrest]. intros a. apply lower_of_letter.
Qed.

Lemma firstOccurrence_letters alts text cap :
  firstOccurrence alts text cap -> cap <> [] /\ allOf isLetter cap.
Proof.
  intros (pre & suf & _ & (i & alt & _ & (lit & ws & rest & H) & _) & _).
  tauto.
Qed.

(** Claim C9.  For every text, [extractName] returns a name exactly when
    one of the patterns of [namePatterns], read without regard to case at its
    leftmost occurrence, captures a word that is not on the deny-list, every
    earlier pattern having captured nothing or a denied word; the name is
    that capture with its first letter in upper case and the others in lower
    case.  It returns nothing exactly when no pattern yields an accepted
    capture.  The two sentences of the specification give ["John"] and
    nothing. *)
Theorem extractName_spec (text : string) :
  (forall n, extractName text = Some n <->
     exists i alts cap,
       namePatterns !! i = Some alts
       /\ firstOccurrence alts (chars text) cap
       /\ accepted cap
       /\ n = str (capitalize cap)
       /\ forall j alts' cap', j < i -> namePatterns !! j = Some alts' ->
            firstOccurrence alts' (chars text) cap' -> ~ accepted cap')
  /\ (extractName text = None <->
        forall alts cap, In alts namePatterns ->
          firstOccurrence alts (chars text) cap -> ~ accepted cap)
  /\ (forall alts cap, firstOccurrence alts (chars text) cap ->
        exists c rest,
          cap = c :: rest
          /\ capitalize cap = toUpperChar c :: toLowerCase rest
          /\ isUpper (toUpperChar c) = true
          /\ allOf isLower (toLowerCase rest))
  /\ extractName "Hi, this is John, I need an appointment" = Some "John"%string
  /\ extractName "I'm calling about a refund" = None.
Proof.
  unfold extractName, extractNameL. split; [|split; [|split; [|split]]].
  - intros n. split.
    + destruct (tryPatterns namePatterns (chars text)) as [r|] eqn:E;
        [|discriminate].
      intros [= <-]. apply tryPatterns_some in E
        as (i & alts & cap & Hi & Hf & Ha & -> & Hmin).
      exists i, alts, cap. auto.
    + intros (i & alts & cap & Hi & Hf & Ha & -> & Hmin).
      assert (E : tryPatterns namePatterns (chars text) = Some (capitalize cap)).
      { apply tryPatterns_some. exists i, alts, cap. auto. }
      now rewrite E.
  - rewrite <- tryPatterns_none.
    destruct (tryPatterns namePatterns (chars text)); simpl; split; congruence.
  - intros alts cap Hf. apply firstOccurrence_letters in Hf as [Hne Hall].
    now apply capitalize_shape.
  - vm_compute. reflexivity.
  - vm_compute. reflexivity.
Qed.

(** ** Call orchestrator *)

(** Most invariants below are proved by cases on the event and then on
    every test the handlers make. *)
Ltac unfold_handlers :=
  unfold step, onTimer, render, toggleMute, toggleMic, onStreamFail, onStreamEnd,
    onStreamLine, processEvent, onEndCallResponse, endCall, endCallSync,
    autoRestartCallback, onRecorderStop, onStopHandler, sendVoiceMessage,
    onDataAvailable, stopListening, safetyCutoff, onGetUserMediaRejected,
    onGetUserMediaResolved, startListening, startRecording, startVoiceDetection,
    checkAudioLevel, vadStop, exitVad, updVad, onWorkletEnded, signalAudioComplete,
    clearAudio, playAudio, scheduleAutoRestart, clearAutoRestart, updTurn,
    stopRecorder, postToWorklet, consoleError, toast, clearTimeout, setTimeout,
    setToolCalls, setMessages, setCurrentTranscript, setIsMuted, setIsProcessing,
    setIsSpeaking, setIsListening, setIsCallActive, commit in *.

Ltac handler_cases :=
  unfold_handlers; cbn; repeat (case_match; simplify_eq; cbn).

Lemma Forall_filter_keep {A} (P : A -> Prop) f (l : list A) :
  Forall P l -> Forall P (List.filter f l).
Proof.
  induction 1 as [|x l Hx _ IH]; simpl; [constructor|].
  destruct (f x); [constructor|]; assumption.
Qed.

Lemma Forall_snoc {A} (P : A -> Prop) (l : list A) x :
  Forall P l -> P x -> Forall P (l ++ [x]).
Proof. intros. apply Forall_app_2; [assumption | now constructor]. Qed.

(** *** Timer handles are never reused *)

Lemma fresh_succ n (l : list Timer) :
  Forall (fun x => (timerId x < n)%positive) l ->
  Forall (fun x => (timerId x < Pos.succ n)%positive) l.
Proof. apply List.Forall_impl. intros; lia. Qed.

Lemma fresh_succ2 n (l : list Timer) :
  Forall (fun x => (timerId x < n)%positive) l ->
  Forall (fun x => (timerId x < Pos.succ (Pos.succ n))%positive) l.
Proof. apply List.Forall_impl. intros; lia. Qed.

Ltac timers_tac :=
  repeat first
    [ assumption
    | apply Forall_snoc
    | apply Forall_filter_keep
    | apply fresh_succ
    | apply fresh_succ2
    | progress cbn
    | lia ].

Lemma step_timersFresh e s : timersFresh s -> timersFresh (step e s).
Proof.
  unfold timersFresh. intros H. destruct e; handler_cases; timers_tac.
Qed.

Lemma step_retired t e s : retired t s -> retired t (step e s).
Proof.
  unfold retired. intros [Hlt H].
  destruct e; handler_cases; (split; [timers_tac|]); timers_tac.
Qed.

Lemma run_retired t es s : retired t s -> retired t (run es s).
Proof.
  revert s. induction es as [|e es IH]; intros s H; [exact H|].
  apply IH, step_retired, H.
Qed.

Lemma retired_find t s :
  retired t s -> List.find (timerIs t) (timers (env s)) = None.
Proof.
  intros [_ H]. induction H as [|x l Hx _ IH]; [reflexivity|].
  simpl. unfold timerIs at 1.
  destruct (Pos.eqb_spec (timerId x) t); [contradiction | exact IH].
Qed.

Lemma retired_noop t p s : retired t s -> step (TimerFires t p) s = s.
Proof. intros H. simpl. unfold onTimer. now rewrite (retired_find t s H). Qed.

Lemma find_timerIs t l x :
  List.find (timerIs t) l = Some x -> timerId x = t /\ In x l.
Proof.
  intros H. apply List.find_some in H as [Hin Heq].
  split; [now apply Pos.eqb_eq | exact Hin].
Qed.

Lemma filter_timer_gone t (l : list Timer) :
  Forall (fun x => timerId x <> t)
         (List.filter (fun x => negb (timerIs t x)) l).
Proof.
  induction l as [|x l IH]; simpl; [constructor|].
  unfold timerIs at 1. destruct (Pos.eqb_spec (timerId x) t); simpl;
    [exact IH | now constructor].
Qed.

(** *** An ended call stays ended *)

Lemma step_callOver e s : callOver s -> callOver (step e s).
Proof.
  unfold callOver. intros [Href Hst].
  destruct e; handler_cases; split; auto; try congruence.
  all: destruct (isCallActive (st s)), (isCallActive (rendered s));
    try reflexivity; try discriminate; specialize (Hst eq_refl); discriminate.
Qed.

(** *** The state of a detection loop is its own *)

Lemma quiet_insert_other (l : list Vad) v v' y :
  (exists x, l !! v = Some x /\ hasSpoken x = false) ->
  v' <> v ->
  exists x, <[v' := y]> l !! v = Some x /\ hasSpoken x = false.
Proof. intros H Hne. now rewrite list_lookup_insert_ne. Qed.

Lemma quiet_insert_same (l : list Vad) v y :
  (exists x, l !! v = Some x /\ hasSpoken x = false) ->
  hasSpoken y = false ->
  exists x, <[v := y]> l !! v = Some x /\ hasSpoken x = false.
Proof.
  intros (x & Hx & _) Hy. exists y. split; [|exact Hy].
  apply list_lookup_insert_eq. now apply lookup_lt_Some in Hx.
Qed.

Lemma quiet_app (l : list Vad) v k :
  (exists x, l !! v = Some x /\ hasSpoken x = false) ->
  exists x, (l ++ k) !! v = Some x /\ hasSpoken x = false.
Proof.
  intros (x & Hx & Hs). exists x. split; [|exact Hs].
  now apply lookup_app_l_Some.
Qed.

Lemma quiet_insert (l : list Vad) v v' y :
  (exists x, l !! v = Some x /\ hasSpoken x = false) ->
  (v' = v -> hasSpoken y = false) ->
  exists x, <[v' := y]> l !! v = Some x /\ hasSpoken x = false.
Proof.
  intros H Hy. destruct (decide (v' = v)) as [->|Hne].
  - apply quiet_insert_same; auto.
  - now apply quiet_insert_other.
Qed.

Lemma quiet_lt (l : list Vad) v :
  (exists x, l !! v = Some x /\ hasSpoken x = false) -> v <> List.length l.
Proof. intros (x & Hx%lookup_lt_Some & _). unfold length in *. lia. Qed.

Lemma step_quietVad v e s :
  quietVad v s -> loud v e = false -> quietVad v (step e s).
Proof.
  unfold quietVad. intros H Hl.
  destruct e; handler_cases; try assumption;
    repeat first
      [ assumption
      | apply quiet_insert;
        [|intros; subst; cbn in *;
          first [ congruence
                | exfalso; exact (quiet_lt _ _ H eq_refl)
                | destruct H as (? & ? & ?); congruence
                | unfold loud in Hl; rewrite Nat.eqb_refl in Hl;
                  match goal with
                  | Hq : aboveThreshold _ = true |- _ => rewrite Hq in Hl
                  end; discriminate ] ]
      | apply quiet_app ].
Qed.

Lemma run_quietVad v es s :
  quietVad v s -> Forall (fun e => loud v e = false) es ->
  quietVad v (run es s).
Proof.
  intros H Hes. revert s H.
  induction Hes as [|e es He _ IH]; intros s H; [exact H|].
  apply IH, step_quietVad; assumption.
Qed.

Lemma startRecording_vads p s :
  analyserRef (refs s) = true ->
  aboveThreshold (frequencyData p) = false ->
  vads (env (startRecording p s))
  = vads (env s) ++ [Build_Vad (now p) false true].
Proof.
  intros Ha Hp.
  unfold startRecording, startVoiceDetection, checkAudioLevel, setTimeout.
  cbn. rewrite Ha. cbn.
  assert (Hk : (vads (env s) ++ [Build_Vad (now p) false true])
               !! List.length (vads (env s))
               = Some (Build_Vad (now p) false true)).
  { rewrite lookup_app_r by reflexivity. now rewrite Nat.sub_diag. }
  rewrite Hk. cbn. rewrite Hp. cbn. now repeat case_match.
Qed.

Lemma startRecording_quietVad p s :
  analyserRef (refs s) = true ->
  aboveThreshold (frequencyData p) = false ->
  quietVad (List.length (vads (env s))) (startRecording p s).
Proof.
  intros Ha Hp. unfold quietVad. rewrite startRecording_vads by assumption.
  exists (Build_Vad (now p) false true). split; [|reflexivity].
  rewrite lookup_app_r by reflexivity. now rewrite Nat.sub_diag.
Qed.

(** *** Statuses of tool calls *)

Lemma toolCallStart_ok id name parameters prev :
  Forall okStatus prev -> Forall okStatus (toolCallStart id name parameters prev).
Proof. intros H. apply Forall_snoc; [exact H | now left]. Qed.

Lemma toolCallEnd_ok id result prev :
  Forall okStatus prev -> Forall okStatus (toolCallEnd id result prev).
Proof.
  intros H. unfold toolCallEnd. apply Forall_map.
  eapply List.Forall_impl; [|exact H]. intros tc Htc. cbn.
  destruct (String.eqb (tcId tc) id); [now right | exact Htc].
Qed.

Lemma step_toolsOk e s : toolsOk s -> toolsOk (step e s).
Proof.
  unfold toolsOk. intros H. destruct e; handler_cases; try assumption.
  - now apply toolCallStart_ok.
  - now apply toolCallEnd_ok.
Qed.

Lemma run_toolsOk es s : toolsOk s -> toolsOk (run es s).
Proof.
  revert s. induction es as [|e es IH]; intros s H; [exact H|].
  apply IH, step_toolsOk, H.
Qed.

(** *** At most one restart is pending *)

Lemma tracked_none (l : list Timer) :
  Forall (fun x => timerKind x = AutoRestart -> None = Some (timerId x)) l ->
  noRestart l.
Proof. apply List.Forall_impl. intros x H Hk. now specialize (H Hk). Qed.

Lemma tracked_cleared t (l : list Timer) :
  Forall (fun x => timerKind x = AutoRestart -> Some t = Some (timerId x)) l ->
  noRestart (List.filter (fun x => negb (timerIs t x)) l).
Proof.
  induction 1 as [|x l Hx _ IH]; simpl; [constructor|].
  unfold timerIs at 1. destruct (Pos.eqb_spec (timerId x) t); simpl; [exact IH|].
  constructor; [|exact IH]. intros Hk. specialize (Hx Hk). congruence.
Qed.

Lemma noRestart_any (o : option positive) (l : list Timer) :
  noRestart l ->
  Forall (fun x => timerKind x = AutoRestart -> o = Some (timerId x)) l.
Proof. apply List.Forall_impl. intros x H Hk. contradiction. Qed.

Lemma noRestart_filter f (l : list Timer) :
  noRestart l -> noRestart (List.filter f l).
Proof. apply Forall_filter_keep. Qed.

Lemma noRestart_safety (l : list Timer) t r d :
  noRestart l -> noRestart (l ++ [Build_Timer t (SafetyCutoff r) d]).
Proof. intros H. apply Forall_snoc; [exact H | discriminate]. Qed.

Ltac no_restart :=
  repeat first
    [ assumption
    | apply noRestart_safety
    | (apply tracked_cleared; assumption)
    | (apply tracked_none; assumption)
    | apply noRestart_filter ].

Ltac tracked_tac H :=
  solve
    [ exact H
    | apply Forall_filter_keep; exact H
    | apply Forall_snoc;
      [ solve [exact H | apply Forall_filter_keep; exact H] | cbn; discriminate ]
    | apply noRestart_any; solve [no_restart]
    | apply Forall_snoc;
      [ apply noRestart_any; solve [no_restart] | cbn; reflexivity ] ].

Lemma step_restartTracked e s : restartTracked s -> restartTracked (step e s).
Proof.
  unfold restartTracked. intros H. destruct e.
  2:{ (* a timer fires *)
      cbn. unfold onTimer. destruct (List.find _ _) as [x|] eqn:Ef; [|exact H].
      apply find_timerIs in Ef as [<- Hin].
      destruct (timerKind x) eqn:Ek.
      - assert (Href : autoRestartTimeoutRef (refs s) = Some (timerId x)).
        { rewrite List.Forall_forall in H. now apply H. }
        rewrite Href in H.
        assert (Hno : noRestart (List.filter
                        (fun y => negb (timerIs (timerId x) y)) (timers (env s))))
          by now apply tracked_cleared.
        clear H Href Hin.
        handler_cases; apply noRestart_any; no_restart.
      - handler_cases; first [exact H | apply Forall_filter_keep; exact H]. }
  all: handler_cases; cbn in *; try congruence;
    try match goal with
        | Hr : autoRestartTimeoutRef (refs _) = _ |- _ => rewrite Hr in H
        end;
    try tracked_tac H.
Qed.

(** *** One recording at a time, as long as starts do not overlap *)

Lemma tracked_stop (R : list RecorderState) (ref : option nat) (flag : bool) r0 q :
  (forall r, R !! r = Some Recording -> ref = Some r /\ flag = true) ->
  R !! r0 = Some Recording -> q <> Recording ->
  forall r (P : Prop), <[r0 := q]> R !! r = Some Recording -> P.
Proof.
  intros H H0 Hq r P Hr. exfalso.
  apply list_lookup_insert_Some in Hr as [(_ & Hq' & _) | (Hne & Hr)];
    [congruence|].
  destruct (H r Hr) as [Hr1 _], (H r0 H0) as [Hr0 _]. congruence.
Qed.

Lemma tracked_idle (R : list RecorderState) (ref : option nat) :
  (forall r, R !! r = Some Recording -> ref = Some r /\ false = true) ->
  forall r, (R ++ [Recording]) !! r = Some Recording ->
            Some (List.length R) = Some r /\ true = true.
Proof.
  intros H r Hr. apply lookup_app_Some in Hr as [Hr | (Hle & Hr)].
  - now destruct (H r Hr).
  - split; [|reflexivity]. f_equal.
    apply lookup_lt_Some in Hr. simpl in Hr. unfold length in *. lia.
Qed.

Lemma tracked_finish (R : list RecorderState) (ref : option nat) (flag : bool) r0 :
  (forall r, R !! r = Some Recording -> ref = Some r /\ flag = true) ->
  forall r, <[r0 := Finished]> R !! r = Some Recording ->
            ref = Some r /\ flag = true.
Proof.
  intros H r Hr.
  apply list_lookup_insert_Some in Hr as [(_ & Hq & _) | (Hne & Hr)];
    [congruence | now apply H].
Qed.

Lemma lookup_snoc {A} (l : list A) x : (l ++ [x]) !! List.length l = Some x.
Proof. rewrite lookup_app_r by reflexivity. now rewrite Nat.sub_diag. Qed.

Ltac session_tac H :=
  let r := fresh "r" in
  let Hr := fresh "Hr" in
  intros r Hr; unfold restartGuard, recorderRecording in *; cbn in *;
  repeat (case_match; simplify_eq);
  repeat match goal with
         | Hq : _ || _ = false |- _ => apply orb_false_elim in Hq as [? ?]
         | Hq : _ && _ = true |- _ => apply andb_true_iff in Hq as [? ?]
         | Hq : negb _ = true |- _ => apply negb_true_iff in Hq
         end;
  repeat first
    [ apply list_lookup_insert_Some in Hr as [(? & ? & ?) | (? & Hr)];
      [congruence|]
    | apply lookup_app_Some in Hr as [Hr | (? & Hr)] ];
  repeat match goal with
         | Hx : recorders (env _) !! _ = Some Recording |- _ =>
             destruct (H _ Hx); revert Hx
         end;
  intros;
  try congruence;
  try (split; assumption);
  try (apply lookup_lt_Some in Hr; simpl in Hr; split; [f_equal|reflexivity];
       unfold length in *; lia).

(** Every event keeps the recorders tracked, provided no [getUserMedia]
    resolves while a recording is in progress. *)
Lemma step_sessionTracked e s :
  sessionTracked s ->
  (forall p, e = MediaResolved p -> isRecordingRef (refs s) = false) ->
  sessionTracked (step e s).
Proof.
  unfold sessionTracked. intros H He.
  destruct e; try specialize (He _ eq_refl);
    handler_cases; rewrite ?lookup_snoc in *; simplify_eq; cbn in *;
    try congruence; try exact H; session_tac H.
Qed.

Lemma sessionTracked_one s : sessionTracked s -> openSessions s <= 1.
Proof.
  unfold sessionTracked, openSessions. intros H.
  assert (Huniq : forall i j, recorders (env s) !! i = Some Recording ->
                              recorders (env s) !! j = Some Recording -> i = j).
  { intros i j Hi Hj. destruct (H i Hi), (H j Hj). congruence. }
  clear H. revert Huniq. generalize (recorders (env s)) as R.
  induction R as [|q R IH]; intros Huniq; [simpl; lia|].
  assert (HR : forall i j, R !! i = Some Recording -> R !! j = Some Recording ->
                           i = j).
  { intros i j Hi Hj. specialize (Huniq (S i) (S j) Hi Hj). lia. }
  specialize (IH HR). simpl. destruct q; simpl; try lia.
  destruct (List.filter _ R) as [|q' R'] eqn:Ef; [simpl; lia|]. exfalso.
  assert (Hin : In q' (List.filter
            (fun q => match q with Recording => true | _ => false end) R))
    by (rewrite Ef; now left).
  apply List.filter_In in Hin as [Hin Hq]. destruct q'; try discriminate.
  apply list_elem_of_In, list_elem_of_lookup in Hin as [i Hi].
  specialize (Huniq 0 (S i) eq_refl Hi). lia.
Qed.

Lemma run_sessionTracked es s :
  sessionTracked s -> startsApart es s -> sessionTracked (run es s).
Proof.
  revert s. induction es as [|e es IH]; intros s H Hes; [exact H|].
  destruct Hes as [He Hes]. apply IH; [|exact Hes].
  now apply step_sessionTracked.
Qed.

(** Apart from overlapping starts, one recording at most is open. *)
Lemma run_one_session es s :
  sessionTracked s -> startsApart es s -> openSessions (run es s) <= 1.
Proof. intros H Hes. now apply sessionTracked_one, run_sessionTracked. Qed.

(** The invariants hold when a call begins. *)
Lemma activeCall_invariants :
  timersFresh activeCall /\ restartTracked activeCall
  /\ sessionTracked activeCall /\ toolsOk activeCall.
Proof.
  split; [constructor|]. split; [constructor|]. split; [|constructor].
  intros r' Hr. destruct r'; discriminate.
Qed.

(** *** The restart callback *)

Lemma restartGuard_true s :
  restartGuard s = true ->
  isCallActiveRef (refs s) = true /\ isRecordingRef (refs s) = false
  /\ isMicPausedRef (refs s) = false /\ isProcessingRef (refs s) = false
  /\ isSpeakingRef (refs s) = false.
Proof.
  unfold restartGuard. rewrite !andb_true_iff, !negb_true_iff. tauto.
Qed.

Lemma clearTimeout_retired t s :
  timersFresh s -> pending t s -> retired t (clearTimeout t s).
Proof.
  intros Hf [x Hx]. apply find_timerIs in Hx as [<- Hin]. split; cbn.
  - unfold timersFresh in Hf. rewrite List.Forall_forall in Hf. now apply Hf.
  - apply filter_timer_gone.
Qed.

Lemma retired_not_pending t s : retired t s -> ~ pending t s.
Proof. intros H [x Hx]. rewrite (retired_find t s H) in Hx. discriminate. Qed.

(** What the callback of a restart timer [t] does check: the capture
    pipeline is touched only if the five ref cells say that the call is
    active, nothing is being recorded, the microphone is not paused and the
    agent is neither processing nor speaking.  If one of the cells says
    otherwise, the only effect is that the timer is gone and its handle
    forgotten: nothing is recorded and no timer is created; and whatever
    happens afterwards, [t] is never pending again, so that firing it later
    does nothing. *)
Lemma restart_callback_guarded (s : State) (t : positive) (x : Timer)
    (p : Probe) :
  timersFresh s ->
  List.find (timerIs t) (timers (env s)) = Some x ->
  timerKind x = AutoRestart ->
  let s' := step (TimerFires t p) s in
  (~ captureUntouched s s' ->
     isCallActiveRef (refs s) = true /\ isRecordingRef (refs s) = false
     /\ isMicPausedRef (refs s) = false /\ isProcessingRef (refs s) = false
     /\ isSpeakingRef (refs s) = false)
  /\ (restartGuard s = false ->
        s' = updRefs (with_autoRestartTimeoutRef None) (clearTimeout t s)
        /\ captureUntouched s s'
        /\ autoRestartTimeoutRef (refs s') = None
        /\ nextTimer (env s') = nextTimer (env s)
        /\ timers (env s')
           = List.filter (fun y => negb (timerIs t y)) (timers (env s))
        /\ forall es,
             ~ pending t (run es s')
             /\ forall p', step (TimerFires t p') (run es s') = run es s').
Proof.
  intros Hfresh Hfind Hkind s'.
  assert (Hdrop : restartGuard s = false ->
            s' = updRefs (with_autoRestartTimeoutRef None) (clearTimeout t s)).
  { intros Hg. subst s'. cbn. unfold onTimer. rewrite Hfind, Hkind.
    unfold autoRestartCallback.
    change (restartGuard (updRefs (with_autoRestartTimeoutRef None)
                                  (clearTimeout t s)))
      with (restartGuard s).
    now rewrite Hg. }
  split.
  - intros Hch. destruct (restartGuard s) eqn:Hg;
      [now apply restartGuard_true|].
    exfalso. apply Hch. rewrite (Hdrop eq_refl). now repeat split.
  - intros Hg. specialize (Hdrop Hg).
    split; [exact Hdrop|]. rewrite Hdrop.
    split; [now repeat split|]. split; [reflexivity|].
    split; [reflexivity|]. split; [reflexivity|].
    intros es.
    assert (Hret : retired t (run es (updRefs (with_autoRestartTimeoutRef None)
                                              (clearTimeout t s)))).
    { apply run_retired.
      apply (clearTimeout_retired t s Hfresh). now exists x. }
    split; [now apply retired_not_pending | intros p'; now apply retired_noop].
Qed.

Lemma restart_callback_guarded_paused :
  captureUntouched pausedCall (step (TimerFires 1 quiet) pausedCall).
Proof.
  destruct (restart_callback_guarded pausedCall 1
              (Build_Timer 1 AutoRestart 500) quiet) as [_ H].
  - repeat constructor.
  - reflexivity.
  - reflexivity.
  - apply H. reflexivity.
Qed.


(** *** Voice activity detection *)

(** A frame of a loop that has not heard the caller stops nothing, whatever
    its sample and however late it comes. *)
Lemma quiet_frame_stops_nothing v p s :
  quietVad v s ->
  recorders (env (checkAudioLevel v p s)) = recorders (env s)
  /\ isRecordingRef (refs (checkAudioLevel v p s)) = isRecordingRef (refs s)
  /\ isListening (st (checkAudioLevel v p s)) = isListening (st s).
Proof.
  intros (x & Hx & Hs). unfold checkAudioLevel, exitVad, updVad.
  rewrite Hx, Hs. cbn. repeat case_match; cbn; auto.
Qed.

Lemma not_all_quiet v es :
  ~ Forall (fun e => loud v e = false) es ->
  Exists (fun e => loud v e = true) es.
Proof.
  induction es as [|e es IH]; intros H; [exfalso; apply H; constructor|].
  destruct (loud v e) eqn:E; [now left|]. right. apply IH.
  intros Hes. apply H. now constructor.
Qed.

Lemma startRecording_safety p s :
  exists t,
    silenceTimeoutRef (refs (startRecording p s)) = Some t
    /\ In (Build_Timer t (SafetyCutoff (List.length (recorders (env s)))) 30000)
          (timers (env (startRecording p s))).
Proof.
  unfold startRecording, setTimeout. cbn.
  eexists. split; [reflexivity|]. cbn. apply in_or_app. right. now left.
Qed.

Lemma safetyCutoff_stops r s :
  recorderRecording r s = true ->
  recorders (env (safetyCutoff r s)) !! r = Some Stopped
  /\ recorderRecording r (safetyCutoff r s) = false
  /\ isRecordingRef (refs (safetyCutoff r s)) = false.
Proof.
  intros H. unfold safetyCutoff. rewrite H.
  unfold recorderRecording in *. cbn.
  destruct (recorders (env s) !! r) as [q|] eqn:E; [|discriminate].
  assert (Hlt : r < List.length (recorders (env s)))
    by now apply lookup_lt_Some in E.
  rewrite list_lookup_insert_eq by exact Hlt. auto.
Qed.

(** A recording starts with [startRecording], which launches the
    detection loop [v].  If the first sample of the loop and all its later
    ones stay at or below the threshold, no frame of that loop stops the
    recorder, whatever happens in between and whatever the clock says.  So a
    frame of the loop that does stop the recorder comes after a sample of
    the loop above the threshold.  The safety timer of the recording is
    set next to the loop, and its callback stops the recorder without
    looking at the loop. *)
Lemma own_loop_needs_speech (s : State) (p0 : Probe) (es : list Event)
    (p : Probe) :
  analyserRef (refs s) = true ->
  let v := List.length (vads (env s)) in
  let r := List.length (recorders (env s)) in
  let s0 := startRecording p0 s in
  let s1 := run es s0 in
  let s2 := step (VadFrame v p) s1 in
  (aboveThreshold (frequencyData p0) = false ->
   Forall (fun e => loud v e = false) es ->
     recorders (env s2) = recorders (env s1)
     /\ isRecordingRef (refs s2) = isRecordingRef (refs s1)
     /\ isListening (st s2) = isListening (st s1))
  /\ (recorders (env s2) <> recorders (env s1) ->
        aboveThreshold (frequencyData p0) = true
        \/ Exists (fun e => loud v e = true) es)
  /\ (exists t,
        silenceTimeoutRef (refs s0) = Some t
        /\ In (Build_Timer t (SafetyCutoff r) 30000) (timers (env s0)))
  /\ (forall s', recorderRecording r s' = true ->
        recorderRecording r (safetyCutoff r s') = false
        /\ isRecordingRef (refs (safetyCutoff r s')) = false).
Proof.
  intros Ha v r s0 s1 s2.
  assert (Hquiet : aboveThreshold (frequencyData p0) = false ->
                   Forall (fun e => loud v e = false) es ->
                   recorders (env s2) = recorders (env s1)
                   /\ isRecordingRef (refs s2) = isRecordingRef (refs s1)
                   /\ isListening (st s2) = isListening (st s1)).
  { intros Hp0 Hes. apply quiet_frame_stops_nothing.
    apply run_quietVad; [|exact Hes]. now apply startRecording_quietVad. }
  split; [exact Hquiet|]. split; [|split].
  - intros Hstop. destruct (aboveThreshold (frequencyData p0)) eqn:Hp0;
      [now left | right].
    apply not_all_quiet. intros Hes.
    destruct (Hquiet eq_refl Hes) as [Hrec _]. contradiction.
  - apply startRecording_safety.
  - intros s' Hrec. now destruct (safetyCutoff_stops r s' Hrec) as (_ & ? & ?).
Qed.

Lemma own_loop_needs_speech_silence :
  let s1 := run [VadFrame 0 (silence 100); VadFrame 0 (silence 5000)]
                (startRecording (silence 0) micReady) in
  recorders (env (step (VadFrame 0 (silence 60000)) s1)) = recorders (env s1).
Proof.
  intros s1.
  destruct (own_loop_needs_speech micReady (silence 0)
              [VadFrame 0 (silence 100); VadFrame 0 (silence 5000)]
              (silence 60000) eq_refl) as [H _].
  destruct H as [H _]; [reflexivity | repeat constructor |].
  exact H.
Qed.

(** Claim C3.  The loop that a recording launches cannot stop the
    recorder before one of its own samples was above the threshold, and the
    safety timer stops the recorder on its own.  But [hasSpoken] belongs to
    the loop, not to the recording, a loop ends only at one of its own
    frames, and a frame stops whatever recorder the pipeline holds.  In
    [secondRecording] the loop of the first recording, which heard the
    caller, has had no frame between the end of its recording and the start
    of the next one: its next frame finds the recording flag up again, sees
    a silence of forty seconds, and stops the second recorder, one second
    after its start, although no sample of the second recording was above
    the threshold. *)
Theorem stale_loop_stops_silent_recording :
  (forall s p0 es p,
     analyserRef (refs s) = true ->
     let v := List.length (vads (env s)) in
     let r := List.length (recorders (env s)) in
     let s0 := startRecording p0 s in
     let s1 := run es s0 in
     let s2 := step (VadFrame v p) s1 in
     (aboveThreshold (frequencyData p0) = false ->
      Forall (fun e => loud v e = false) es ->
        recorders (env s2) = recorders (env s1)
        /\ isRecordingRef (refs s2) = isRecordingRef (refs s1)
        /\ isListening (st s2) = isListening (st s1))
     /\ (recorders (env s2) <> recorders (env s1) ->
           aboveThreshold (frequencyData p0) = true
           \/ Exists (fun e => loud v e = true) es)
     /\ (exists t,
           silenceTimeoutRef (refs s0) = Some t
           /\ In (Build_Timer t (SafetyCutoff r) 30000) (timers (env s0)))
     /\ (forall s', recorderRecording r s' = true ->
           recorderRecording r (safetyCutoff r s') = false
           /\ isRecordingRef (refs (safetyCutoff r s')) = false))
  /\ (let s := secondRecording in
      recorders (env s) = [Finished; Recording]
      /\ mediaRecorderRef (refs s) = Some 1
      /\ vads (env s)
         = [Build_Vad 1000 true true; Build_Vad 40000 false true]
      /\ aboveThreshold (frequencyData (silence 40000)) = false
      /\ aboveThreshold (frequencyData (silence 41000)) = false
      /\ let s' := step (VadFrame 0 (silence 41000)) s in
         recorders (env s') = [Finished; Stopped]
         /\ isRecordingRef (refs s') = false
         /\ isListening (st s') = false
         /\ vads (env s')
            = [Build_Vad 1000 true false; Build_Vad 40000 false true]).
Proof.
  split.
  - intros s p0 es p Ha. exact (own_loop_needs_speech s p0 es p Ha).
  - vm_compute. repeat split; reflexivity.
Qed.

(** *** endCall *)

Lemma find_none_filter {A} (f g : A -> bool) (l : list A) :
  List.find f l = None -> List.find f (List.filter g l) = None.
Proof.
  induction l as [|a l IH]; simpl; [reflexivity|].
  destruct (f a) eqn:Ef; [discriminate|]. intros H.
  destruct (g a); simpl; [rewrite Ef|]; auto.
Qed.

Lemma find_cleared t (l : list Timer) :
  List.find (timerIs t) (List.filter (fun x => negb (timerIs t x)) l) = None.
Proof.
  induction l as [|a l IH]; simpl; [reflexivity|].
  destruct (timerIs t a) eqn:E; simpl; [exact IH | now rewrite E].
Qed.

Lemma no_recording_no_session s :
  (forall r, recorders (env s) !! r <> Some Recording) -> openSessions s = 0.
Proof.
  unfold openSessions. generalize (recorders (env s)) as R.
  induction R as [|q R IH]; intros H; [reflexivity|].
  simpl. destruct q; try (apply IH; intros r; exact (H (S r))).
  now specialize (H 0).
Qed.

Lemma stopListening_recorders s :
  sessionTracked s ->
  forall r, recorders (env (stopListening s)) !! r <> Some Recording.
Proof.
  intros H r Hr. unfold stopListening, recorderRecording in Hr.
  revert Hr. handler_cases; intros Hr; cbn in Hr.
  all: try (apply list_lookup_insert_Some in Hr as [(_ & ? & _) | (? & Hr)];
            [discriminate|]).
  all: destruct (H r Hr) as [Href _]; unfold recorderRecording in *;
    cbn in *; simplify_eq; try congruence.
Qed.

Lemma endCallSync_some c s :
  truthy (ecSessionId c) = true ->
  endCallSync c s
  = Some (updRefs (with_analyserRef false)
            (updRefs (with_streamRef false)
               (stopListening
                  (clearAudio
                     (setIsProcessing true
                        (clearAutoRestart
                           (updRefs (with_isCallActiveRef false) s))))))).
Proof. intros H. unfold endCallSync. now rewrite H. Qed.

Lemma run_callOver es s : callOver s -> callOver (run es s).
Proof.
  revert s. induction es as [|e es IH]; intros s H; [exact H|].
  apply IH, step_callOver, H.
Qed.

Lemma callOver_drops_restart t p x s :
  callOver s ->
  List.find (timerIs t) (timers (env s)) = Some x ->
  timerKind x = AutoRestart ->
  captureUntouched s (step (TimerFires t p) s).
Proof.
  intros [Href _] Hfind Hkind. cbn. unfold onTimer. rewrite Hfind, Hkind.
  unfold autoRestartCallback, restartGuard. cbn. rewrite Href. cbn.
  now repeat split.
Qed.

(** With a session at hand, [endCall] has done all of this
    when it reaches its first [await]: the call-active flag that the restart
    callback reads is false, the pending restart timer is cleared, the
    playback sink has received [clear] and speaking is set to false, the
    recorder the pipeline holds is stopped and the recording flag is down; no
    request has been issued yet.  From then on, through any sequence of the
    events of a call (the lines of a turn that is still streaming included;
    the start of another call is not one of them), the flag stays false and
    every restart timer that fires leaves the capture pipeline untouched. *)
Lemma endCall_prefix (s : State) (c : EndCallEnv) (fromTurn : option nat) :
  truthy (ecSessionId c) = true ->
  isCallActive (rendered s) = true ->
  exists s1,
    endCallSync c s = Some s1
    /\ endCall c fromTurn s
       = updEnv (fun e => with_endCalls
                   (endCalls e ++ [Build_EndCallRequest c fromTurn false]) e) s1
    /\ endCalls (env s1) = endCalls (env s)
    /\ isCallActiveRef (refs s1) = false
    /\ autoRestartTimeoutRef (refs s1) = None
    /\ (forall t, autoRestartTimeoutRef (refs s) = Some t -> ~ pending t s1)
    /\ (restartTracked s -> noRestart (timers (env s1)))
    /\ (workletRef (refs s) = true ->
          workletInbox (env s1) = workletInbox (env s) ++ [MsgClear])
    /\ isSpeaking (st s1) = false
    /\ isRecordingRef (refs s1) = false
    /\ (forall r, mediaRecorderRef (refs s) = Some r ->
          recorderRecording r s1 = false)
    /\ (sessionTracked s -> openSessions s1 = 0)
    /\ forall es,
         let s2 := run es (endCall c fromTurn s) in
         isCallActiveRef (refs s2) = false
         /\ forall t p x,
              List.find (timerIs t) (timers (env s2)) = Some x ->
              timerKind x = AutoRestart ->
              captureUntouched s2 (step (TimerFires t p) s2).
Proof.
  intros Hsid Hactive. eexists.
  split; [apply (endCallSync_some c s Hsid)|].
  split; [unfold endCall; now rewrite (endCallSync_some c s Hsid)|].
  split; [handler_cases; reflexivity|].
  split; [handler_cases; reflexivity|].
  split; [handler_cases; cbn in *; congruence|].
  split.
  { intros t Ht [x Hx]. revert Hx. unfold clearAutoRestart. cbn. rewrite Ht.
    handler_cases; intros Hx; cbn in Hx;
      rewrite ?find_none_filter in Hx by apply find_cleared;
      rewrite ?find_cleared in Hx; discriminate. }
  split.
  { unfold restartTracked. intros Htr. handler_cases; cbn in *;
      try congruence;
      try match goal with
          | Hr : autoRestartTimeoutRef (refs _) = _ |- _ => rewrite Hr in Htr
          end;
      no_restart. }
  split; [intros Hw; handler_cases; cbn in *; congruence|].
  split; [handler_cases; reflexivity|].
  split; [handler_cases; reflexivity|].
  split.
  { intros r Hr. unfold recorderRecording. handler_cases; cbn in *;
      rewrite ?Hr in *; simplify_eq; try congruence;
      try (unfold recorderRecording in *; cbn in *; repeat case_match;
           simplify_eq; congruence).
    all: match goal with
         | Hq : <[_ := _]> _ !! _ = Some Recording |- _ =>
             apply list_lookup_insert_Some in Hq as [(_ & ? & _) | (? & _)];
             congruence
         end. }
  split.
  { intros Htr. apply no_recording_no_session. intros r.
    change (recorders (env (stopListening (clearAudio (setIsProcessing true
              (clearAutoRestart (updRefs (with_isCallActiveRef false) s))))))
              !! r <> Some Recording).
    apply stopListening_recorders.
    intros r' Hr'. revert Hr'. handler_cases; apply Htr. }
  intros es s2.
  assert (Hover : callOver s2).
  { apply run_callOver. unfold endCall.
    rewrite (endCallSync_some c s Hsid). split.
    - handler_cases; reflexivity.
    - intros _. revert Hactive. handler_cases; auto. }
  split; [apply Hover|].
  intros t p x Hfind Hkind. now apply callOver_drops_restart with x.
Qed.

Lemma endCall_prefix_paused :
  isCallActiveRef (refs (endCall (endCallOf callState) None pausedCall)) = false.
Proof.
  destruct (endCall_prefix pausedCall (endCallOf callState) None
              eq_refl eq_refl)
    as (s1 & _ & _ & _ & _ & _ & _ & _ & _ & _ & _ & _ & _ & H).
  exact (proj1 (H [])).
Qed.

(** Claim C4.  Before its first [await], [endCall] lowers the
    call-active flag, clears the pending restart timer, sends [clear] to the
    playback sink, sets speaking to false and stops the recorder that the
    pipeline holds; every restart timer that fires afterwards is dropped.
    Two things escape it.  The flag is read by the restart callback only: a
    [startListening] that a restart launched before the call was ended, and
    that waits for the microphone, goes on when [getUserMedia] resolves and
    starts a recording in the ended call ([restartWaiting]).  And the
    pipeline holds one recorder: when two record at once (the run of claim
    C2), the first one keeps recording ([twoRecorders]). *)
Theorem endCall_misses_waiting_starts :
  (forall s c fromTurn,
     truthy (ecSessionId c) = true ->
     isCallActive (rendered s) = true ->
     exists s1,
       endCallSync c s = Some s1
       /\ endCall c fromTurn s
          = updEnv (fun e => with_endCalls
                      (endCalls e ++ [Build_EndCallRequest c fromTurn false]) e) s1
       /\ endCalls (env s1) = endCalls (env s)
       /\ isCallActiveRef (refs s1) = false
       /\ autoRestartTimeoutRef (refs s1) = None
       /\ (forall t, autoRestartTimeoutRef (refs s) = Some t -> ~ pending t s1)
       /\ (restartTracked s -> noRestart (timers (env s1)))
       /\ (workletRef (refs s) = true ->
             workletInbox (env s1) = workletInbox (env s) ++ [MsgClear])
       /\ isSpeaking (st s1) = false
       /\ isRecordingRef (refs s1) = false
       /\ (forall r, mediaRecorderRef (refs s) = Some r ->
             recorderRecording r s1 = false)
       /\ (sessionTracked s -> openSessions s1 = 0)
       /\ forall es,
            let s2 := run es (endCall c fromTurn s) in
            isCallActiveRef (refs s2) = false
            /\ forall t p x,
                 List.find (timerIs t) (timers (env s2)) = Some x ->
                 timerKind x = AutoRestart ->
                 captureUntouched s2 (step (TimerFires t p) s2))
  /\ (let s := restartWaiting in
      pendingGetUserMedia (env s) = 1
      /\ recorders (env s) = []
      /\ let s1 := step ClickEndCall s in
         isCallActiveRef (refs s1) = false
         /\ timers (env s1) = []
         /\ pendingGetUserMedia (env s1) = 1
         /\ let s2 := step (MediaResolved quiet) s1 in
            isCallActiveRef (refs s2) = false
            /\ recorders (env s2) = [Recording]
            /\ isRecordingRef (refs s2) = true
            /\ isListening (st s2) = true)
  /\ (let s := twoRecorders in
      recorders (env s) = [Recording; Recording]
      /\ mediaRecorderRef (refs s) = Some 1
      /\ let s1 := step ClickEndCall s in
         isCallActiveRef (refs s1) = false
         /\ isRecordingRef (refs s1) = false
         /\ recorders (env s1) = [Recording; Stopped]
         /\ openSessions s1 = 1).
Proof.
  split; [|split].
  - intros s c fromTurn Hs Ha. exact (endCall_prefix s c fromTurn Hs Ha).
  - vm_compute. repeat split; reflexivity.
  - vm_compute. repeat split; reflexivity.
Qed.

(** *** The end of a recording *)

(** Claim C6.  When the [stop] event of a recording is handled, a blob
    smaller than [MIN_BLOB_SIZE] is dropped: no turn is opened and a restart
    is scheduled with the delay of 100 ms.  A blob larger than the threshold
    goes to [sendVoiceMessage], and no timer is created or cleared. *)
Theorem short_recording_discarded (s : State) (r : nat) :
  recorders (env s) !! r = Some Stopped ->
  let size := sumZ (chunksRef (refs s)) in
  let s0 := updRefs (with_chunksRef [])
              (updEnv (fun e =>
                 with_recorders (<[r := Finished]> (recorders e)) e) s) in
  let s' := step (RecorderStop r) s in
  ((size < MIN_BLOB_SIZE)%Z ->
     s' = scheduleAutoRestart 100 s0
     /\ turns (env s') = turns (env s)
     /\ isProcessing (st s') = isProcessing (st s)
     /\ exists t,
          autoRestartTimeoutRef (refs s') = Some t
          /\ In (Build_Timer t AutoRestart 100) (timers (env s')))
  /\ ((MIN_BLOB_SIZE < size)%Z ->
      forall c, sendVoiceMessageRef (refs s) = Some c ->
        s' = sendVoiceMessage c size s0
        /\ timers (env s') = timers (env s)
        /\ nextTimer (env s') = nextTimer (env s)
        /\ autoRestartTimeoutRef (refs s') = autoRestartTimeoutRef (refs s)
        /\ (truthy (svSessionId c) = true ->
              turns (env s') = turns (env s) ++ [Build_Turn c "" Reading]
              /\ isProcessing (st s') = true)).
Proof.
  intros Hr size s0 s'.
  assert (Hs' : s' = onStopHandler
                       (updEnv (fun e =>
                          with_recorders (<[r := Finished]> (recorders e)) e) s)).
  { subst s'. cbn. unfold onRecorderStop. now rewrite Hr. }
  split.
  - intros Hsize.
    assert (E : (MIN_BLOB_SIZE <? size)%Z = false) by (apply Z.ltb_ge; lia).
    assert (Hd : s' = scheduleAutoRestart 100 s0).
    { rewrite Hs'. unfold onStopHandler. cbn. fold size. now rewrite E. }
    split; [exact Hd|]. rewrite Hd.
    split; [handler_cases; reflexivity|].
    split; [handler_cases; reflexivity|].
    unfold scheduleAutoRestart, setTimeout. cbn.
    eexists. split; [reflexivity|]. cbn. apply in_or_app. right. now left.
  - intros Hsize c Hc.
    assert (E : (MIN_BLOB_SIZE <? size)%Z = true) by (apply Z.ltb_lt; lia).
    assert (Hd : s' = sendVoiceMessage c size s0).
    { rewrite Hs'. unfold onStopHandler. cbn. fold size. now rewrite E, Hc. }
    split; [exact Hd|]. rewrite Hd. unfold sendVoiceMessage.
    destruct (truthy (svSessionId c)); cbn; repeat split; auto; discriminate.
Qed.

Lemma short_recording_discarded_witness :
  turns (env (step (RecorderStop 0) shortRecording)) = turns (env shortRecording).
Proof.
  destruct (short_recording_discarded shortRecording 0 eq_refl) as [H _].
  destruct H as (_ & H & _); [reflexivity | exact H].
Defined.

(** The size that equals the threshold is on the discarded side. *)
Lemma threshold_size_discarded s :
  sumZ (chunksRef (refs s)) = MIN_BLOB_SIZE ->
  onStopHandler s = scheduleAutoRestart 100 (updRefs (with_chunksRef []) s).
Proof. intros H. unfold onStopHandler. now rewrite H. Qed.

(** *** Tool calls *)

(** Claim C7.  A tool-call-end event keeps the number of records; with an
    [id] that no record carries it gives the same list back; in any case a
    record with another [id] stays as it is at its position, a record with
    that [id] only receives the result and the status [completed], and no
    position appears or disappears. *)
Theorem toolCallEnd_frame (id : string) (result : option string)
    (prev : list ToolCallData) :
  List.length (toolCallEnd id result prev) = List.length prev
  /\ ((forall tc, In tc prev -> tcId tc <> id) ->
        toolCallEnd id result prev = prev)
  /\ (forall i tc, prev !! i = Some tc -> tcId tc <> id ->
        toolCallEnd id result prev !! i = Some tc)
  /\ (forall i tc, prev !! i = Some tc -> tcId tc = id ->
        toolCallEnd id result prev !! i
        = Some (Build_ToolCallData (tcId tc) (tcName tc) (tcParameters tc)
                                   result StCompleted))
  /\ (forall i, prev !! i = None <-> toolCallEnd id result prev !! i = None)
  /\ forall k x s,
       toolCalls (st (processEvent k x (EvToolCallEnd id result) s))
       = toolCallEnd id result (toolCalls (st s)).
Proof.
  unfold toolCallEnd. split; [apply length_map|].
  split; [|split; [|split; [|split]]].
  - intros H. induction prev as [|tc prev IH]; [reflexivity|]. simpl.
    rewrite IH by (intros; apply H; now right).
    destruct (String.eqb_spec (tcId tc) id) as [E|_]; [|reflexivity].
    exfalso. apply (H tc); [now left | exact E].
  - intros i tc Hi Hne. rewrite list_lookup_fmap, Hi. simpl.
    destruct (String.eqb_spec (tcId tc) id); [contradiction | reflexivity].
  - intros i tc Hi He. rewrite list_lookup_fmap, Hi. simpl.
    destruct (String.eqb_spec (tcId tc) id); [reflexivity | contradiction].
  - intros i. rewrite list_lookup_fmap. destruct (prev !! i); simpl;
      split; congruence.
  - reflexivity.
Qed.

Lemma toolCallEnd_frame_witness :
  toolCallEnd "call_9" (Some "ok"%string) [lookupCall] = [lookupCall].
Proof.
  destruct (toolCallEnd_frame "call_9" (Some "ok"%string) [lookupCall])
    as (_ & H & _).
  apply H. intros tc [<- | []]. discriminate.
Defined.

Lemma step_new_records e s tc :
  In tc (toolCalls (st (step e s))) ->
  In tc (toolCalls (st s)) \/ okStatus tc.
Proof.
  destruct e; handler_cases; auto.
  - unfold toolCallStart. intros [Hin | [<- | []]]%in_app_or; [now left|].
    right. now left.
  - unfold toolCallEnd. intros (tc0 & <- & Hin)%in_map_iff.
    destruct (String.eqb (tcId tc0) id); [right; now right | now left].
Qed.

(** Claim C10.  A [tool_call_start] event of a turn that is being read
    appends one record, with the fields of the event, no result and the
    status [running]; a [tool_call_end] event rewrites the records that
    carry its [id], whatever their status was and whatever the event brings
    as result, to the status [completed]; no other event touches the
    records.  So a record that any event adds or changes is [running] or
    [completed], and if the tool calls of a state all are (in particular if
    there are none, as at the start of a call), they still are after any
    sequence of events, and none is [pending] or [error]. *)
Theorem stream_statuses :
  (forall id name parameters prev tc,
     In tc (toolCallStart id name parameters prev) ->
     In tc prev \/ tcStatus tc = StRunning)
  /\ (forall id result prev tc,
        In tc (toolCallEnd id result prev) ->
        In tc prev \/ tcStatus tc = StCompleted)
  /\ (forall s, toolCalls (st s) = [] -> toolsOk s)
  /\ (forall es s, toolsOk s -> toolsOk (run es s))
  /\ (forall es s tc, toolsOk s -> In tc (toolCalls (st (run es s))) ->
        tcStatus tc <> StPending /\ tcStatus tc <> StError)
  /\ (forall k x id name parameters s,
        turns (env s) !! k = Some x -> turnPhase x = Reading ->
        toolCalls (st (step (StreamLineRead k
                        (LineEvent (EvToolCallStart id name parameters))) s))
        = toolCalls (st s)
          ++ [Build_ToolCallData id name parameters None StRunning])
  /\ (forall k x id result s,
        turns (env s) !! k = Some x -> turnPhase x = Reading ->
        let s' := step (StreamLineRead k
                          (LineEvent (EvToolCallEnd id result))) s in
        List.length (toolCalls (st s')) = List.length (toolCalls (st s))
        /\ forall i tc,
             toolCalls (st s) !! i = Some tc ->
             toolCalls (st s') !! i
             = Some (if String.eqb (tcId tc) id
                     then Build_ToolCallData (tcId tc) (tcName tc)
                            (tcParameters tc) result StCompleted
                     else tc))
  /\ (forall e s tc,
        In tc (toolCalls (st (step e s))) ->
        In tc (toolCalls (st s))
        \/ tcStatus tc = StRunning \/ tcStatus tc = StCompleted)
  /\ (forall id result name parameters old status,
        toolCallEnd id result
          [Build_ToolCallData id name parameters old status]
        = [Build_ToolCallData id name parameters result StCompleted])
  /\ toolCalls (st turnOpen) = []
  /\ toolCalls (st (run (firstn 1 toolCallStream) turnOpen)) = [lookupCall]
  /\ toolCalls (st (run toolCallStream turnOpen))
     = [Build_ToolCallData "call_1" "fetch_slots" None (Some "[]"%string)
          StCompleted].
Proof.
  assert (Hinv : forall es s tc, toolsOk s ->
            In tc (toolCalls (st (run es s))) ->
            tcStatus tc <> StPending /\ tcStatus tc <> StError).
  { intros es s tc Hok Hin. apply (run_toolsOk es) in Hok.
    unfold toolsOk in Hok. rewrite List.Forall_forall in Hok.
    destruct (Hok tc Hin) as [-> | ->]; split; discriminate. }
  split; [|split; [|split; [|split; [|split]]]].
  - intros id name parameters prev tc Hin. unfold toolCallStart in Hin.
    apply in_app_or in Hin as [Hin | [<- | []]]; [now left | now right].
  - intros id result prev tc Hin. unfold toolCallEnd in Hin.
    apply in_map_iff in Hin as (tc0 & <- & Hin).
    destruct (String.eqb (tcId tc0) id); [now right | now left].
  - intros s Hs. unfold toolsOk. rewrite Hs. constructor.
  - intros es s. apply run_toolsOk.
  - exact Hinv.
  - split; [|split; [|split; [|split]]].
    + intros k x id name parameters s Hx Hp. cbn. unfold onStreamLine.
      now rewrite Hx, Hp.
    + intros k x id result s Hx Hp. cbn. unfold onStreamLine.
      rewrite Hx, Hp. cbn. unfold toolCallEnd.
      split; [apply length_map|].
      intros i tc Hi. now rewrite list_lookup_fmap, Hi.
    + exact step_new_records.
    + intros id result name parameters old status. unfold toolCallEnd.
      cbn. now rewrite String.eqb_refl.
    + vm_compute. repeat split; reflexivity.
Qed.

Lemma stream_statuses_witness :
  let s := run toolCallStream turnOpen in
  toolCalls (st s)
  = [Build_ToolCallData "call_1" "fetch_slots" None (Some "[]"%string)
       StCompleted]
  /\ toolsOk s.
Proof.
  destruct stream_statuses
    as (_ & _ & Hnil & Hrun & _ & _ & _ & _ & _ & Hopen & _ & Hend).
  split; [exact Hend|]. apply Hrun, Hnil, Hopen.
Defined.

(** *** Overlapping starts and swallowed errors *)

(** Claim C2.  [startListening] returns without any effect when a
    recording is in progress or when its closure saw the agent processing or
    speaking.  The recording flag is raised only after the wait for the
    microphone stream, though: two calls that pass the guard while no stream
    is held (two clicks on the microphone button of a fresh call) both go on
    once [getUserMedia] resolves, and two recorders record at the same
    time. *)
Theorem overlapping_starts_open_two_sessions :
  (forall c p s,
     isRecordingRef (refs s) || slProcessing c || slSpeaking c = true ->
     startListening c p s = s)
  /\ let s := run [ClickMic quiet; ClickMic quiet;
                   MediaResolved quiet; MediaResolved quiet] activeCall in
     recorders (env s) = [Recording; Recording]
     /\ openSessions s = 2
     /\ mediaRecorderRef (refs s) = Some 1.
Proof.
  split.
  - intros c p s H. unfold startListening. now rewrite H.
  - vm_compute. auto.
Qed.

(** Claim C5.  An [error] event throws inside the [try] whose [catch]
    only logs, so all it leaves is a line on the console.  On a body made of
    an error event, a transcript and [done], no toast is shown and the
    transcript that follows the error is delivered as a message, whereas a
    failure of the stream itself does show the toast. *)
Theorem error_event_is_swallowed :
  (forall k x error s,
     processEvent k x (EvError error) s = consoleError "SSE parsing error:" s)
  /\ let body := [LineEvent (EvError "boom");
                  LineEvent (EvTranscript "hello");
                  LineEvent (EvDone false)] in
     let s := consumeStream 0 body turnOpen in
     toasts (env s) = []
     /\ consoleErrors (env s) = ["SSE parsing error:"%string]
     /\ messages (st s) = [Build_Message RoleAssistant "hello"]
     /\ toasts (env (step (StreamFails 0) turnOpen))
        = [Build_Toast "Error" "Failed to process your message"].
Proof.
  split; [reflexivity|]. vm_compute. auto.
Qed.

(** ** Further properties *)

Lemma sameChars_spec a b : reflect (a = b) (sameChars a b).
Proof. unfold sameChars. destruct (List.list_eq_dec ascii_dec a b); now constructor. Qed.

Lemma space_not_word : isWordChar " " = false.
Proof. reflexivity. Qed.

Lemma startsWith_app w s : startsWith w (w ++ s) = true.
Proof. induction w as [|a w IH]; simpl; [reflexivity|]. now rewrite Ascii.eqb_refl. Qed.

Lemma startsWith_split w s :
  startsWith w s = true -> exists rest, s = w ++ rest.
Proof.
  revert s. induction w as [|a w IH]; intros s; simpl; [now exists s|].
  destruct s as [|b s]; [discriminate|].
  intros [Hab Hw]%andb_true_iff. apply Ascii.eqb_eq in Hab as ->.
  destruct (IH s Hw) as [rest ->]. now exists rest.
Qed.

Lemma skipn_app_exact {A} (l k : list A) : skipn (List.length l) (l ++ k) = k.
Proof. induction l; simpl; auto. Qed.

Lemma last_word_char t :
  isToken t -> isWordOpt (last t) = true.
Proof.
  intros [Hne Hall]. induction t as [|c t IH]; [congruence|].
  inversion Hall; subst. destruct t as [|d t]; [assumption|].
  change (last (c :: d :: t)) with (last (d :: t)). apply IH; [discriminate | assumption].
Qed.

Lemma tokenEnd_head rest : tokenEnd rest -> isWordOpt (head rest) = false.
Proof. intros [-> | [more ->]]; reflexivity. Qed.

(** [/\bw\b/] at the start of a token that begins at a word boundary:
    it matches exactly when the token is [w]. *)
Lemma matchWordAt_token w t rest prev :
  isToken w -> isToken t -> tokenEnd rest -> isWordOpt prev = false ->
  matchWordAt w prev (t ++ rest) = sameChars t w.
Proof.
  intros Hw Ht Hrest Hprev. unfold matchWordAt.
  destruct (sameChars_spec t w) as [->|Hne].
  - rewrite startsWith_app, skipn_app_exact.
    unfold wordBoundary. rewrite Hprev, (last_word_char w Hw), (tokenEnd_head rest Hrest).
    destruct Hw as [Hwne Hwall]. destruct w as [|c w]; [congruence|].
    simpl. inversion Hwall; subst. now rewrite H1.
  - destruct (startsWith w (t ++ rest)) eqn:Es; [|now rewrite andb_false_r].
    (* [w] is a strict prefix of [t], or runs into the separator *)
    apply startsWith_split in Es as [r Hr].
    assert (Hcases : (exists x u, t = w ++ x :: u) \/ (exists x u, w = t ++ x :: u)).
    { clear -Hr Hne. revert w Hr Hne. induction t as [|a t IH]; intros w Hr Hne.
      - destruct w as [|x u]; [congruence|]. right. now exists x, u.
      - destruct w as [|b w].
        + left. now exists a, t.
        + simpl in Hr. injection Hr as <- Hr.
          destruct (IH w Hr) as [(x & u & ->) | (x & u & ->)]; [congruence| |].
          * left. now exists x, u.
          * right. now exists x, u. }
    destruct Hcases as [(x & u & ->) | (x & u & ->)].
    + rewrite <- app_assoc, skipn_app_exact. simpl.
      unfold wordBoundary at 2. rewrite (last_word_char w Hw). simpl.
      destruct Ht as [_ Hall]. apply List.Forall_app in Hall as [_ Hall].
      inversion Hall; subst. rewrite H1. simpl. now rewrite andb_false_r.
    + exfalso. rewrite <- app_assoc in Hr. apply app_inv_head in Hr.
      destruct Hw as [_ Hall]. apply List.Forall_app in Hall as [_ Hall].
      apply Forall_cons_1 in Hall as [Hx _]. subst rest.
      destruct Hrest as [Hn | [more Hm]]; [discriminate|].
      injection Hm as Hm _. subst x. discriminate.
Qed.

Lemma lastOr_cons prev c u : lastOr prev (c :: u) = lastOr (Some c) u.
Proof.
  unfold lastOr. destruct u as [|d u]; [reflexivity|].
  change (last (c :: d :: u)) with (last (d :: u)).
  destruct (last (d :: u)) eqn:E; [reflexivity|].
  exfalso. clear -E. revert d E. induction u as [|x u IH]; intros d E; [discriminate|].
  apply (IH x). exact E.
Qed.

Section ReplaceWord.

Variables w d : list ascii.

Hypothesis w_token : isToken w.

(** Code units that belong to the current match are dropped. *)
Lemma replace_skip a rest prev :
  replaceWordFrom w d prev (List.length a) (a ++ rest)
  = replaceWordFrom w d (lastOr prev a) 0 rest.
Proof.
  revert prev. induction a as [|c a IH]; intros prev; [reflexivity|].
  simpl. rewrite IH. now rewrite lastOr_cons.
Qed.

(** Inside a word there is no word boundary: everything is copied. *)
Lemma replace_inside u rest prev :
  allOf isWordChar u -> isWordOpt prev = true ->
  replaceWordFrom w d prev 0 (u ++ rest)
  = u ++ replaceWordFrom w d (lastOr prev u) 0 rest.
Proof.
  intros Hu. revert prev. induction Hu as [|c u Hc _ IH]; intros prev Hp;
    [reflexivity|].
  cbn [app replaceWordFrom]. unfold matchWordAt at 1, wordBoundary at 1.
  cbn [head isWordOpt]. rewrite Hp, Hc. cbn [xorb andb].
  rewrite IH by exact Hc. now rewrite lastOr_cons.
Qed.

(** A separator is copied. *)
Lemma replace_space more prev :
  replaceWordFrom w d prev 0 (" "%char :: more)
  = " "%char :: replaceWordFrom w d (Some " "%char) 0 more.
Proof.
  cbn [replaceWordFrom]. unfold matchWordAt.
  destruct w_token as [Hne Hall]. destruct w as [|a w']; [congruence|].
  cbn [startsWith]. apply Forall_cons_1 in Hall as [Ha _].
  destruct (Ascii.eqb_spec a " "%char) as [->|_]; [discriminate|].
  now rewrite andb_false_r.
Qed.

Lemma lastOr_token prev t : isToken t -> isWordOpt (lastOr prev t) = true.
Proof.
  intros Ht. pose proof (last_word_char t Ht) as H. unfold lastOr.
  destruct (last t); [exact H | discriminate].
Qed.

(** One token, whatever follows it. *)
Lemma replace_token t rest prev :
  isToken t -> tokenEnd rest -> isWordOpt prev = false ->
  exists prev',
    isWordOpt prev' = true
    /\ replaceWordFrom w d prev 0 (t ++ rest)
       = substToken w d t ++ replaceWordFrom w d prev' 0 rest.
Proof.
  intros Ht Hrest Hprev.
  pose proof (matchWordAt_token w t rest prev w_token Ht Hrest Hprev) as Hm.
  destruct Ht as [Hne Hall]. destruct t as [|c t']; [congruence|].
  exists (lastOr (Some c) t'). split.
  { rewrite <- (lastOr_cons None). now apply lastOr_token. }
  cbn [app replaceWordFrom]. cbn [app] in Hm. rewrite Hm. unfold substToken.
  destruct (sameChars_spec (c :: t') w) as [Heq|_].
  - replace (List.length w - 1) with (List.length t')
      by (rewrite <- Heq; simpl; lia).
    now rewrite replace_skip.
  - apply Forall_cons_1 in Hall as [Hc Hall].
    now rewrite replace_inside.
Qed.

Lemma joinSpace_cons t more :
  more <> [] -> joinSpace (t :: more) = t ++ " "%char :: joinSpace more.
Proof. destruct more; [congruence | reflexivity]. Qed.

Lemma replace_tokens ts prev :
  Forall isToken ts -> isWordOpt prev = false ->
  replaceWordFrom w d prev 0 (joinSpace ts)
  = joinSpace (map (substToken w d) ts).
Proof.
  intros Hts. revert prev. induction Hts as [|t ts Ht Hts IH]; intros prev Hp;
    [reflexivity|].
  destruct ts as [|t2 ts].
  - cbn [joinSpace map].
    destruct (replace_token t [] prev Ht (or_introl eq_refl) Hp)
      as (p' & _ & H).
    rewrite app_nil_r in H. rewrite H. cbn [replaceWordFrom]. apply app_nil_r.
  - change (joinSpace (t :: t2 :: ts))
      with (t ++ " "%char :: joinSpace (t2 :: ts)).
    change (joinSpace (map (substToken w d) (t :: t2 :: ts)))
      with (substToken w d t
            ++ " "%char :: joinSpace (map (substToken w d) (t2 :: ts))).
    assert (Hend : tokenEnd (" "%char :: joinSpace (t2 :: ts)))
      by (right; eauto).
    destruct (replace_token t _ prev Ht Hend Hp) as (p' & _ & H).
    rewrite H, replace_space, IH by reflexivity. reflexivity.
Qed.

End ReplaceWord.

Lemma substToken_token w d t : isToken d -> isToken t -> isToken (substToken w d t).
Proof. intros Hd Ht. unfold substToken. now destruct (sameChars t w). Qed.

(** The whole table, word by word, on a text made of tokens. *)
Lemma replace_table (table : list (string * string)) ts :
  Forall (fun wd => isToken (chars (fst wd)) /\ isToken (chars (snd wd))) table ->
  Forall isToken ts ->
  fold_left (fun normalized wd =>
               replaceWord (chars (fst wd)) (chars (snd wd)) normalized)
            table (joinSpace ts)
  = joinSpace (map (substTokens table) ts).
Proof.
  intros Htab. revert ts. induction Htab as [|wd table [Hw Hd] _ IH]; intros ts Hts.
  - simpl. now rewrite map_id.
  - cbn [fold_left]. unfold replaceWord at 2.
    rewrite (replace_tokens _ _ Hw ts None Hts eq_refl).
    rewrite IH.
    + rewrite map_map. reflexivity.
    + apply Forall_map. eapply List.Forall_impl; [|exact Hts].
      intros t. now apply substToken_token.
Qed.

Lemma numberWords_tokens :
  Forall (fun wd => isToken (chars (fst wd)) /\ isToken (chars (snd wd)))
         numberWords.
Proof.
  repeat constructor; try discriminate.
Qed.

Lemma digit_is_word c : isDigit c = true -> isWordChar c = true.
Proof. char_cases c. Qed.

Lemma digit_lower c : isDigit c = true -> toLowerChar c = c.
Proof. char_cases c. Qed.

Lemma numberWord_cases t :
  isNumberWord t ->
  In t (map (fun wd => chars (fst wd)) numberWords).
Proof.
  unfold isNumberWord. intros H.
  apply in_map_iff in H as (wd & Hwd & Hin).
  apply in_map_iff. exists wd. split; [|exact Hin].
  rewrite Hwd. apply chars_str.
Qed.

Lemma tokenFacts_sound t :
  tokenFacts t = true ->
  isToken t /\ toLowerCase t = t /\ substTokens numberWords t = digitOf t
  /\ digitOf t <> [] /\ allOf isDigit (digitOf t).
Proof.
  unfold tokenFacts, isToken, allOf. rewrite !andb_true_iff, !negb_true_iff.
  intros [[[[[Hne Hw] Hl] Hn] Hd] Hall].
  destruct (sameChars_spec t []); [discriminate|].
  destruct (sameChars_spec (toLowerCase t) t); [|discriminate].
  destruct (sameChars_spec (substTokens numberWords t) (digitOf t)); [|discriminate].
  destruct (sameChars_spec (digitOf t) []); [discriminate|].
  repeat split; try assumption; apply List.Forall_forall;
    intros c Hc; eapply forallb_forall; eassumption.
Qed.

Lemma numberWord_facts t :
  isNumberWord t ->
  isToken t /\ toLowerCase t = t /\ substTokens numberWords t = digitOf t
  /\ digitOf t <> [] /\ allOf isDigit (digitOf t).
Proof.
  intros H%numberWord_cases. apply tokenFacts_sound.
  revert t H. apply forallb_forall. vm_compute. reflexivity.
Qed.

Lemma not_digit_ne x c :
  isDigit x = false -> isDigit c = true -> Ascii.eqb x c = false.
Proof.
  intros Hx Hc. destruct (Ascii.eqb_spec x c) as [->|]; [congruence | reflexivity].
Qed.

Lemma string_eqb_head x s c s' :
  Ascii.eqb x c = false -> String.eqb (String x s) (String c s') = false.
Proof. intros H. cbn [String.eqb]. now rewrite H. Qed.

(** Numerals are none of the words. *)
Lemma digits_not_word c t w d :
  isDigit c = true -> In (w, d) numberWords ->
  sameChars (c :: t) (chars w) = false
  /\ String.eqb w (str (c :: t)) = false.
Proof.
  intros Hc Hin. simpl in Hin.
  repeat (destruct Hin as [[= <- <-] | Hin];
          [ split;
            [ match goal with
              | |- sameChars ?a ?b = false =>
                  destruct (sameChars_spec a b) as [E|]; [|reflexivity];
                  injection E as -> _; discriminate
              end
            | apply string_eqb_head, not_digit_ne; [reflexivity | exact Hc] ] |]).
  destruct Hin.
Qed.

Lemma digits_facts t :
  t <> [] -> allOf isDigit t ->
  isToken t /\ toLowerCase t = t /\ substTokens numberWords t = digitOf t
  /\ digitOf t = t.
Proof.
  intros Hne Hall. destruct t as [|c t]; [congruence|].
  pose proof Hall as Hall'. apply Forall_cons_1 in Hall' as [Hc _].
  assert (Hd : digitOf (c :: t) = c :: t).
  { unfold digitOf.
    destruct (List.find _ numberWords) as [wd|] eqn:E; [|reflexivity].
    apply List.find_some in E as [Hin Heq]. destruct wd as [w d].
    destruct (digits_not_word c t w d Hc Hin) as [_ Hs]. cbn [fst] in Heq. congruence. }
  split; [|split; [|split]].
  - split; [discriminate|]. eapply List.Forall_impl; [|exact Hall].
    apply digit_is_word.
  - unfold toLowerCase. rewrite <- (map_id (c :: t)) at 2.
    apply map_ext_Forall. eapply List.Forall_impl; [|exact Hall].
    apply digit_lower.
  - rewrite Hd. 
    assert (Hall12 : forall table, (forall w d, In (w, d) table -> In (w, d) numberWords) ->
              substTokens table (c :: t) = c :: t).
    { unfold substTokens.
      induction table as [|[w d] table IH]; intros Hsub; [reflexivity|].
      cbn [fold_left fst snd]. unfold substToken at 2.
      destruct (digits_not_word c t w d Hc (Hsub w d (or_introl eq_refl))) as [-> _].
      apply IH. intros w' d' Hin. apply Hsub. now right. }
    apply Hall12. auto.
  - exact Hd.
Qed.

Lemma spoken_facts t :
  spoken t ->
  isToken t /\ toLowerCase t = t /\ substTokens numberWords t = digitOf t
  /\ digitOf t <> [] /\ allOf isDigit (digitOf t).
Proof.
  intros [H | [Hne Hall]]; [now apply numberWord_facts|].
  destruct (digits_facts t Hne Hall) as (Ht & Hl & Hn & Hd).
  rewrite Hd in *. repeat split; try assumption. apply Ht.
Qed.

Lemma toLowerCase_joinSpace ts :
  Forall (fun t => toLowerCase t = t) ts ->
  toLowerCase (joinSpace ts) = joinSpace ts.
Proof.
  induction 1 as [|t ts Ht Hts IH]; [reflexivity|].
  destruct ts as [|t2 ts]; [exact Ht|].
  change (joinSpace (t :: t2 :: ts)) with (t ++ " "%char :: joinSpace (t2 :: ts)).
  unfold toLowerCase in *. rewrite map_app. cbn [map].
  rewrite Ht, IH. reflexivity.
Qed.

Lemma strip_digits l : allOf isDigit l -> stripSeparators l = l.
Proof.
  induction 1 as [|c l Hc _ IH]; [reflexivity|].
  unfold stripSeparators in *. simpl. now rewrite (digit_not_separator c Hc), IH.
Qed.

Lemma strip_joinSpace ts :
  Forall (allOf isDigit) ts -> stripSeparators (joinSpace ts) = concat ts.
Proof.
  induction 1 as [|t ts Ht Hts IH]; [reflexivity|].
  destruct ts as [|t2 ts].
  - simpl. rewrite app_nil_r. now apply strip_digits.
  - change (joinSpace (t :: t2 :: ts)) with (t ++ " "%char :: joinSpace (t2 :: ts)).
    rewrite strip_app, (strip_digits t Ht).
    change (stripSeparators (" "%char :: joinSpace (t2 :: ts)))
      with (stripSeparators (joinSpace (t2 :: ts))).
    now rewrite IH.
Qed.

Lemma matchDigitRun_all n l :
  0 < n -> allOf isDigit l ->
  matchDigitRun n l = if n <=? List.length l then Some l else None.
Proof.
  intros Hn. induction 1 as [|c l Hc Hl IH].
  - simpl. destruct n; [lia | reflexivity].
  - cbn [matchDigitRun].
    assert (Ht : takeWhile isDigit (c :: l) = c :: l).
    { rewrite <- (app_nil_r (c :: l)) at 1.
      rewrite takeWhile_app_all by (constructor; assumption).
      apply app_nil_r. }
    rewrite Ht. destruct (n <=? List.length (c :: l)) eqn:E; [reflexivity|].
    rewrite IH. apply Nat.leb_gt in E. simpl in E.
    destruct (n <=? List.length l) eqn:E2; [|reflexivity].
    apply Nat.leb_le in E2. lia.
Qed.

Lemma concat_all (p : ascii -> bool) ts :
  Forall (allOf p) ts -> allOf p (concat ts).
Proof.
  induction 1 as [|t ts Ht _ IH]; [constructor|].
  simpl. now apply Forall_app_2.
Qed.

(** Property X1.  A number that is dictated: when the text is a sequence of
    tokens separated by single spaces, each of them a word of [numberWords]
    or a non-empty group of numerals, [extractPhoneNumber] reads every word
    as its numeral, puts the digits together, and returns the last ten of
    them if there are ten or more, and nothing otherwise. *)
Theorem spoken_number_recognised (ts : list (list ascii)) :
  Forall spoken ts ->
  let digits := concat (map digitOf ts) in
  extractPhoneNumber (str (joinSpace ts))
  = if 10 <=? List.length digits then Some (str (lastN 10 digits)) else None.
Proof.
  intros Hts digits. unfold extractPhoneNumber.
  rewrite chars_str, extractPhoneNumberL_eq.
  assert (Htok : Forall isToken ts).
  { eapply List.Forall_impl; [|exact Hts]. intros t Ht.
    now destruct (spoken_facts t Ht) as (H & _). }
  assert (Hlow : Forall (fun t => toLowerCase t = t) ts).
  { eapply List.Forall_impl; [|exact Hts]. intros t Ht.
    now destruct (spoken_facts t Ht) as (_ & H & _). }
  assert (Hmap : map (substTokens numberWords) ts = map digitOf ts).
  { apply map_ext_Forall. eapply List.Forall_impl; [|exact Hts].
    intros t Ht. destruct (spoken_facts t Ht) as (_ & _ & H & _). exact H. }
  assert (Hdig : Forall (allOf isDigit) (map digitOf ts)).
  { apply Forall_map. eapply List.Forall_impl; [|exact Hts]. intros t Ht.
    now destruct (spoken_facts t Ht) as (_ & _ & _ & _ & H). }
  assert (Hclean : cleanedDigits (joinSpace ts) = digits).
  { unfold cleanedDigits, normalizeWords.
    rewrite (toLowerCase_joinSpace ts Hlow).
    rewrite (replace_table numberWords ts numberWords_tokens Htok).
    rewrite Hmap. now apply strip_joinSpace. }
  rewrite Hclean, matchDigitRun_all; [|lia|now apply concat_all].
  destruct (10 <=? List.length digits); reflexivity.
Qed.

Lemma spoken_number_recognised_witness :
  let ts := map chars ["oh"; "five"; "five"; "5"; "one"; "two"; "3";
                       "four"; "five"; "six"; "seven"]%string in
  Forall spoken ts
  /\ extractPhoneNumber (str (joinSpace ts)) = Some "5551234567"%string.
Proof.
  intros ts.
  assert (H : Forall spoken ts).
  { unfold ts. cbn [map].
    repeat (apply List.Forall_cons;
            [ first [ left; vm_compute; tauto
                    | right; split; [discriminate | repeat constructor] ] |]).
    apply List.Forall_nil. }
  split; [exact H|].
  rewrite (spoken_number_recognised ts H). reflexivity.
Defined.

(** *** The normalisation, word by word *)

Lemma flat_pieces s : flat (pieces s) = s.
Proof.
  induction s as [|c s IH]; [reflexivity|].
  cbn [pieces fold_right]. fold (pieces s). unfold pushChar.
  destruct (isWordChar c); [|cbn; now rewrite <- IH at 2].
  rewrite <- IH at 2. destruct (pieces s) as [|[w|g] more]; reflexivity.
Qed.

Lemma token_one c : isWordChar c = true -> isToken [c].
Proof. intros H. split; [discriminate | now repeat constructor]. Qed.

Lemma wellSplit_pieces s : wellSplit (pieces s).
Proof.
  induction s as [|c s IH]; [exact I|].
  cbn [pieces fold_right]. fold (pieces s). unfold pushChar.
  destruct (isWordChar c) eqn:Hc; [|now split].
  destruct (pieces s) as [|[w|g] more].
  - split; [now apply token_one | now split].
  - destruct IH as ([Hne Hall] & Hm & Hw).
    split; [|now split]. split; [discriminate | now constructor].
  - split; [now apply token_one | now split].
Qed.

Lemma head_flat ps :
  wellSplit ps -> startsWithWord ps = false -> isWordOpt (head (flat ps)) = false.
Proof.
  destruct ps as [|[w|c] more]; [reflexivity | discriminate |].
  intros [Hc _] _. exact Hc.
Qed.

Lemma matchWordAt_run w t rest prev :
  isToken w -> isToken t -> isWordOpt (head rest) = false ->
  isWordOpt prev = false ->
  matchWordAt w prev (t ++ rest) = sameChars t w.
Proof.
  intros Hw Ht Hrest Hprev. unfold matchWordAt.
  destruct (sameChars_spec t w) as [->|Hne].
  - rewrite startsWith_app, skipn_app_exact.
    unfold wordBoundary. rewrite Hprev, (last_word_char w Hw), Hrest.
    destruct Hw as [Hwne Hwall]. destruct w as [|c w]; [congruence|].
    simpl. inversion Hwall; subst. now rewrite H1.
  - destruct (startsWith w (t ++ rest)) eqn:Es; [|now rewrite andb_false_r].
    apply startsWith_split in Es as [r Hr].
    assert (Hcases : (exists x u, t = w ++ x :: u) \/ (exists x u, w = t ++ x :: u)).
    { clear -Hr Hne. revert w Hr Hne. induction t as [|a t IH]; intros w Hr Hne.
      - destruct w as [|x u]; [congruence|]. right. now exists x, u.
      - destruct w as [|b w].
        + left. now exists a, t.
        + simpl in Hr. injection Hr as <- Hr.
          destruct (IH w Hr) as [(x & u & ->) | (x & u & ->)]; [congruence| |].
          * left. now exists x, u.
          * right. now exists x, u. }
    destruct Hcases as [(x & u & ->) | (x & u & ->)].
    + rewrite <- app_assoc, skipn_app_exact. simpl.
      unfold wordBoundary at 2. rewrite (last_word_char w Hw). simpl.
      destruct Ht as [_ Hall]. apply List.Forall_app in Hall as [_ Hall].
      inversion Hall; subst. rewrite H1. simpl. now rewrite andb_false_r.
    + exfalso. rewrite <- app_assoc in Hr. apply app_inv_head in Hr.
      destruct Hw as [_ Hall]. apply List.Forall_app in Hall as [_ Hall].
      apply Forall_cons_1 in Hall as [Hx _]. subst rest.
      cbn in Hrest. congruence.
Qed.

Section ReplacePieces.

Variables w d : list ascii.

Hypothesis w_token : isToken w.
Hypothesis d_token : isToken d.

(** A code unit that is no word character is copied. *)
Lemma replace_gap c more prev :
  isWordChar c = false ->
  replaceWordFrom w d prev 0 (c :: more)
  = c :: replaceWordFrom w d (Some c) 0 more.
Proof.
  intros Hc. cbn [replaceWordFrom]. unfold matchWordAt.
  destruct w_token as [Hne Hall]. destruct w as [|a w']; [congruence|].
  cbn [startsWith]. apply Forall_cons_1 in Hall as [Ha _].
  destruct (Ascii.eqb_spec a c) as [->|_]; [congruence|].
  now rewrite andb_false_r.
Qed.

(** A whole word: replaced when it is [w], copied otherwise. *)
Lemma replace_run t rest prev :
  isToken t -> isWordOpt (head rest) = false -> isWordOpt prev = false ->
  exists prev',
    replaceWordFrom w d prev 0 (t ++ rest)
    = substToken w d t ++ replaceWordFrom w d prev' 0 rest.
Proof.
  intros Ht Hrest Hprev.
  pose proof (matchWordAt_run w t rest prev w_token Ht Hrest Hprev) as Hm.
  destruct Ht as [Hne Hall]. destruct t as [|c t']; [congruence|].
  exists (lastOr (Some c) t').
  cbn [app replaceWordFrom]. cbn [app] in Hm. rewrite Hm. unfold substToken.
  destruct (sameChars_spec (c :: t') w) as [Heq|_].
  - replace (List.length w - 1) with (List.length t')
      by (rewrite <- Heq; simpl; lia).
    now rewrite replace_skip.
  - apply Forall_cons_1 in Hall as [Hc Hall].
    now rewrite replace_inside.
Qed.

Lemma replace_pieces ps : forall prev,
  wellSplit ps ->
  (startsWithWord ps = true -> isWordOpt prev = false) ->
  replaceWordFrom w d prev 0 (flat ps)
  = flat (map (substPiece (substToken w d)) ps).
Proof.
  induction ps as [|[t|c] more IH]; intros prev Hps Hprev; [reflexivity| |].
  - destruct Hps as (Ht & Hm & Hmore).
    change (flat (Word t :: more)) with (t ++ flat more).
    destruct (replace_run t (flat more) prev Ht (head_flat more Hmore Hm)
                (Hprev eq_refl)) as (prev' & ->).
    rewrite IH by (try exact Hmore; rewrite Hm; discriminate).
    reflexivity.
  - destruct Hps as (Hc & Hmore).
    change (flat (Gap c :: more)) with (c :: flat more).
    rewrite (replace_gap c _ prev Hc), IH by (try exact Hmore; now intros _).
    reflexivity.
Qed.

Lemma wellSplit_subst ps :
  wellSplit ps -> wellSplit (map (substPiece (substToken w d)) ps).
Proof.
  induction ps as [|[t|c] more IH]; [auto| |].
  - intros (Ht & Hm & Hmore). cbn. split; [now apply substToken_token|].
    split; [|now apply IH]. destruct more as [|[?|?] ?]; auto.
  - intros (Hc & Hmore). cbn. split; [exact Hc | now apply IH].
Qed.

End ReplacePieces.

(** The whole table, one word after the other, on any text. *)
Lemma replace_table_pieces (table : list (string * string)) : forall ps,
  Forall (fun wd => isToken (chars (fst wd)) /\ isToken (chars (snd wd))) table ->
  wellSplit ps ->
  fold_left (fun normalized wd =>
               replaceWord (chars (fst wd)) (chars (snd wd)) normalized)
            table (flat ps)
  = flat (map (substPiece (substTokens table)) ps).
Proof.
  induction table as [|wd table IH]; intros ps Htab Hps.
  - cbn. f_equal. rewrite <- (map_id ps) at 1. apply map_ext.
    now intros [?|?].
  - apply Forall_cons_1 in Htab as [[Hw Hd] Htab].
    cbn [fold_left]. unfold replaceWord at 2.
    rewrite (replace_pieces _ _ Hw ps None Hps) by reflexivity.
    rewrite IH by (try exact Htab; now apply wellSplit_subst).
    rewrite map_map. f_equal. apply map_ext. now intros [?|?].
Qed.

Lemma substTokens_fix (table : list (string * string)) u :
  Forall (fun wd => sameChars u (chars (fst wd)) = false) table ->
  substTokens table u = u.
Proof.
  unfold substTokens. induction 1 as [|wd table H _ IH]; [reflexivity|].
  cbn [fold_left]. unfold substToken at 2. now rewrite H.
Qed.

Lemma substTokens_find (table : list (string * string)) t :
  (forall wd wd', In wd table -> In wd' table ->
     sameChars (chars (snd wd)) (chars (fst wd')) = false) ->
  substTokens table t
  = match List.find (fun wd => sameChars t (chars (fst wd))) table with
    | Some wd => chars (snd wd)
    | None => t
    end.
Proof.
  induction table as [|wd table IH]; intros H; [reflexivity|].
  unfold substTokens. cbn [fold_left List.find]. unfold substToken at 2.
  destruct (sameChars t (chars (fst wd))) eqn:E.
  - apply substTokens_fix. apply List.Forall_forall. intros wd' Hin.
    apply H; [now left | now right].
  - apply IH. intros a b Ha Hb. apply H; now right.
Qed.

Lemma str_chars s : str (chars s) = s.
Proof. apply string_of_list_ascii_of_string. Qed.

Lemma eqb_sameChars (k : string) t : String.eqb k (str t) = sameChars t (chars k).
Proof.
  destruct (sameChars_spec t (chars k)) as [->|Hne].
  - rewrite str_chars. apply String.eqb_refl.
  - apply String.eqb_neq. intros ->. apply Hne. now rewrite chars_str.
Qed.

Lemma values_are_no_keys wd wd' :
  In wd numberWords -> In wd' numberWords ->
  sameChars (chars (snd wd)) (chars (fst wd')) = false.
Proof.
  intros H H'.
  assert (E : forallb (fun a => forallb (fun b =>
                negb (sameChars (chars (snd a)) (chars (fst b))))
                numberWords) numberWords = true) by (vm_compute; reflexivity).
  rewrite forallb_forall in E. specialize (E wd H).
  rewrite forallb_forall in E. specialize (E wd' H').
  now apply negb_true_iff in E.
Qed.

Lemma find_same {A} (f g : A -> bool) (l : list A) :
  (forall a, f a = g a) -> List.find f l = List.find g l.
Proof.
  intros H. induction l as [|a l IH]; [reflexivity|].
  cbn [List.find]. now rewrite H, IH.
Qed.

(** Going through the table entry by entry comes to looking the word up. *)
Lemma substTokens_digitOf t : substTokens numberWords t = digitOf t.
Proof.
  rewrite (substTokens_find numberWords t values_are_no_keys). unfold digitOf.
  rewrite (find_same (fun wd : string * string => String.eqb (fst wd) (str t))
                     (fun wd => sameChars t (chars (fst wd))));
    [reflexivity|].
  intros wd. apply eqb_sameChars.
Qed.

Lemma normalizeWords_pieces text :
  normalizeWords text = concat (map spokenDigit (pieces (toLowerCase text))).
Proof.
  unfold normalizeWords. rewrite <- (flat_pieces (toLowerCase text)) at 1.
  rewrite (replace_table_pieces numberWords _ numberWords_tokens
             (wellSplit_pieces _)).
  unfold flat. rewrite map_map. f_equal. apply map_ext.
  intros [w|c]; cbn; [apply substTokens_digitOf | reflexivity].
Qed.

(** The character classes, by code unit. *)
Lemma isSeparator_codes c :
  isSeparator c = true
  <-> In (code c) [9; 10; 11; 12; 13; 32; 160; 45; 40; 41; 46; 44].
Proof.
  unfold isSeparator, isSpace, between. generalize (code c). intros n.
  rewrite !orb_true_iff, !andb_true_iff, !Nat.leb_le, !Nat.eqb_eq.
  cbn [In]. lia.
Qed.

Lemma isWordChar_codes c :
  isWordChar c = true
  <-> 48 <= code c <= 57 \/ 65 <= code c <= 90 \/ code c = 95
      \/ 97 <= code c <= 122.
Proof.
  unfold isWordChar, isLetter, isUpper, isLower, isDigit, between.
  generalize (code c). intros n.
  rewrite !orb_true_iff, !andb_true_iff, !Nat.leb_le, !Nat.eqb_eq. lia.
Qed.

Lemma isDigit_codes c : isDigit c = true <-> 48 <= code c <= 57.
Proof.
  unfold isDigit, between. rewrite andb_true_iff, !Nat.leb_le. lia.
Qed.

Lemma toLowerChar_codes c :
  (65 <= code c <= 90 -> code (toLowerChar c) = code c + 32)
  /\ (code c < 65 \/ 90 < code c < 192 -> toLowerChar c = c).
Proof.
  unfold toLowerChar, isUpper, between. split.
  - intros H.
    replace ((65 <=? code c) && (code c <=? 90)) with true
      by (symmetry; apply andb_true_iff; rewrite !Nat.leb_le; lia).
    cbn [orb]. unfold code at 1. apply nat_ascii_embedding. lia.
  - intros H.
    replace ((65 <=? code c) && (code c <=? 90)) with false
      by (symmetry; apply andb_false_iff; rewrite !Nat.leb_gt; lia).
    replace ((192 <=? code c) && (code c <=? 222)) with false
      by (symmetry; apply andb_false_iff; rewrite !Nat.leb_gt; lia).
    reflexivity.
Qed.

Lemma digitOf_other w : ~ isNumberWord w -> digitOf w = w.
Proof.
  intros H. unfold digitOf.
  destruct (List.find _ numberWords) as [wd|] eqn:E; [|reflexivity].
  exfalso. apply H. apply List.find_some in E as [Hin He].
  apply String.eqb_eq in He. unfold isNumberWord. rewrite <- He.
  now apply in_map.
Qed.

Lemma isSeparator_existsb c :
  isSeparator c
  = existsb (Nat.eqb (code c)) [9; 10; 11; 12; 13; 32; 160; 45; 40; 41; 46; 44].
Proof.
  apply eq_true_iff_eq. rewrite isSeparator_codes, existsb_exists. split.
  - intros H. exists (code c). split; [exact H | apply Nat.eqb_refl].
  - intros (n & Hin & ->%Nat.eqb_eq). exact Hin.
Qed.

(** Claim C8.  For every text, [extractPhoneNumber] works on
    [cleanedDigits]: the text in lower case, with its spoken digit words
    turned into numerals and its separators removed.  It returns the last
    ten digits of the first block of ten or more digits of that string, and
    nothing when the string has no such block; a result always consists of
    ten digits.  Each word of [numberWords] alone normalises to its numeral,
    and the two sentences of the specification give the two numbers stated
    there.

    What "normalised" and "removed" mean is said without the regular
    expressions: the text in lower case falls into words (the maximal runs
    of letters, digits and underscores) and the code units between them;
    the words that are keys of [numberWords] are replaced by their numerals
    and nothing else changes, so a key inside a longer word stays; then the
    code units TAB, LF, VT, FF, CR, space, NBSP, [-], [(], [)], [.] and [,]
    are deleted and no other.  Lower case moves the capitals [A]-[Z] up by
    32 and leaves the rest of ASCII alone. *)
Theorem extractPhoneNumber_spec (text : string) :
  (forall r, extractPhoneNumber text = Some r <->
     exists run, firstLongRun 10 (cleanedDigits (chars text)) run
                 /\ r = str (lastN 10 run))
  /\ (extractPhoneNumber text = None <->
        ~ hasLongRun 10 (cleanedDigits (chars text)))
  /\ (forall r, extractPhoneNumber text = Some r ->
        List.length (chars r) = 10 /\ allOf isDigit (chars r))
  /\ cleanedDigits (chars text)
       = stripSeparators (normalizeWords (chars text))
  /\ Forall (fun wd => normalizeWords (chars (fst wd)) = chars (snd wd))
            numberWords
  /\ extractPhoneNumber
       "my number is nine six eight, six four five, six zero nine zero"
     = Some "9686456090"%string
  /\ extractPhoneNumber "call 555-123-4567 please" = Some "5551234567"%string
  /\ (let ps := pieces (toLowerCase (chars text)) in
      flat ps = toLowerCase (chars text)
      /\ wellSplit ps
      /\ normalizeWords (chars text) = concat (map spokenDigit ps)
      /\ cleanedDigits (chars text)
         = List.filter
             (fun c => negb (existsb (Nat.eqb (code c))
                               [9; 10; 11; 12; 13; 32; 160; 45; 40; 41; 46; 44]))
             (concat (map spokenDigit ps)))
  /\ Forall (fun wd => digitOf (chars (fst wd)) = chars (snd wd)) numberWords
  /\ (forall w, ~ isNumberWord w -> digitOf w = w)
  /\ (forall c, isSeparator c = true
                <-> In (code c) [9; 10; 11; 12; 13; 32; 160; 45; 40; 41; 46; 44])
  /\ (forall c, isWordChar c = true
                <-> 48 <= code c <= 57 \/ 65 <= code c <= 90 \/ code c = 95
                    \/ 97 <= code c <= 122)
  /\ (forall c, isDigit c = true <-> 48 <= code c <= 57)
  /\ (forall c, (65 <= code c <= 90 -> code (toLowerChar c) = code c + 32)
                /\ (code c < 65 \/ 90 < code c < 192 -> toLowerChar c = c))
  /\ extractPhoneNumber "phone 555123456" = None
  /\ extractPhoneNumber "someone 5551234567" = Some "5551234567"%string
  /\ extractPhoneNumber "NINE Six Eight, SIX four five, six ZERO nine zero"
     = Some "9686456090"%string
  /\ extractPhoneNumber "oh one two three seven o one two three seven four"
     = Some "1237012374"%string
  /\ extractPhoneNumber "12345 and 67890" = None
  /\ extractPhoneNumber "555_123_4567" = None
  /\ extractPhoneNumber "+1 (555) 123-4567" = Some "5551234567"%string.
Proof.
  assert (Hexamples :
    extractPhoneNumber
      "my number is nine six eight, six four five, six zero nine zero"
    = Some "9686456090"%string
    /\ extractPhoneNumber "call 555-123-4567 please" = Some "5551234567"%string
    /\ extractPhoneNumber "phone 555123456" = None
    /\ extractPhoneNumber "someone 5551234567" = Some "5551234567"%string
    /\ extractPhoneNumber "NINE Six Eight, SIX four five, six ZERO nine zero"
       = Some "9686456090"%string
    /\ extractPhoneNumber "oh one two three seven o one two three seven four"
       = Some "1237012374"%string
    /\ extractPhoneNumber "12345 and 67890" = None
    /\ extractPhoneNumber "555_123_4567" = None
    /\ extractPhoneNumber "+1 (555) 123-4567" = Some "5551234567"%string)
    by (vm_compute; repeat split; reflexivity).
  destruct Hexamples as (Hx1 & Hx2 & Hmore).
  unfold extractPhoneNumber at 1 2 3. rewrite extractPhoneNumberL_eq.
  assert (Hsome : forall r,
    option_map str (option_map (lastN 10)
      (matchDigitRun 10 (cleanedDigits (chars text)))) = Some r <->
    exists run, firstLongRun 10 (cleanedDigits (chars text)) run
                /\ r = str (lastN 10 run)).
  { intros r. split.
    - destruct (matchDigitRun 10 _) as [run|] eqn:E; [|discriminate].
      intros [= <-]. exists run. split; [|reflexivity].
      apply matchDigitRun_sound; [lia | exact E].
    - intros (run & Hrun & ->).
      rewrite (matchDigitRun_complete 10 _ run); [reflexivity | lia | exact Hrun]. }
  split; [exact Hsome|]. split; [|split; [|split; [|split; [|split; [|split]]]]].
  - rewrite <- (matchDigitRun_none 10) by lia.
    destruct (matchDigitRun 10 _); simpl; split; congruence.
  - intros r Hr. apply Hsome in Hr as (run & (pre & post & _ & Hd & Hn & _) & ->).
    rewrite chars_str. split; [now apply lastN_length | now apply lastN_all].
  - reflexivity.
  - repeat constructor.
  - exact Hx1.
  - exact Hx2.
  - split.
    { cbn zeta. split; [apply flat_pieces|]. split; [apply wellSplit_pieces|].
      split; [apply normalizeWords_pieces|].
      unfold cleanedDigits, stripSeparators. rewrite normalizeWords_pieces.
      apply filter_ext. intros c. now rewrite isSeparator_existsb. }
    split; [repeat constructor|].
    split; [exact digitOf_other|].
    split; [exact isSeparator_codes|].
    split; [exact isWordChar_codes|].
    split; [exact isDigit_codes|].
    split; [exact toLowerChar_codes|].
    exact Hmore.
Qed.

Lemma distinct_filter f (l : list Timer) :
  List.NoDup (map timerId l) -> List.NoDup (map timerId (List.filter f l)).
Proof.
  induction l as [|x l IH]; simpl; [intros; constructor|]. intros H.
  apply List.NoDup_cons_iff in H as [Hx Hl].
  destruct (f x); simpl; [|auto]. apply List.NoDup_cons_iff. split; [|auto].
  intros Hin. apply Hx. apply in_map_iff in Hin as (y & Hy & Hin).
  apply in_map_iff. exists y. split; [exact Hy|].
  now apply List.filter_In in Hin.
Qed.

Lemma distinct_snoc n k d (l : list Timer) :
  Forall (fun x => (timerId x < n)%positive) l ->
  List.NoDup (map timerId l) ->
  List.NoDup (map timerId (l ++ [Build_Timer n k d])).
Proof.
  intros Hf Hd. rewrite map_app. simpl.
  apply List.NoDup_app; [exact Hd | repeat constructor; simpl; tauto |].
  intros t Hin [<- | []]. apply in_map_iff in Hin as (y & Hy & Hin).
  rewrite List.Forall_forall in Hf. specialize (Hf y Hin). lia.
Qed.

Ltac distinct_tac :=
  repeat first
    [ assumption
    | apply distinct_filter
    | apply distinct_snoc
    | apply Forall_snoc
    | apply Forall_filter_keep
    | apply fresh_succ
    | progress cbn
    | lia ].

Lemma step_timersDistinct e s :
  timersFresh s -> timersDistinct s -> timersDistinct (step e s).
Proof.
  unfold timersFresh, timersDistinct. intros Hf Hd.
  destruct e; handler_cases; distinct_tac.
Qed.

Lemma tracked_single (o : option positive) (l : list Timer) :
  Forall (fun x => timerKind x = AutoRestart -> o = Some (timerId x)) l ->
  List.NoDup (map timerId l) ->
  List.length (List.filter isRestart l) <= 1.
Proof.
  induction l as [|x l IH]; simpl; [lia|]. intros Ht Hd.
  apply Forall_cons_1 in Ht as [Hx Hl].
  apply List.NoDup_cons_iff in Hd as [Hnin Hd].
  specialize (IH Hl Hd). unfold isRestart at 1.
  destruct (timerKind x) eqn:Ek; [|exact IH]. simpl.
  destruct (List.filter isRestart l) as [|y l'] eqn:Ef; [simpl; lia|].
  exfalso. apply Hnin.
  assert (Hin : In y (List.filter isRestart l)) by (rewrite Ef; now left).
  apply List.filter_In in Hin as [Hin Hy]. unfold isRestart in Hy.
  rewrite List.Forall_forall in Hl. specialize (Hl y Hin).
  destruct (timerKind y); [|discriminate].
  apply in_map_iff. exists y. split; [|exact Hin].
  specialize (Hx eq_refl). specialize (Hl eq_refl). congruence.
Qed.

Lemma run_restart_invariants es s :
  timersFresh s -> timersDistinct s -> restartTracked s ->
  timersFresh (run es s) /\ timersDistinct (run es s)
  /\ restartTracked (run es s).
Proof.
  revert s. induction es as [|e es IH]; intros s Hf Hd Ht; [auto|].
  apply IH; [now apply step_timersFresh | now apply step_timersDistinct
            | now apply step_restartTracked].
Qed.

(** Property X2.  Restarts do not pile up.  [scheduleAutoRestart] clears
    the restart it scheduled before, so from a state whose timers are in
    order, whatever events follow, at most one restart timer is pending, and
    it is the one [autoRestartTimeoutRef] holds. *)
Theorem single_pending_restart (s : State) (es : list Event) :
  timersFresh s -> timersDistinct s -> restartTracked s ->
  let s' := run es s in
  List.length (pendingRestarts s') <= 1
  /\ forall x, In x (pendingRestarts s') ->
       autoRestartTimeoutRef (refs s') = Some (timerId x).
Proof.
  intros Hf Hd Ht s'.
  destruct (run_restart_invariants es s Hf Hd Ht) as (_ & Hd' & Ht').
  split.
  - now apply tracked_single with (autoRestartTimeoutRef (refs s')).
  - intros x Hx. apply List.filter_In in Hx as [Hin Hk].
    unfold restartTracked in Ht'. rewrite List.Forall_forall in Ht'.
    apply Ht'; [exact Hin|]. unfold isRestart in Hk.
    now destruct (timerKind x).
Qed.

Lemma single_pending_restart_witness :
  List.length (pendingRestarts
                 (run [WorkletEnded; StreamLineRead 0 (LineEvent (EvDone false));
                       WorkletEnded] turnOpen)) <= 1.
Proof.
  apply (single_pending_restart turnOpen
           [WorkletEnded; StreamLineRead 0 (LineEvent (EvDone false));
            WorkletEnded]).
  - vm_compute. repeat constructor.
  - vm_compute. repeat constructor; simpl; intuition discriminate.
  - vm_compute. repeat constructor; discriminate.
Defined.

(** Property X3.  As long as no [getUserMedia] resolves while a recording
    is in progress, at most one recorder is recording after any sequence of
    events; none is when the recording flag is down, and a recorder that
    records is the one [mediaRecorderRef] holds. *)
Theorem one_recorder_at_a_time (s : State) (es : list Event) :
  sessionTracked s -> startsApart es s ->
  let s' := run es s in
  openSessions s' <= 1
  /\ (isRecordingRef (refs s') = false -> openSessions s' = 0)
  /\ forall r, recorderRecording r s' = true ->
       mediaRecorderRef (refs s') = Some r.
Proof.
  intros Hs Hes s'.
  assert (Ht : sessionTracked s') by now apply run_sessionTracked.
  split; [now apply sessionTracked_one|]. split.
  - intros Hrec. apply no_recording_no_session. intros r Hr.
    destruct (Ht r Hr) as [_ Hflag]. congruence.
  - intros r Hr. unfold recorderRecording in Hr.
    destruct (recorders (env s') !! r) as [[| |]|] eqn:E; try discriminate.
    now destruct (Ht r E).
Qed.

Lemma one_recorder_at_a_time_witness :
  openSessions (run [ClickMic quiet; MediaResolved quiet; DataAvailable 400;
                     ClickMic quiet; RecorderStop 0; ClickMic quiet]
                    activeCall) <= 1.
Proof.
  apply (one_recorder_at_a_time activeCall
           [ClickMic quiet; MediaResolved quiet; DataAvailable 400;
            ClickMic quiet; RecorderStop 0; ClickMic quiet]).
  - intros r Hr. destruct r; discriminate.
  - vm_compute. repeat split; intros; try discriminate; reflexivity.
Defined.

Lemma noNewRecording_refl s : noNewRecording s s.
Proof. split; auto. Qed.

Lemma noNewRecording_trans s1 s2 s3 :
  noNewRecording s1 s2 -> noNewRecording s2 s3 -> noNewRecording s1 s3.
Proof.
  intros [Hl1 H1] [Hl2 H2]. split; [congruence | auto].
Qed.

Ltac no_new_tac :=
  let r := fresh "r" in
  let Hr := fresh "Hr" in
  intros r Hr; try exact Hr;
  repeat (apply list_lookup_insert_Some in Hr as [(_ & ? & _) | (_ & Hr)];
          [discriminate|]);
  exact Hr.

Lemma restartGuard_paused s :
  isMicPausedRef (refs s) = true -> restartGuard s = false.
Proof.
  unfold restartGuard. intros ->.
  now destruct (isCallActiveRef (refs s)), (isRecordingRef (refs s)).
Qed.

Lemma step_micPaused e s :
  micPaused s -> isClickMic e = false ->
  micPaused (step e s) /\ noNewRecording s (step e s).
Proof.
  unfold micPaused, noNewRecording. intros [Hp Hg] He.
  destruct e; try discriminate He; clear He;
    handler_cases; cbn in *;
    try match goal with
        | Hq : restartGuard _ = true |- _ =>
            rewrite restartGuard_paused in Hq by exact Hp; discriminate
        end;
    rewrite ?Hg in *; simplify_eq;
    rewrite ?length_insert;
    (split; [split; [assumption || reflexivity | assumption || reflexivity]|]);
    (split; [reflexivity|]); no_new_tac.
Qed.

Lemma run_micPaused es s :
  micPaused s -> Forall (fun e => isClickMic e = false) es ->
  micPaused (run es s) /\ noNewRecording s (run es s).
Proof.
  revert s. induction es as [|e es IH]; intros s Hp Hes.
  - split; [exact Hp | apply noNewRecording_refl].
  - apply Forall_cons_1 in Hes as [He Hes].
    destruct (step_micPaused e s Hp He) as [Hp' Hn].
    destruct (IH (step e s) Hp' Hes) as [Hp'' Hn'].
    split; [exact Hp''|]. now apply noNewRecording_trans with (step e s).
Qed.

(** Property X4.  Once the user has paused the microphone and no start is
    waiting for its stream, nothing but a click on the microphone button
    starts a recording: through any other events the pause flag stays up,
    no recorder is created, and a recorder that records was recording
    before. *)
Theorem paused_mic_stays_off (s : State) (es : list Event) :
  isMicPausedRef (refs s) = true ->
  pendingGetUserMedia (env s) = 0 ->
  Forall (fun e => isClickMic e = false) es ->
  let s' := run es s in
  isMicPausedRef (refs s') = true
  /\ pendingGetUserMedia (env s') = 0
  /\ List.length (recorders (env s')) = List.length (recorders (env s))
  /\ forall r, recorders (env s') !! r = Some Recording ->
               recorders (env s) !! r = Some Recording.
Proof.
  intros Hp Hg Hes s'.
  destruct (run_micPaused es s (conj Hp Hg) Hes) as [[Hp' Hg'] [Hl Hr]].
  auto.
Qed.

Lemma paused_mic_stays_off_witness :
  let s' := run [TimerFires 1 quiet; WorkletEnded; TimerFires 2 quiet;
                 MediaResolved quiet; Render] pausedCall in
  List.length (recorders (env s')) = List.length (recorders (env pausedCall)).
Proof.
  intros s'.
  destruct (paused_mic_stays_off pausedCall
              [TimerFires 1 quiet; WorkletEnded; TimerFires 2 quiet;
               MediaResolved quiet; Render])
    as (_ & _ & H & _).
  - reflexivity.
  - reflexivity.
  - repeat constructor.
  - exact H.
Defined.

Lemma step_avatarMode e s :
  avatarMode s -> avatarMode (step e s) /\ audioPosted (step e s) = audioPosted s.
Proof.
  unfold avatarMode, audioPosted. intros (Hr & Hs & Hd).
  destruct e; handler_cases; cbn in *; simplify_eq;
    rewrite ?List.filter_app; cbn; rewrite ?app_nil_r;
    try (split; [repeat split; assumption | reflexivity]).
  rewrite Hr in *. discriminate.
Qed.

Lemma run_avatarMode es s :
  avatarMode s -> avatarMode (run es s) /\ audioPosted (run es s) = audioPosted s.
Proof.
  revert s. induction es as [|e es IH]; intros s H; [auto|].
  destruct (step_avatarMode e s H) as [H' Ha].
  destruct (IH (step e s) H') as [H'' Ha'].
  split; [exact H''|].
  change (run (e :: es) s) with (run es (step e s)). now rewrite Ha'.
Qed.

(** Property X5.  With the avatar ([useBey], which no handler changes),
    no event hands samples to the playback worklet: the [audio] events of a
    reply are dropped, and the audio messages of the worklet are the ones
    it had. *)
Theorem avatar_never_plays_locally (s : State) (es : list Event) :
  useBeyRef (refs s) = true -> useBey (st s) = true ->
  useBey (rendered s) = true ->
  let s' := run es s in
  useBeyRef (refs s') = true
  /\ audioPosted s' = audioPosted s
  /\ forall d, In (MsgAudio d) (workletInbox (env s')) ->
                In (MsgAudio d) (workletInbox (env s)).
Proof.
  intros Hr Hs Hd s'. subst s'.
  destruct (run_avatarMode es s (conj Hr (conj Hs Hd))) as [(Hr' & _) Ha].
  split; [exact Hr'|]. split; [exact Ha|].
  intros d Hin.
  assert (Hf : In (MsgAudio d) (audioPosted (run es s)))
    by (apply List.filter_In; now split).
  rewrite Ha in Hf. now apply List.filter_In in Hf.
Qed.

Lemma avatar_never_plays_locally_witness :
  audioPosted (run [StreamLineRead 0 (LineEvent (EvAudio "UklGRg=="));
                    StreamLineRead 0 (LineEvent (EvDone false))] turnOpen)
  = audioPosted turnOpen.
Proof.
  assert (Hr : useBeyRef (refs turnOpen) = true) by (vm_compute; reflexivity).
  assert (Hs : useBey (st turnOpen) = true) by (vm_compute; reflexivity).
  assert (Hd : useBey (rendered turnOpen) = true) by (vm_compute; reflexivity).
  destruct (avatar_never_plays_locally turnOpen
              [StreamLineRead 0 (LineEvent (EvAudio "UklGRg=="));
               StreamLineRead 0 (LineEvent (EvDone false))] Hr Hs Hd)
    as (_ & H & _).
  exact H.
Defined.

Lemma step_mirrored e s : mirrored s -> mirrored (step e s).
Proof.
  unfold mirrored. intros (Hp & Hs & Hb & Ha).
  destruct e; handler_cases; cbn in *;
    repeat match goal with
           | Hq : Bool.eqb _ _ = true |- _ => apply eqb_prop in Hq
           end;
    repeat split; intros; try discriminate; try congruence; auto;
    match goal with
    | Hq : isCallActiveRef (refs _) = true |- _ => specialize (Ha Hq); congruence
    end.
Qed.

Lemma run_mirrored es s : mirrored s -> mirrored (run es s).
Proof.
  revert s. induction es as [|e es IH]; intros s H; [exact H|].
  apply IH, step_mirrored, H.
Qed.

(** Property X6.  Only the effects write [isProcessingRef],
    [isSpeakingRef] and [useBeyRef], so after any sequence of events they
    hold what the last committed render saw, not what a handler has set
    since.  A restart that passes its guard therefore knows of a render
    with an active call in which the agent neither processes nor speaks. *)
Theorem guard_reads_committed_render (s : State) (es : list Event) :
  mirrored s ->
  let s' := run es s in
  isProcessingRef (refs s') = isProcessing (rendered s')
  /\ isSpeakingRef (refs s') = isSpeaking (rendered s')
  /\ useBeyRef (refs s') = useBey (rendered s')
  /\ (restartGuard s' = true ->
        isCallActive (rendered s') = true
        /\ isProcessing (rendered s') = false
        /\ isSpeaking (rendered s') = false).
Proof.
  intros H s'. destruct (run_mirrored es s H) as (Hp & Hs & Hb & Ha).
  fold s' in Hp, Hs, Hb, Ha.
  split; [exact Hp|]. split; [exact Hs|]. split; [exact Hb|].
  intros Hg. apply restartGuard_true in Hg as (Hc & _ & _ & Hpr & Hsp).
  split; [auto|]. split; congruence.
Qed.

Lemma guard_reads_committed_render_witness :
  let s' := run [ClickMic quiet; MediaResolved quiet; DataAvailable 5000;
                 TimerFires 1 quiet; RecorderStop 0] activeCall in
  isProcessingRef (refs s') = isProcessing (rendered s').
Proof.
  intros s'.
  destruct (guard_reads_committed_render activeCall
              [ClickMic quiet; MediaResolved quiet; DataAvailable 5000;
               TimerFires 1 quiet; RecorderStop 0]) as (H & _).
  - repeat split.
  - exact H.
Defined.

Lemma append_assoc (a b c : string) :
  ((a ++ b) ++ c = a ++ (b ++ c))%string.
Proof. induction a as [|x a IH]; simpl; [reflexivity | now rewrite IH]. Qed.

Lemma append_nil_r (a : string) : (a ++ "" = a)%string.
Proof. induction a as [|x a IH]; simpl; [reflexivity | now rewrite IH]. Qed.

Lemma transcript_step k c t d s :
  reading k c t s ->
  let s' := step (StreamLineRead k (LineEvent (EvTranscript d))) s in
  reading k c (t ++ d)%string s'
  /\ messages (st s') = messages (st s)
  /\ currentTranscript (st s') = (t ++ d)%string.
Proof.
  unfold reading. intros H. cbn. unfold onStreamLine. rewrite H. cbn.
  split; [|split; reflexivity].
  apply list_lookup_insert_eq. now apply lookup_lt_Some in H.
Qed.

Lemma concat_cons (d : string) (ds : list string) :
  String.concat "" (d :: ds) = (d ++ String.concat "" ds)%string.
Proof. destruct ds; [simpl; now rewrite append_nil_r | reflexivity]. Qed.

Lemma transcript_run k c ds : forall t s,
  reading k c t s ->
  let s' := run (linesOf k (transcriptLines ds)) s in
  reading k c (t ++ String.concat "" ds)%string s'
  /\ messages (st s') = messages (st s)
  /\ (ds <> [] -> currentTranscript (st s') = (t ++ String.concat "" ds)%string).
Proof.
  induction ds as [|d ds IH]; intros t s H.
  - cbn. rewrite append_nil_r. split; [exact H|]. split; [reflexivity|].
    congruence.
  - destruct (transcript_step k c t d s H) as (H1 & Hm & Hc).
    destruct (IH _ _ H1) as (H2 & Hm' & Hc').
    change (run (linesOf k (transcriptLines (d :: ds))) s)
      with (run (linesOf k (transcriptLines ds))
                (step (StreamLineRead k (LineEvent (EvTranscript d))) s)).
    rewrite concat_cons, <- append_assoc.
    split; [exact H2|]. split; [congruence|]. intros _.
    destruct ds as [|d' ds]; [|apply Hc'; discriminate].
    cbn [transcriptLines linesOf map run fold_left String.concat].
    now rewrite append_nil_r.
Qed.

(** Property X7.  The [transcript] events of a reply add up: after the
    deltas [ds], the turn has heard their concatenation (after what it had
    heard before), the caption shows it, and no message was added; [done]
    then adds one assistant message with that text, none if the text is
    empty, and clears the caption. *)
Theorem transcript_deltas_accumulate (k : nat) (c : SendEnv) (t : string)
    (ds : list string) (s : State) :
  reading k c t s ->
  let heard := (t ++ String.concat "" ds)%string in
  let s1 := run (linesOf k (transcriptLines ds)) s in
  let s2 := step (StreamLineRead k (LineEvent (EvDone false))) s1 in
  reading k c heard s1
  /\ messages (st s1) = messages (st s)
  /\ (ds <> [] -> currentTranscript (st s1) = heard)
  /\ messages (st s2)
     = messages (st s)
       ++ (if nonEmptyString heard then [Build_Message RoleAssistant heard]
           else [])
  /\ currentTranscript (st s2) = ""%string.
Proof.
  intros H heard s1 s2.
  destruct (transcript_run k c ds t s H) as (H1 & Hm & Hc).
  fold s1 heard in H1, Hm, Hc.
  split; [exact H1|]. split; [exact Hm|]. split; [exact Hc|].
  subst s2. cbn. unfold onStreamLine. unfold reading in H1. rewrite H1. cbn.
  rewrite <- Hm. clear. handler_cases; rewrite ?app_nil_r; split; reflexivity.
Qed.

Lemma transcript_deltas_accumulate_witness :
  let s1 := run (linesOf 0 (transcriptLines
                   ["Your appointment "; "is booked."]%string)) turnOpen in
  messages (st (step (StreamLineRead 0 (LineEvent (EvDone false))) s1))
  = messages (st turnOpen)
    ++ [Build_Message RoleAssistant "Your appointment is booked."].
Proof.
  assert (H : reading 0 (sendVoiceMessageOf callState) "" turnOpen)
    by (vm_compute; reflexivity).
  destruct (transcript_deltas_accumulate 0 _ _
              ["Your appointment "; "is booked."]%string turnOpen H)
    as (_ & _ & _ & Hm & _).
  exact Hm.
Defined.

Lemma body_line k c t l s :
  reading k c t s -> hangsUp l = false ->
  let s' := step (StreamLineRead k l) s in
  (exists t', reading k c t' s')
  /\ endCalls (env s') = endCalls (env s)
  /\ (forall m, In m (messages (st s)) -> In m (messages (st s')))
  /\ (forall u, l = LineEvent (EvUserTranscript u) ->
        In (Build_Message RoleUser u) (messages (st s'))).
Proof.
  unfold reading. intros H Hl. cbn. unfold onStreamLine. rewrite H. cbn.
  assert (Hk : k < List.length (turns (env s))) by now apply lookup_lt_Some in H.
  destruct l as [| |[u|id name ps|id res|d|d|[]|err|]]; try discriminate Hl;
    cbn; clear Hl.
  all: try (split; [eexists; exact H|]; split; [reflexivity|];
            split; [auto | intros; discriminate]).
  - split; [eexists; exact H|]. split; [reflexivity|]. split.
    + intros m Hm. apply in_or_app. now left.
    + intros u' [= <-]. apply in_or_app. right. now left.
  - split; [eexists; apply list_lookup_insert_eq; exact Hk|].
    split; [reflexivity|]. split; [auto | intros; discriminate].
  - handler_cases; (split; [eexists; exact H|]); (split; [reflexivity|]);
      (split; [auto | intros; discriminate]).
  - handler_cases; (split; [eexists; exact H|]); (split; [reflexivity|]);
      (split; [|intros; discriminate]); intros m Hm; try assumption;
      apply in_or_app; now left.
Qed.

Lemma body_run k c body : forall t s,
  reading k c t s -> Forall (fun l => hangsUp l = false) body ->
  let s' := run (linesOf k body) s in
  (exists t', reading k c t' s')
  /\ endCalls (env s') = endCalls (env s)
  /\ (forall m, In m (messages (st s)) -> In m (messages (st s')))
  /\ (forall u, In (LineEvent (EvUserTranscript u)) body ->
        In (Build_Message RoleUser u) (messages (st s'))).
Proof.
  induction body as [|l body IH]; intros t s H Hb.
  - cbn. split; [eexists; exact H|]. split; [reflexivity|].
    split; [auto | intros u []].
  - apply Forall_cons_1 in Hb as [Hl Hb].
    destruct (body_line k c t l s H Hl) as ([t1 H1] & He & Hm & Hu).
    destruct (IH t1 _ H1 Hb) as (H2 & He' & Hm' & Hu').
    change (run (linesOf k (l :: body)) s)
      with (run (linesOf k body) (step (StreamLineRead k l) s)).
    split; [exact H2|]. split; [congruence|]. split; [auto|].
    intros u [-> | Hin]; [apply Hm', (Hu u eq_refl) | now apply Hu'].
Qed.

Lemma hangup_line k c t s :
  reading k c t s -> truthy (ecSessionId (svEndCall c)) = true ->
  let s' := step (StreamLineRead k (LineEvent (EvDone true))) s in
  endCalls (env s')
  = endCalls (env s) ++ [Build_EndCallRequest (svEndCall c) (Some k) false]
  /\ (forall m, In m (messages (st s)) -> In m (messages (st s'))).
Proof.
  unfold reading. intros H Hs. cbn. unfold onStreamLine. rewrite H. cbn.
  rewrite Hs. unfold endCall. rewrite (endCallSync_some _ _ Hs).
  split; [clear; handler_cases; reflexivity|].
  clear. handler_cases; intros m Hm; try assumption; apply in_or_app; now left.
Qed.

(** Property X8.  When a reply ends with [done] and [endCall], the
    request that ends the session carries the transcript of the messages
    that the closure of the turn captured when it was created: nothing the
    body of the reply added is in it, although the user transcripts of the
    body are in the messages by then. *)
Theorem hangup_transcript_is_stale (k : nat) (c : SendEnv) (t : string)
    (body : list StreamLine) (s : State) :
  reading k c t s ->
  truthy (ecSessionId (svEndCall c)) = true ->
  Forall (fun l => hangsUp l = false) body ->
  let s' := run (linesOf k (body ++ [LineEvent (EvDone true)])) s in
  (exists q,
     endCalls (env s') = endCalls (env s) ++ [q]
     /\ reqTurn q = Some k
     /\ requestTranscript q = transcriptOf (ecMessages (svEndCall c)))
  /\ forall u, In (LineEvent (EvUserTranscript u)) body ->
       In (Build_Message RoleUser u) (messages (st s')).
Proof.
  intros H Hs Hb s'.
  destruct (body_run k c body t s H Hb) as ([t1 H1] & He & _ & Hu).
  destruct (hangup_line k c t1 _ H1 Hs) as (Hq & Hm).
  assert (Es : s' = step (StreamLineRead k (LineEvent (EvDone true)))
                         (run (linesOf k body) s)).
  { subst s'. unfold linesOf, run. now rewrite map_app, fold_left_app. }
  rewrite Es. split.
  - eexists. split; [rewrite Hq, He; reflexivity|]. split; reflexivity.
  - intros u Hin. apply Hm, Hu, Hin.
Qed.

Lemma hangup_transcript_is_stale_witness :
  let body := [LineEvent (EvUserTranscript "cancel my appointment");
               LineEvent (EvTranscript "Done. Goodbye!")] in
  let s' := run (linesOf 0 (body ++ [LineEvent (EvDone true)])) turnOpen in
  In (Build_Message RoleUser "cancel my appointment") (messages (st s'))
  /\ exists q,
       endCalls (env s') = endCalls (env turnOpen) ++ [q]
       /\ reqTurn q = Some 0
       /\ requestTranscript q = ""%string.
Proof.
  intros body s'.
  assert (H : reading 0 (sendVoiceMessageOf callState) "" turnOpen)
    by (vm_compute; reflexivity).
  assert (Hs : truthy (ecSessionId (svEndCall (sendVoiceMessageOf callState)))
               = true) by reflexivity.
  assert (Hb : Forall (fun l => hangsUp l = false) body)
    by (repeat constructor).
  destruct (hangup_transcript_is_stale 0 _ _ body turnOpen H Hs Hb)
    as [Hq Hu].
  split; [apply Hu; now left | exact Hq].
Defined.

Lemma noise_line k l s : isNoise l = true -> onStreamLine k l s = s.
Proof.
  intros H. unfold onStreamLine.
  destruct (turns (env s) !! k) as [x|]; [|reflexivity].
  destruct (turnPhase x); [|reflexivity..].
  destruct l as [| |[]]; try discriminate H; reflexivity.
Qed.

(** Property X9.  Lines without the ["data: "] prefix, lines that are not
    JSON and events of an unknown type leave no trace: reading a body gives
    the same state as reading it without them. *)
Theorem noise_lines_are_skipped (k : nat) (lines : list StreamLine)
    (s : State) :
  consumeStream k lines s
  = consumeStream k (List.filter (fun l => negb (isNoise l)) lines) s.
Proof.
  unfold consumeStream. f_equal. revert s.
  induction lines as [|l lines IH]; intros s; [reflexivity|].
  cbn [fold_left List.filter]. destruct (isNoise l) eqn:E; cbn [negb].
  - rewrite (noise_line k l s E). apply IH.
  - cbn [fold_left]. apply IH.
Qed.

(** ** When the detection loop stops the recorder *)

(** Property X10.  Once the detection loop has heard the caller, a quiet
    frame changes nothing until more than [SILENCE_DURATION] has passed
    since the last sound; the first quiet frame after that stops the
    recorder the pipeline holds, lowers the recording flag and ends the
    loop, whose later frames do nothing. *)
Theorem vad_stops_after_silence (v r : nat) (x : Vad) (p : Probe) (s : State) :
  vads (env s) !! v = Some x ->
  vadRunning x = true ->
  hasSpoken x = true ->
  isRecordingRef (refs s) = true ->
  mediaRecorderRef (refs s) = Some r ->
  recorders (env s) !! r = Some Recording ->
  aboveThreshold (frequencyData p) = false ->
  let s' := step (VadFrame v p) s in
  ((now p - lastSoundTime x <= SILENCE_DURATION)%Z -> s' = s)
  /\ ((SILENCE_DURATION < now p - lastSoundTime x)%Z ->
        recorders (env s') !! r = Some Stopped
        /\ isRecordingRef (refs s') = false
        /\ isListening (st s') = false
        /\ vads (env s') !! v
           = Some (Build_Vad (lastSoundTime x) true false)
        /\ forall p', step (VadFrame v p') s' = s').
Proof.
  intros Hv Hrun Hsp Hrec Href Hr Hq s'. subst s'. cbn.
  unfold checkAudioLevel. rewrite Hv, Hrun, Hrec, Hq, Hsp. cbn.
  assert (Hlr : r < List.length (recorders (env s)))
    by now apply lookup_lt_Some in Hr.
  assert (Hlv : v < List.length (vads (env s)))
    by now apply lookup_lt_Some in Hv.
  split; intros Ht.
  - assert (E : (SILENCE_DURATION <? now p - lastSoundTime x)%Z = false)
      by (apply Z.ltb_ge; lia).
    now rewrite E.
  - assert (E : (SILENCE_DURATION <? now p - lastSoundTime x)%Z = true)
      by (apply Z.ltb_lt; lia).
    rewrite E. unfold vadStop, recorderRecording. rewrite Href, Hr. cbn.
    rewrite Hsp.
    split; [now apply list_lookup_insert_eq|].
    split; [reflexivity|]. split; [reflexivity|].
    split; [now apply list_lookup_insert_eq|].
    intros p'. unfold checkAudioLevel. cbn.
    now rewrite list_lookup_insert_eq by exact Hlv.
Qed.

Lemma vad_stops_after_silence_witness :
  let s := run [VadFrame 0 {| now := 200; frequencyData := [40; 60; 20]%Z |}]
               (startRecording (silence 0) micReady) in
  step (VadFrame 0 (silence 1700)) s = s
  /\ recorders (env (step (VadFrame 0 (silence 1701)) s)) !! 0 = Some Stopped.
Proof.
  intros s.
  assert (Hv : vads (env s) !! 0 = Some (Build_Vad 200 true true))
    by (vm_compute; reflexivity).
  assert (Hrec : isRecordingRef (refs s) = true) by (vm_compute; reflexivity).
  assert (Href : mediaRecorderRef (refs s) = Some 0)
    by (vm_compute; reflexivity).
  assert (Hr : recorders (env s) !! 0 = Some Recording)
    by (vm_compute; reflexivity).
  split.
  - destruct (vad_stops_after_silence 0 0 _ (silence 1700) s Hv eq_refl eq_refl
                Hrec Href Hr eq_refl) as [H _].
    apply H. vm_compute. discriminate.
  - destruct (vad_stops_after_silence 0 0 _ (silence 1701) s Hv eq_refl eq_refl
                Hrec Href Hr eq_refl) as [_ H].
    apply H. vm_compute. reflexivity.
Defined.

Lemma chunks_run sizes : forall s,
  chunksRef (refs (run (chunkEvents sizes) s))
  = chunksRef (refs s) ++ List.filter (fun z => (0 <? z)%Z) sizes.
Proof.
  induction sizes as [|z sizes IH]; intros s; [cbn; now rewrite app_nil_r|].
  change (run (chunkEvents (z :: sizes)) s)
    with (run (chunkEvents sizes) (onDataAvailable z s)).
  rewrite IH. unfold onDataAvailable. cbn [List.filter].
  destruct (0 <? z)%Z; cbn; [now rewrite <- app_assoc | reflexivity].
Qed.

Lemma sumZ_positive (l : list Z) :
  (0 <= sumZ (List.filter (fun z => (0 <? z)%Z) l))%Z.
Proof.
  induction l as [|z l IH]; [cbn; lia|]. cbn [List.filter].
  destruct (0 <? z)%Z eqn:E; [|exact IH].
  apply Z.ltb_lt in E. unfold sumZ in *. cbn [fold_right]. lia.
Qed.

(** Property X11.  [startListening] empties the chunk buffer, and
    [ondataavailable] keeps the chunks of positive size only: after the
    chunks [sizes], the buffer holds the positive ones in order, so the blob
    that [onstop] builds has their total size, which is not negative;
    [onstop] empties the buffer, and opens no turn when the total is at most
    [MIN_BLOB_SIZE]. *)
Theorem blob_is_sum_of_chunks (p : Probe) (s : State) (sizes : list Z) :
  let s1 := run (chunkEvents sizes) (startRecording p s) in
  let size := sumZ (List.filter (fun z => (0 <? z)%Z) sizes) in
  chunksRef (refs s1) = List.filter (fun z => (0 <? z)%Z) sizes
  /\ sumZ (chunksRef (refs s1)) = size
  /\ (0 <= size)%Z
  /\ chunksRef (refs (onStopHandler s1)) = []
  /\ ((size <= MIN_BLOB_SIZE)%Z ->
        turns (env (onStopHandler s1)) = turns (env s1)).
Proof.
  intros s1 size.
  assert (H0 : chunksRef (refs (startRecording p s)) = [])
    by (clear; handler_cases; reflexivity).
  assert (H1 : chunksRef (refs s1) = List.filter (fun z => (0 <? z)%Z) sizes).
  { subst s1. now rewrite chunks_run, H0. }
  split; [exact H1|]. split; [now rewrite H1|].
  split; [apply sumZ_positive|]. split.
  - clear. handler_cases; reflexivity.
  - intros Hs. unfold onStopHandler. rewrite H1. fold size.
    assert (E : (MIN_BLOB_SIZE <? size)%Z = false)
      by (apply Z.ltb_ge; exact Hs).
    rewrite E. clear. handler_cases; reflexivity.
Qed.

Lemma startsWith_http (s : string) :
  startsWith (chars "http") (chars ("https://" ++ s)) = true.
Proof. reflexivity. Qed.

Lemma nonEmptyString_false s : nonEmptyString s = false -> s = ""%string.
Proof. now destruct s. Qed.

(** Property X13.  The address of the API is empty when the variable is
    unset or empty, and starts with ["http"] otherwise: a value that starts
    with ["http"] (in lower case: the test is case-sensitive) is kept as it
    is, any other gets ["https://"] in front.  Normalising the result again
    changes nothing. *)
Theorem api_base_url_has_protocol (v : option string) :
  let u := API_BASE_URL v in
  (u = ""%string \/ startsWith (chars "http") (chars u) = true)
  /\ (u = ""%string <-> rawApiUrl v = ""%string)
  /\ (startsWith (chars "http") (chars (rawApiUrl v)) = true -> u = rawApiUrl v)
  /\ API_BASE_URL (Some u) = u
  /\ (rawApiUrl v <> ""%string ->
      startsWith (chars "http") (chars (rawApiUrl v)) = false ->
      u = ("https://" ++ rawApiUrl v)%string)
  /\ API_BASE_URL None = ""%string
  /\ API_BASE_URL (Some "api.example.com"%string) = "https://api.example.com"%string
  /\ API_BASE_URL (Some "http://localhost:8000"%string) = "http://localhost:8000"%string
  /\ API_BASE_URL (Some "HTTP://api.example.com"%string)
     = "https://HTTP://api.example.com"%string.
Proof.
  assert (Hx : API_BASE_URL None = ""%string
    /\ API_BASE_URL (Some "api.example.com"%string) = "https://api.example.com"%string
    /\ API_BASE_URL (Some "http://localhost:8000"%string)
       = "http://localhost:8000"%string
    /\ API_BASE_URL (Some "HTTP://api.example.com"%string)
       = "https://HTTP://api.example.com"%string)
    by (vm_compute; repeat split; reflexivity).
  revert Hx. unfold API_BASE_URL at 5. cbn zeta. intros Hx.
  destruct (nonEmptyString (rawApiUrl v)) eqn:En; cbn [andb].
  - destruct (startsWith (chars "http") (chars (rawApiUrl v))) eqn:Es; cbn [negb].
    + split; [now right|]. split; [reflexivity|]. split; [reflexivity|].
      split; [unfold API_BASE_URL; cbn [rawApiUrl]; now rewrite En, Es|].
      split; [discriminate|exact Hx].
    + split; [right; apply startsWith_http|].
      split; [split; [discriminate|intros H; rewrite H in En; discriminate]|].
      split; [discriminate|].
      split; [unfold API_BASE_URL; cbn [rawApiUrl]; now rewrite startsWith_http|].
      split; [reflexivity|exact Hx].
  - apply nonEmptyString_false in En. rewrite En.
    split; [now left|]. split; [reflexivity|]. split; [reflexivity|].
    split; [reflexivity|]. split; [congruence|exact Hx].
Qed.

Lemma code_bound c : code c < 256.
Proof. apply nat_ascii_bounded. Qed.

Lemma int16_range lo hi : isInt16 (int16 lo hi).
Proof.
  unfold isInt16, int16. pose proof (code_bound lo). pose proof (code_bound hi).
  cbn zeta. destruct (Z.ltb_spec (Z.of_nat (code lo) + 256 * Z.of_nat (code hi)) 32768); lia.
Qed.

Lemma int16_bytes v : isInt16 v ->
  match bytesOfInt16 v with
  | [lo; hi] => int16 lo hi = v
  | _ => False
  end.
Proof.
  unfold isInt16, bytesOfInt16, int16, code. intros Hv.
  assert (H1 : (0 <= v mod 256 < 256)%Z) by (apply Z.mod_pos_bound; lia).
  assert (H2 : (0 <= (v / 256) mod 256 < 256)%Z) by (apply Z.mod_pos_bound; lia).
  rewrite !nat_ascii_embedding by lia. rewrite !Z2Nat.id by lia.
  cbn zeta.
  destruct (Z.ltb_spec (v mod 256 + 256 * ((v / 256) mod 256)) 32768);
    Z.div_mod_to_equations; lia.
Qed.

Lemma pcm16_spec n : forall bytes, List.length bytes <= n ->
  (Nat.odd (List.length bytes) = true -> pcm16 bytes = None)
  /\ (Nat.even (List.length bytes) = true ->
        exists vs,
          pcm16 bytes = Some vs
          /\ 2 * List.length vs = List.length bytes
          /\ Forall isInt16 vs
          /\ forall i lo hi,
               bytes !! (2 * i) = Some lo -> bytes !! (2 * i + 1) = Some hi ->
               vs !! i = Some (int16 lo hi)).
Proof.
  induction n as [|n IH]; intros bytes Hn.
  - destruct bytes; [|simpl in Hn; lia]. split; [discriminate|].
    intros _. exists []. repeat split; [constructor|]. intros i lo hi H. 
    destruct i; discriminate H.
  - destruct bytes as [|lo [|hi rest]].
    + split; [discriminate|]. intros _. exists []. repeat split; [constructor|].
      intros i lo hi H. destruct i; discriminate H.
    + split; [reflexivity | discriminate].
    + assert (Hr : List.length rest <= n) by (simpl in Hn; lia).
      destruct (IH rest Hr) as [Hodd Heven].
      change (List.length (lo :: hi :: rest)) with (S (S (List.length rest))).
      rewrite Nat.odd_succ_succ, Nat.even_succ_succ. cbn [pcm16]. split.
      * intros H. now rewrite (Hodd H).
      * intros H. destruct (Heven H) as (vs & -> & Hl & Hall & Hi).
        exists (int16 lo hi :: vs). cbn [option_map List.length].
        split; [reflexivity|]. split; [lia|].
        split; [constructor; [apply int16_range | exact Hall]|].
        intros i lo' hi' H0 H1. destruct i as [|i].
        -- cbn in H0, H1. now simplify_eq.
        -- replace (2 * S i) with (S (S (2 * i))) in H0 by lia.
           replace (2 * S i + 1) with (S (S (2 * i + 1))) in H1 by lia.
           cbn in H0, H1 |- *. now apply Hi.
Qed.

Lemma pcm16_bytes vs :
  Forall isInt16 vs -> pcm16 (concat (map bytesOfInt16 vs)) = Some vs.
Proof.
  induction 1 as [|v vs Hv _ IH]; [reflexivity|].
  pose proof (int16_bytes v Hv) as Hb.
  cbn [map concat]. destruct (bytesOfInt16 v) as [|lo [|hi [|]]] eqn:E;
    try contradiction.
  cbn [app pcm16]. now rewrite IH, Hb.
Qed.

Lemma unitSample_int16 v : isInt16 v -> unitSample (QArith_base.Qmake v 32768).
Proof.
  unfold isInt16, unitSample, QArith_base.Qle, QArith_base.Qlt. simpl. lia.
Qed.

(** Property X14.  [decodePCM16ToFloat32] on a payload that [atob]
    decodes to [n] bytes: for an odd [n] it throws; for an even [n] it
    returns [n / 2] samples, each at least -1 and below 1, the sample [i]
    being the 16-bit two's complement number whose low byte is byte [2 i] and
    whose high byte is byte [2 i + 1], divided by 32768.  So it inverts the
    little-endian encoding of any sequence of 16-bit samples. *)
Theorem pcm16_decoding (atob : string -> option string) (base64Audio raw : string) :
  atob base64Audio = Some raw ->
  let n := List.length (chars raw) in
  (Nat.odd n = true -> decodePCM16ToFloat32 atob base64Audio = None)
  /\ (Nat.even n = true ->
        exists samples,
          decodePCM16ToFloat32 atob base64Audio = Some samples
          /\ 2 * List.length samples = n
          /\ Forall unitSample samples
          /\ forall i lo hi,
               chars raw !! (2 * i) = Some lo ->
               chars raw !! (2 * i + 1) = Some hi ->
               samples !! i = Some (QArith_base.Qmake (int16 lo hi) 32768))
  /\ (forall vs, Forall isInt16 vs ->
        chars raw = concat (map bytesOfInt16 vs) ->
        decodePCM16ToFloat32 atob base64Audio
        = Some (map (fun v => QArith_base.Qmake v 32768) vs)).
Proof.
  intros Ha n. unfold decodePCM16ToFloat32. rewrite Ha.
  destruct (pcm16_spec n (chars raw) (le_n _)) as [Hodd Heven].
  split; [intros H; now rewrite (Hodd H)|]. split.
  - intros H. destruct (Heven H) as (vs & -> & Hl & Hall & Hi).
    eexists. split; [reflexivity|]. rewrite length_map.
    split; [exact Hl|]. split.
    + apply Forall_map. eapply List.Forall_impl; [|exact Hall].
      apply unitSample_int16.
    + intros i lo hi H0 H1. rewrite list_lookup_fmap, (Hi i lo hi H0 H1).
      reflexivity.
  - intros vs Hvs ->. now rewrite pcm16_bytes.
Qed.

Lemma pcm16_decoding_witness :
  let raw := str [ascii_of_nat 0; ascii_of_nat 128;
                  ascii_of_nat 255; ascii_of_nat 127] in
  decodePCM16ToFloat32 (fun _ => Some raw) "AID/fw=="
  = Some [QArith_base.Qmake (-32768) 32768; QArith_base.Qmake 32767 32768].
Proof.
  intros raw.
  destruct (pcm16_decoding (fun _ => Some raw) "AID/fw==" raw eq_refl)
    as (_ & _ & H).
  apply (H [-32768; 32767]%Z).
  - repeat constructor; unfold isInt16; lia.
  - reflexivity.
Defined.

(** [atob] on a few payloads: padding is optional, white space is skipped,
    the bits beyond the last byte are dropped, and a length of [4 k + 1], a
    character outside the alphabet or a misplaced [=] is refused. *)
Lemma atob_examples :
  atob "UklGRg==" = Some "RIFF"%string
  /\ atob "UklGRg" = Some "RIFF"%string
  /\ atob " Ukl GRg= = " = Some "RIFF"%string
  /\ atob "QQ==" = Some "A"%string
  /\ atob "QR" = Some "A"%string
  /\ atob "" = Some ""%string
  /\ option_map chars (atob "AID/fw==")
     = Some [ascii_of_nat 0; ascii_of_nat 128; ascii_of_nat 255;
             ascii_of_nat 127]
  /\ atob "Q" = None
  /\ atob "QQ=" = None
  /\ atob "Q=Q=" = None
  /\ atob "QQ==QQ==" = None
  /\ atob "UklG-g==" = None.
Proof. vm_compute. repeat split; reflexivity. Qed.

(** What [playAudio] does with a payload: nothing without a worklet or when
    its closure is muted; otherwise the samples are decoded first, so a
    payload that does not decode posts nothing and sets nothing, and the
    loop of the response logs the exception and goes on. *)
Lemma playAudio_decodes_first (muted : bool) (base64Audio : string) (s : State) :
  (workletRef (refs s) = false \/ muted = true ->
     playAudio muted base64Audio s = Some s)
  /\ (workletRef (refs s) = true -> muted = false ->
      match decodePCM16ToFloat32 atob base64Audio with
      | Some samples =>
          exists s', playAudio muted base64Audio s = Some s'
            /\ workletInbox (env s') = workletInbox (env s) ++ [MsgAudio samples]
            /\ isSpeaking (st s') = true
      | None => playAudio muted base64Audio s = None
      end)
  /\ (forall k x,
        useBeyRef (refs s) = false -> workletRef (refs s) = true ->
        svMuted (turnEnv x) = false ->
        decodePCM16ToFloat32 atob base64Audio = None ->
        processEvent k x (EvAudio base64Audio) s
        = consoleError "SSE parsing error:" s)
  /\ decodePCM16ToFloat32 atob "AID/fw=="
     = Some [QArith_base.Qmake (-32768) 32768; QArith_base.Qmake 32767 32768]
  /\ decodePCM16ToFloat32 atob "AID/" = None
  /\ decodePCM16ToFloat32 atob "not base64" = None.
Proof.
  split; [|split; [|split]].
  - unfold playAudio. intros [-> | ->]; [reflexivity|].
    now rewrite orb_true_r.
  - intros Hw ->. unfold playAudio. rewrite Hw. cbn [negb orb].
    destruct (decodePCM16ToFloat32 atob base64Audio) as [samples|];
      [|reflexivity].
    eexists. split; [reflexivity|]. unfold postToWorklet. rewrite Hw.
    now split.
  - intros k x Hb Hw Hm Hd. cbn [processEvent]. unfold playAudio.
    now rewrite Hb, Hw, Hm, Hd.
  - vm_compute. repeat split; reflexivity.
Qed.

Section ReplaceJoin.

Variables w d : list ascii.

Hypothesis w_token : isToken w.

Lemma startsWith_space a b :
  startsWith w (a ++ " "%char :: b) = startsWith w a.
Proof.
  destruct w_token as [_ Hall]. clear w_token. revert a.
  induction Hall as [|x u Hx _ IH]; intros a; [reflexivity|].
  destruct a as [|c a]; cbn [app startsWith].
  - destruct (Ascii.eqb_spec x " "%char) as [->|_]; [discriminate | reflexivity].
  - now rewrite IH.
Qed.

Lemma prev_irrelevant p p' s :
  isWordOpt p = isWordOpt p' ->
  replaceWordFrom w d p 0 s = replaceWordFrom w d p' 0 s.
Proof.
  intros H. destruct s as [|c s]; [reflexivity|].
  cbn [replaceWordFrom]. unfold matchWordAt, wordBoundary. now rewrite H.
Qed.

Lemma match_space prev c a b :
  matchWordAt w prev (c :: a ++ " "%char :: b) = matchWordAt w prev (c :: a).
Proof.
  unfold matchWordAt. cbn [head].
  change (c :: a ++ " "%char :: b) with ((c :: a) ++ " "%char :: b).
  rewrite startsWith_space.
  destruct (startsWith w (c :: a)) eqn:Es; [|now rewrite !andb_false_r].
  apply startsWith_split in Es as [r Hr]. rewrite Hr, <- app_assoc.
  rewrite !skipn_app_exact. destruct r; reflexivity.
Qed.

Lemma match_length prev c a :
  matchWordAt w prev (c :: a) = true -> List.length w - 1 <= List.length a.
Proof.
  unfold matchWordAt. intros [[_ Hs]%andb_true_iff _]%andb_true_iff.
  apply startsWith_split in Hs as [r Hr].
  apply (f_equal (@List.length ascii)) in Hr. rewrite length_app in Hr.
  simpl in Hr. lia.
Qed.

Lemma replace_join_from a : forall prev skip b,
  skip <= List.length a ->
  replaceWordFrom w d prev skip (a ++ " "%char :: b)
  = replaceWordFrom w d prev skip a
    ++ " "%char :: replaceWordFrom w d None 0 b.
Proof.
  induction a as [|c a IH]; intros prev skip b Hs.
  - simpl in Hs. assert (skip = 0) as -> by lia. cbn [app].
    rewrite (replace_space w d w_token). cbn [replaceWordFrom app].
    f_equal. now apply prev_irrelevant.
  - cbn [app replaceWordFrom]. destruct skip as [|k].
    + rewrite match_space.
      destruct (matchWordAt w prev (c :: a)) eqn:Em.
      * rewrite IH by now apply match_length with prev c.
        now rewrite app_assoc.
      * rewrite IH by lia. reflexivity.
    + apply IH. simpl in Hs. lia.
Qed.

Lemma replace_join a b :
  replaceWord w d (a ++ " "%char :: b)
  = replaceWord w d a ++ " "%char :: replaceWord w d b.
Proof. unfold replaceWord. apply replace_join_from. lia. Qed.

End ReplaceJoin.

Lemma table_join (table : list (string * string)) : forall a b,
  Forall (fun wd => isToken (chars (fst wd)) /\ isToken (chars (snd wd))) table ->
  fold_left (fun normalized wd =>
               replaceWord (chars (fst wd)) (chars (snd wd)) normalized)
            table (a ++ " "%char :: b)
  = fold_left (fun normalized wd =>
                 replaceWord (chars (fst wd)) (chars (snd wd)) normalized)
              table a
    ++ " "%char
       :: fold_left (fun normalized wd =>
                       replaceWord (chars (fst wd)) (chars (snd wd)) normalized)
                    table b.
Proof.
  induction table as [|wd table IH]; intros a b Ht; [reflexivity|].
  apply Forall_cons_1 in Ht as [[Hw _] Ht]. cbn [fold_left].
  rewrite (replace_join _ _ Hw). now apply IH.
Qed.

Lemma normalize_join a b :
  normalizeWords (a ++ " "%char :: b)
  = normalizeWords a ++ " "%char :: normalizeWords b.
Proof.
  unfold normalizeWords, toLowerCase. rewrite map_app. cbn [map].
  change (toLowerChar " "%char) with " "%char.
  apply table_join, numberWords_tokens.
Qed.

Lemma cleaned_join a b :
  cleanedDigits (a ++ " "%char :: b) = cleanedDigits a ++ cleanedDigits b.
Proof.
  unfold cleanedDigits. rewrite normalize_join, strip_app. reflexivity.
Qed.

Lemma cleaned_joinSpace (buffer : list (list ascii)) (content : list ascii) :
  exists pre,
    cleanedDigits (joinSpace (buffer ++ [content])) = pre ++ cleanedDigits content.
Proof.
  induction buffer as [|t buffer [pre IH]]; [now exists []|].
  cbn [app].
  rewrite joinSpace_cons by (destruct buffer; discriminate).
  rewrite cleaned_join, IH. exists (cleanedDigits t ++ pre).
  now rewrite app_assoc.
Qed.

Lemma extractPhoneNumber_nonempty text r :
  extractPhoneNumber text = Some r -> nonEmptyString r = true.
Proof.
  unfold extractPhoneNumber. rewrite extractPhoneNumberL_eq.
  destruct (matchDigitRun 10 _) as [run|] eqn:E; [|discriminate].
  intros [= <-]. apply matchDigitRun_sound in E; [|lia].
  destruct E as (pre & post & _ & _ & Hn & _).
  pose proof (lastN_length 10 run Hn) as Hl.
  destruct (lastN 10 run); [discriminate | reflexivity].
Qed.

(** Property X15.  In the transcript handler, the second search of
    [extractPhoneNumber(combinedSpeech) || extractPhoneNumber(content)]
    never contributes: [content] is the last entry of the buffer that
    [combinedSpeech] joins with spaces, and a number found in [content]
    alone is found in the joined text as well (not necessarily the same
    number), so the expression equals its first operand. *)
Theorem phone_fallback_is_redundant (buffer : list string) (content : string) :
  let combinedSpeech := str (joinSpace (map chars (buffer ++ [content]))) in
  orElse (extractPhoneNumber combinedSpeech) (extractPhoneNumber content)
  = extractPhoneNumber combinedSpeech.
Proof.
  intros combinedSpeech. unfold orElse.
  destruct (extractPhoneNumber combinedSpeech) as [r|] eqn:E.
  - now rewrite (extractPhoneNumber_nonempty _ _ E).
  - subst combinedSpeech. revert E. unfold extractPhoneNumber.
    rewrite chars_str, !extractPhoneNumberL_eq, map_app. cbn [map].
    destruct (cleaned_joinSpace (map chars buffer) (chars content)) as [pre ->].
    destruct (matchDigitRun 10 (pre ++ _)) eqn:E1; [discriminate|]. intros _.
    apply matchDigitRun_none in E1; [|lia].
    destruct (matchDigitRun 10 (cleanedDigits (chars content))) eqn:E2;
      [|reflexivity].
    exfalso. apply E1, hasLongRun_app_r.
    apply matchDigitRun_sound in E2; [|lia].
    destruct E2 as (p & q & -> & Hd & Hn & _). now exists p, l, q.
Qed.

Ltac ident_cases :=
  unfold identStep, onTranscript, autoLookupUser, lookupUser, onLookupAnswered,
    onCooldown, clearUser, resetForCall, onCancelAnswered, dropAppointment,
    identToast in *;
  cbn -[pushSpeech Nat.ltb];
  repeat (case_match; simplify_eq; cbn -[pushSpeech Nat.ltb]).

Lemma tail_length {A} (l : list A) : List.length (tail l) = List.length l - 1.
Proof. destruct l; simpl; lia. Qed.

Lemma pushSpeech_bounded x (l : list string) :
  List.length l <= 5 -> List.length (pushSpeech x l) <= 5.
Proof.
  intros H. unfold pushSpeech. cbn zeta.
  destruct (5 <? List.length (l ++ [x])) eqn:E.
  - rewrite tail_length, length_app. simpl. lia.
  - now apply Nat.ltb_ge in E.
Qed.

Lemma step_buffer_bounded e s :
  List.length (recentUserSpeechRef s) <= 5 ->
  List.length (recentUserSpeechRef (identStep e s)) <= 5.
Proof.
  intros H.
  destruct e; ident_cases; try (simpl; lia); try assumption;
    now apply pushSpeech_bounded.
Qed.

Lemma run_buffer_bounded es s :
  List.length (recentUserSpeechRef s) <= 5 ->
  List.length (recentUserSpeechRef (identRun es s)) <= 5.
Proof.
  revert s. induction es as [|e es IH]; intros s H; [exact H|].
  apply IH, step_buffer_bounded, H.
Qed.

Lemma pushSpeech_last x (l : list string) :
  List.length l <= 5 -> last (pushSpeech x l) = Some x.
Proof.
  intros H. unfold pushSpeech. cbn zeta.
  destruct (5 <? List.length (l ++ [x])) eqn:E; [|apply last_snoc].
  destruct l as [|y l]; [discriminate E|]. cbn [app tail]. apply last_snoc.
Qed.

(** Property X16.  The buffer of recent user speech never holds more than
    five entries, whatever happens to the panel; the newest utterance is its
    last entry when it is pushed; and a transcript that makes the detection
    send a lookup leaves the buffer empty, with the trigger and the
    looking-up flag up. *)
Theorem speech_buffer_bounded (es : list IdentEvent) (s : Ident) :
  List.length (recentUserSpeechRef s) <= 5 ->
  List.length (recentUserSpeechRef (identRun es s)) <= 5
  /\ (forall x, last (pushSpeech x (recentUserSpeechRef s)) = Some x)
  /\ forall c r content,
       let s' := onTranscript c r content s in
       lookups s' <> lookups s ->
       recentUserSpeechRef s' = []
       /\ autoDetectionTriggeredRef s' = true
       /\ isLookingUp s' = true.
Proof.
  intros H. split; [now apply run_buffer_bounded|].
  split; [intros x; now apply pushSpeech_last|].
  intros c r content s' Hne. subst s'. revert Hne.
  ident_cases; intros Hne; try congruence; auto.
Qed.

Lemma speech_buffer_bounded_witness :
  List.length
    (recentUserSpeechRef
       (identRun (map (Transcript (identEnvOf identInit) RoleUser)
                    ["hello"; "I would like"; "to book"; "an appointment";
                     "for next week"; "if possible"; "please"]%string)
                 identInit)) <= 5.
Proof.
  apply (speech_buffer_bounded
           (map (Transcript (identEnvOf identInit) RoleUser)
              ["hello"; "I would like"; "to book"; "an appointment";
               "for next week"; "if possible"; "please"]%string)
           identInit).
  simpl. lia.
Defined.

Lemma filter_insert_same (l : list LookupRequest) j q q' :
  l !! j = Some q -> lrAuto q' = lrAuto q ->
  List.length (List.filter lrAuto (<[j := q']> l))
  = List.length (List.filter lrAuto l).
Proof.
  revert j. induction l as [|x l IH]; intros j Hj Hq; [discriminate|].
  destruct j as [|j]; cbn in Hj.
  - simplify_eq. change (<[0:=q']> (q :: l)) with (q' :: l).
    cbn [List.filter]. rewrite Hq. now destruct (lrAuto q).
  - change (<[S j:=q']> (x :: l)) with (x :: <[j:=q']> l).
    cbn [List.filter]. specialize (IH j Hj Hq).
    destruct (lrAuto x); cbn [List.length]; now rewrite ?IH.
Qed.

Lemma filter_snoc_auto (l : list LookupRequest) q :
  List.length (List.filter lrAuto (l ++ [q]))
  = List.length (List.filter lrAuto l) + (if lrAuto q then 1 else 0).
Proof.
  rewrite List.filter_app, length_app. simpl. now destruct (lrAuto q).
Qed.

(** While the trigger is up, no detection sends a request. *)
Lemma step_triggered e s :
  autoDetectionTriggeredRef s = true -> rearms e = false ->
  autoDetectionTriggeredRef (identStep e s) = true
  /\ autoCount (identStep e s) = autoCount s.
Proof.
  unfold autoCount. intros Ht He.
  destruct e; try discriminate He; clear He; ident_cases;
    rewrite ?Ht, ?orb_true_r, ?andb_false_r in *; simplify_eq;
    try (split; [assumption || reflexivity|]);
    rewrite ?filter_snoc_auto; cbn; try lia;
    try (erewrite filter_insert_same;
         [reflexivity | eassumption | cbn; congruence]).
Qed.

Lemma step_untriggered e s :
  rearms e = false ->
  autoCount (identStep e s) = autoCount s
  \/ (autoCount (identStep e s) = autoCount s + 1
      /\ autoDetectionTriggeredRef (identStep e s) = true).
Proof.
  unfold autoCount. intros He.
  destruct e; try discriminate He; clear He; ident_cases;
    rewrite ?filter_snoc_auto; cbn;
    try (left; solve [lia | reflexivity
                     | erewrite filter_insert_same;
                       [reflexivity | eassumption | cbn; congruence]]);
    right; (split; [lia | reflexivity]).
Qed.

Lemma run_triggered es s :
  autoDetectionTriggeredRef s = true ->
  Forall (fun e => rearms e = false) es ->
  autoDetectionTriggeredRef (identRun es s) = true
  /\ autoCount (identRun es s) = autoCount s.
Proof.
  revert s. induction es as [|e es IH]; intros s Ht Hes; [auto|].
  apply Forall_cons_1 in Hes as [He Hes].
  destruct (step_triggered e s Ht He) as [Ht' Hc].
  destruct (IH _ Ht' Hes) as [Ht'' Hc'].
  split; [exact Ht''|].
  change (identRun (e :: es) s) with (identRun es (identStep e s)). congruence.
Qed.

(** Property X17.  The detection sends at most one lookup until it is
    armed again, which only the cool-down after a failed lookup, the button
    that forgets the caller and the start of a call do: over any other
    events the number of automatic lookups grows by one at most, it does
    not grow at all when the trigger is up at the start, and once it has
    grown the trigger is up. *)
Theorem auto_lookup_fires_once (es : list IdentEvent) (s : Ident) :
  Forall (fun e => rearms e = false) es ->
  let s' := identRun es s in
  autoCount s' <= autoCount s + 1
  /\ (autoDetectionTriggeredRef s = true ->
        autoCount s' = autoCount s /\ autoDetectionTriggeredRef s' = true)
  /\ (autoCount s' = autoCount s + 1 -> autoDetectionTriggeredRef s' = true).
Proof.
  intros Hes s'. subst s'.
  assert (Hmain : autoCount (identRun es s) = autoCount s
                  \/ (autoCount (identRun es s) = autoCount s + 1
                      /\ autoDetectionTriggeredRef (identRun es s) = true)).
  { revert s. induction Hes as [|e es He Hes IH]; intros s; [now left|].
    change (identRun (e :: es) s) with (identRun es (identStep e s)).
    destruct (step_untriggered e s He) as [Hc | [Hc Ht]].
    - destruct (IH (identStep e s)) as [H | [H H']]; [left | right]; 
        [congruence | split; [congruence | exact H']].
    - destruct (run_triggered es _ Ht Hes) as [Ht' Hc'].
      right. split; [congruence | exact Ht']. }
  split; [destruct Hmain as [H | [H _]]; lia|]. split.
  - intros Ht. destruct (run_triggered es s Ht Hes). auto.
  - intros Hc. destruct Hmain as [H | [_ H]]; [lia | exact H].
Qed.

Lemma auto_lookup_fires_once_witness :
  let c := identEnvOf identInit in
  autoCount
    (identRun [Transcript c RoleUser "my number is 555 123 4567";
               Transcript c RoleUser "it is five five five 123 4567";
               TypeName "Ann";
               Transcript c RoleUser "call me on 555 987 6543"] identInit)
  <= autoCount identInit + 1.
Proof.
  intros c.
  apply (auto_lookup_fires_once
           [Transcript c RoleUser "my number is 555 123 4567";
            Transcript c RoleUser "it is five five five 123 4567";
            TypeName "Ann";
            Transcript c RoleUser "call me on 555 987 6543"] identInit).
  repeat constructor.
Defined.

Lemma length_str l : String.length (str l) = List.length l.
Proof. induction l as [|c l IH]; simpl; [reflexivity | now rewrite IH]. Qed.

Lemma extractPhoneNumber_shape text r :
  extractPhoneNumber text = Some r ->
  allOf isDigit (chars r) /\ String.length r = 10.
Proof.
  unfold extractPhoneNumber. rewrite extractPhoneNumberL_eq.
  destruct (matchDigitRun 10 _) as [run|] eqn:E; [|discriminate].
  intros [= <-]. apply matchDigitRun_sound in E; [|lia].
  destruct E as (pre & post & _ & Hd & Hn & _).
  rewrite chars_str, length_str. split; [now apply lastN_all|].
  now apply lastN_length.
Qed.

Lemma detected_phone_shape a b phone :
  truthyString (orElse (extractPhoneNumber a) (extractPhoneNumber b))
  = Some phone ->
  allOf isDigit (chars phone) /\ String.length phone = 10.
Proof.
  unfold truthyString, orElse.
  destruct (extractPhoneNumber a) as [x|] eqn:Ea.
  - rewrite (extractPhoneNumber_nonempty _ _ Ea).
    rewrite (extractPhoneNumber_nonempty _ _ Ea).
    intros [= <-]. now apply extractPhoneNumber_shape with a.
  - destruct (extractPhoneNumber b) as [y|] eqn:Eb; [|discriminate].
    rewrite (extractPhoneNumber_nonempty _ _ Eb).
    intros [= <-]. now apply extractPhoneNumber_shape with b.
Qed.

Lemma digitsOnly_digits s : allOf isDigit (chars (digitsOnly s)).
Proof.
  unfold digitsOnly, allOf. rewrite chars_str.
  apply List.Forall_forall. intros c Hc. now apply List.filter_In in Hc.
Qed.

Lemma valid_insert (l : list LookupRequest) j q q' :
  Forall validRequest l -> l !! j = Some q ->
  lrPhoneNumber q' = lrPhoneNumber q -> lrAuto q' = lrAuto q ->
  Forall validRequest (<[j := q']> l).
Proof.
  intros Hl Hj Hp Ha. apply Forall_insert; [exact Hl|].
  rewrite List.Forall_forall in Hl.
  assert (Hq : validRequest q)
    by now apply Hl, list_elem_of_In, list_elem_of_lookup_2 with j.
  unfold validRequest in *. now rewrite Hp, Ha.
Qed.

Lemma step_validRequests e s :
  Forall validRequest (lookups s) ->
  Forall validRequest (lookups (identStep e s)).
Proof.
  intros H. destruct e; ident_cases; try assumption;
    try (eapply valid_insert; [exact H | eassumption | reflexivity
                              | cbn; congruence]);
    (apply Forall_snoc; [exact H|]);
    first
      [ match goal with
        | Hq : truthyString (orElse _ _) = Some _ |- _ =>
            apply detected_phone_shape in Hq as [Hd Hl];
            split; [exact Hd | exact Hl]
        end
      | split; [apply digitsOnly_digits|]; cbn;
        match goal with
        | Hq : (_ <? 10) = false |- _ => now apply Nat.ltb_ge in Hq
        end ].
Qed.

Lemma run_validRequests es s :
  Forall validRequest (lookups s) ->
  Forall validRequest (lookups (identRun es s)).
Proof.
  revert s. induction es as [|e es IH]; intros s H; [exact H|].
  apply IH, step_validRequests, H.
Qed.

(** Property X18.  Every lookup request carries digits only: exactly ten
    when the detection sent it (the number that [extractPhoneNumber] found),
    ten or more when the form did (all the digits of the input, not the last
    ten).  With fewer than ten digits in the input, [lookupUser] sends
    nothing and shows the toast that asks for a valid number. *)
Theorem lookups_carry_phone_numbers (es : list IdentEvent) (s : Ident) :
  Forall validRequest (lookups s) ->
  (forall q, In q (lookups (identRun es s)) ->
     allOf isDigit (chars (lrPhoneNumber q))
     /\ 10 <= String.length (lrPhoneNumber q)
     /\ (lrAuto q = true -> String.length (lrPhoneNumber q) = 10))
  /\ (forall c,
       String.length (digitsOnly (iePhoneInput c)) < 10 ->
       lookups (lookupUser c s) = lookups s
       /\ isLookingUp (lookupUser c s) = isLookingUp s
       /\ identToasts (lookupUser c s)
          = identToasts s
            ++ [Build_Toast "Invalid phone number"
                  "Please enter a valid 10-digit phone number"])
  /\ (forall c,
       10 <= String.length (digitsOnly (iePhoneInput c)) ->
       lookups (lookupUser c s)
       = lookups s
         ++ [Build_LookupRequest (digitsOnly (iePhoneInput c))
               (truthyString (Some (ieNameInput c))) false false]
       /\ isLookingUp (lookupUser c s) = true
       /\ identToasts (lookupUser c s) = identToasts s)
  /\ (forall v, digitsOnly v = str (List.filter isDigit (chars v)))
  /\ digitsOnly "+1 (555) 123-4567" = "15551234567"%string.
Proof.
  intros H. split; [|split; [|split; [|split]]].
  - intros q Hq. apply (run_validRequests es) in H.
    rewrite List.Forall_forall in H. destruct (H q Hq) as [Hd Hl].
    split; [exact Hd|]. destruct (lrAuto q); split; try lia; auto.
  - intros c Hc. unfold lookupUser. apply Nat.ltb_lt in Hc. rewrite Hc.
    now repeat split.
  - intros c Hc. unfold lookupUser. apply Nat.ltb_ge in Hc. rewrite Hc.
    now repeat split.
  - reflexivity.
  - vm_compute. reflexivity.
Qed.

Lemma lookups_carry_phone_numbers_witness :
  let typed := {| ieIdentified := false; ieLookingUp := false;
                  iePhoneInput := "+1 (555) 123-4567"; ieNameInput := "" |} in
  Forall (fun q => 10 <= String.length (lrPhoneNumber q))
    (lookups (identRun [Transcript (identEnvOf identInit) RoleUser
                          "my number is 555 123 4567";
                        LookupAnswered 0 LookupFailed;
                        TypePhone "+1 (555) 123-4567";
                        ClickLookup typed] identInit)).
Proof.
  intros typed.
  destruct (lookups_carry_phone_numbers
              [Transcript (identEnvOf identInit) RoleUser
                 "my number is 555 123 4567";
               LookupAnswered 0 LookupFailed;
               TypePhone "+1 (555) 123-4567";
               ClickLookup typed] identInit) as [H _].
  - constructor.
  - apply List.Forall_forall. intros q Hq. exact (proj1 (proj2 (H q Hq))).
Defined.

Lemma truthyString_nonempty o x :
  truthyString o = Some x -> nonEmptyString x = true.
Proof.
  unfold truthyString. destruct o as [y|]; [|discriminate].
  destruct (nonEmptyString y) eqn:E; [|discriminate]. now intros [= <-].
Qed.

(** Property X19.  The data handler of the avatar never reports an empty
    transcript.  Data that is not JSON is reported, trimmed, as speech of
    the user, whoever sent it; fields of a JSON message are reported as
    speech of the assistant exactly when the sender is an agent, and such a
    message never reaches the detection of the panel: it sends no lookup and
    leaves the speech buffer and the name alone.  The reports are made:
    data that is not JSON and not blank is reported; the [message] of an
    agent is; and otherwise the first non-empty field among [transcript],
    [text] and [content] is. *)
Theorem avatar_transcripts (jsonParse : string -> Parsed) (rawData : string)
    (identity : option string) :
  (forall r content,
     onDataReceived jsonParse rawData identity = Some (r, content) ->
     nonEmptyString content = true)
  /\ (jsonParse rawData = ParseThrows ->
      forall r content,
        onDataReceived jsonParse rawData identity = Some (r, content) ->
        r = RoleUser /\ content = str (trim (chars rawData)))
  /\ (forall m, jsonParse rawData = ParsedFields m ->
      forall r content,
        onDataReceived jsonParse rawData identity = Some (r, content) ->
        r = (if isFromAgent identity then RoleAssistant else RoleUser))
  /\ (forall m c s, jsonParse rawData = ParsedFields m ->
      isFromAgent identity = true ->
      let s' := deliverData jsonParse c rawData identity s in
      lookups s' = lookups s
      /\ recentUserSpeechRef s' = recentUserSpeechRef s
      /\ nameInput s' = nameInput s)
  /\ (jsonParse rawData = ParseThrows ->
      nonEmptyString (str (trim (chars rawData))) = true ->
      onDataReceived jsonParse rawData identity
      = Some (RoleUser, str (trim (chars rawData))))
  /\ (forall m text, jsonParse rawData = ParsedFields m ->
      truthyString (amMessage m) = Some text ->
      isFromAgent identity = true ->
      onDataReceived jsonParse rawData identity = Some (RoleAssistant, text))
  /\ (forall m content, jsonParse rawData = ParsedFields m ->
      truthyString (amMessage m) = None \/ isFromAgent identity = false ->
      orElse (orElse (amTranscript m) (amText m)) (amContent m) = Some content ->
      nonEmptyString content = true ->
      onDataReceived jsonParse rawData identity
      = Some (if isFromAgent identity then RoleAssistant else RoleUser,
              content)).
Proof.
  split; [|split; [|split; [|split; [|split; [|split]]]]];
    [| | | |
     intros Hp Ht; unfold onDataReceived; rewrite Hp, Ht;
     destruct rawData; [discriminate | reflexivity]
    |intros m text Hp Ht Ha; unfold onDataReceived; now rewrite Hp, Ht, Ha
    |intros m content Hp Hor Hc Hn; unfold onDataReceived; rewrite Hp, Hc, Hn;
     destruct Hor as [-> | ->]; [reflexivity|];
     now destruct (truthyString (amMessage m))].
  - intros r content. unfold onDataReceived.
    destruct (jsonParse rawData) as [|m].
    + destruct (nonEmptyString rawData); [|discriminate]. cbn [andb].
      destruct (nonEmptyString (str _)) eqn:E; [|discriminate].
      now intros [= _ <-].
    + destruct (truthyString (amMessage m)) as [text|] eqn:Et.
      * destruct (isFromAgent identity).
        -- intros [= _ <-]. now apply truthyString_nonempty in Et.
        -- destruct (orElse _ _) as [x|]; [|discriminate].
           destruct (nonEmptyString x) eqn:E; [|discriminate].
           now intros [= _ <-].
      * destruct (orElse _ _) as [x|]; [|discriminate].
        destruct (nonEmptyString x) eqn:E; [|discriminate].
        now intros [= _ <-].
  - intros Hp r content. unfold onDataReceived. rewrite Hp.
    destruct (_ && _); [|discriminate]. now intros [= <- <-].
  - intros m Hp r content. unfold onDataReceived. rewrite Hp.
    destruct (truthyString (amMessage m)), (isFromAgent identity);
      try (now intros [= <- _]);
      destruct (orElse _ _) as [x|]; try discriminate;
      destruct (nonEmptyString x); try discriminate; now intros [= <- _].
  - intros m c s Hp Ha s'. subst s'. unfold deliverData, onDataReceived.
    rewrite Hp, Ha.
    destruct (truthyString (amMessage m)); [now repeat split|].
    destruct (orElse _ _) as [x|]; [|now repeat split].
    destruct (nonEmptyString x); now repeat split.
Qed.
